(** * clean_fetch.py: the reconciliation fetcher of the Open311 data pull

    A shallow embedding of [CleanFetcher] (src/clean_fetch.py) and the
    properties its specification states about it.

    Conventions of the embedding.
    - Python [str] values are byte strings (their UTF-8 encoding): comparing
      UTF-8 byte-wise is comparing code points, and ["-"] is a single byte.
    - JSON numbers are restricted to integers; floats are not modelled.
    - The wall-clock durations kept in [stats] are floats and are left out;
      the reads of the clock are kept as effects.
    - A raised Python exception is a value of [exn]; a function that may
      raise returns a [result]. *)

From Stdlib Require Import ZArith Lia Ascii.
From stdpp Require Import base option list list_numbers gmap sets strings sorting pretty.

Local Open Scope Z_scope.
Set Warnings "-register-all".

(** ** Python values *)

Inductive exn : Type :=
| ValueError
| TypeError
| OverflowError
| IndexError.

Inductive result (A : Type) : Type :=
| Ok (a : A)
| Raise (e : exn).
Arguments Ok {A} a.
Arguments Raise {A} e.

(** Sequencing: the first exception raised aborts what follows. *)
#[global] Instance result_bind : MBind result := λ A B k r,
  match r with
  | Ok a => k a
  | Raise e => Raise e
  end.

(** What [json.loads] builds: [None], [bool], [int], [str], [list], [dict]. *)
Inductive json : Type :=
| JNull
| JBool (b : bool)
| JNum (n : Z)
| JStr (s : string)
| JArr (items : list json)
| JObj (fields : list (string * json)).

(** A record of the registry as the client sees it: a [dict] from field
    names to values. *)
Definition event : Type := list (string * json).

(** [e.get(name)] is [None] when the field is absent. *)
Fixpoint get_field (e : event) (name : string) : option json :=
  match e with
  | [] => None
  | (f, v) :: e' => if String.eqb f name then Some v else get_field e' name
  end.

(** [e.get(name)] and [e.get(name, default)]. *)
Definition ev_get (e : event) (name : string) : json :=
  default JNull (get_field e name).

Definition ev_get_default (e : event) (name : string) (d : json) : json :=
  default d (get_field e name).

(** Python truthiness, as used by [if event_id:] and [if event:]. *)
Definition truthy (v : json) : bool :=
  match v with
  | JNull => false
  | JBool b => b
  | JNum n => negb (n =? 0)
  | JStr s => negb (String.eqb s "")
  | JArr items => match items with [] => false | _ => true end
  | JObj fields => match fields with [] => false | _ => true end
  end.

Definition event_truthy (e : event) : bool :=
  match e with [] => false | _ => true end.

(** The hashable values, up to Python's key equality: [True] and [False]
    hash and compare as [1] and [0]. *)
Inductive pykey : Type :=
| KNone
| KNum (n : Z)
| KStr (s : string).

#[global] Instance pykey_eq_dec : EqDecision pykey.
Proof. solve_decision. Defined.

(** Using a value as a dictionary key: lists and dicts are unhashable. *)
Definition hashable (v : json) : option pykey :=
  match v with
  | JNull => Some KNone
  | JBool b => Some (KNum (if b then 1 else 0))
  | JNum n => Some (KNum n)
  | JStr s => Some (KStr s)
  | JArr _ => None
  | JObj _ => None
  end.

(** ** RecordStore: [self.all_events]

    A Python [dict] keeps its keys in insertion order; assigning to a key
    that is present replaces the value in place. *)
Definition store : Type := list (pykey * event).

Fixpoint dict_set (d : store) (k : pykey) (v : event) : store :=
  match d with
  | [] => [(k, v)]
  | (k', v') :: d' =>
      if decide (k' = k) then (k', v) :: d' else (k', v') :: dict_set d' k v
  end.

Fixpoint dict_get (d : store) (k : pykey) : option event :=
  match d with
  | [] => None
  | (k', v') :: d' => if decide (k' = k) then Some v' else dict_get d' k
  end.

Definition dict_keys (d : store) : list pykey := d.*1.
Definition dict_values (d : store) : list event := d.*2.

(** A sequence of merges [self.all_events[id] = record], from the empty
    store that [__init__] creates. *)
Definition merge_all (writes : list (pykey * event)) : store :=
  foldl (λ d w, dict_set d w.1 w.2) [] writes.


(** ** Dates

    A [datetime.date] is its proleptic Gregorian ordinal
    ([date.toordinal()]): day 1 is 0001-01-01 and [MAXORDINAL] is
    9999-12-31. Arithmetic that leaves this range raises [OverflowError]. *)
Notation date := Z (only parsing).

Definition MAXORDINAL : Z := 3652059.

Definition valid_date (d : date) : Prop := 1 ≤ d ≤ MAXORDINAL.

(** [d + timedelta(days=n)] *)
Definition date_add (d : date) (n : Z) : result date :=
  let o := d + n in
  if (0 <? o) && (o <=? MAXORDINAL) then Ok o else Raise OverflowError.

Definition is_leap (y : Z) : bool :=
  (y mod 4 =? 0) && (negb (y mod 100 =? 0) || (y mod 400 =? 0)).

Definition days_in_month (y m : Z) : Z :=
  if m =? 2 then (if is_leap y then 29 else 28)
  else if (m =? 4) || (m =? 6) || (m =? 9) || (m =? 11) then 30
  else 31.

Definition days_before_year (y : Z) : Z :=
  let y' := y - 1 in
  y' * 365 + y' / 4 - y' / 100 + y' / 400.

Definition days_before_month (y m : Z) : Z :=
  foldr (λ k acc, days_in_month y k + acc) 0 (seqZ 1 (m - 1)).

Definition ymd2ord (y m d : Z) : date :=
  days_before_year y + days_before_month y m + d.

Definition digit_of (c : ascii) : option Z :=
  let n := Z.of_N (Ascii.N_of_ascii c) in
  if (48 <=? n) && (n <=? 57) then Some (n - 48) else None.

Fixpoint digits_value (cs : list ascii) (acc : Z) : option Z :=
  match cs with
  | [] => Some acc
  | c :: cs' =>
      match digit_of c with
      | Some v => digits_value cs' (10 * acc + v)
      | None => None
      end
  end.

Definition is_dash (c : ascii) : bool := Ascii.eqb c "-"%char.

(** [date.fromisoformat] on the format the constructor documents,
    YYYY-MM-DD. (Python 3.11 and later also read other ISO 8601 spellings;
    those are not modelled.) *)
Definition fromisoformat (s : string) : result date :=
  match String.list_ascii_of_string s with
  | [y1; y2; y3; y4; s1; m1; m2; s2; d1; d2] =>
      match digits_value [y1; y2; y3; y4] 0,
            digits_value [m1; m2] 0,
            digits_value [d1; d2] 0 with
      | Some y, Some m, Some d =>
          if is_dash s1 && is_dash s2
             && (1 <=? y) && (1 <=? m) && (m <=? 12)
             && (1 <=? d) && (d <=? days_in_month y m)
          then Ok (ymd2ord y m d)
          else Raise ValueError
      | _, _, _ => Raise ValueError
      end
  | _ => Raise ValueError
  end.

(** ** The registry and the effects of a session *)

Inductive request : Type :=
| ReqRange (start end_ : date) (page : Z)
    (* GET /requests.json?start_date&end_date&extensions=true&page *)
| ReqId (service_request_id : string).
    (* GET /requests/{service_request_id}.json *)

(** What [self.client.get] followed by [raise_for_status] and [json()]
    amounts to: a success status with a JSON array of records, a status
    that [raise_for_status] turns into [HTTPStatusError], or any other
    exception (transport error, timeout, undecodable body). A success is
    taken to carry an array of objects, as the annotations of the two
    fetch functions say; a success body of another shape is outside this
    model. *)
Inductive response : Type :=
| Resp2xx (body : list event)
| RespStatus (code : Z)
| RespFailure.

(** Within one session no request is issued twice, so the registry is a
    function of the request. *)
Definition server : Type := request → response.

(** The effects of the session that the properties speak of, in the order
    they happen. Progress lines printed to the console are left out; the
    warning lines printed by the exception handlers are kept. [ESleep] is
    [time.sleep], the delay primitive of the imported [time] module. *)
Inductive effect : Type :=
| EGet (r : request)
| EWarn (r : request)
| EClock
| ESleep.

#[global] Instance request_eq_dec : EqDecision request.
Proof. solve_decision. Defined.

#[global] Instance effect_eq_dec : EqDecision effect.
Proof. solve_decision. Defined.

(** ** The session object *)

Record stats : Type := mkStats {
  date_fetch_count : nat;
  id_fetch_count : nat;
  total_events : nat
}.

Record fetcher : Type := mkFetcher {
  start_date : date;
  end_date : date;
  all_events : store;
  session_stats : stats;
  trace : list effect
}.

Definition set_events (f : fetcher) (d : store) : fetcher :=
  mkFetcher (start_date f) (end_date f) d (session_stats f) (trace f).

Definition emit (f : fetcher) (es : list effect) : fetcher :=
  mkFetcher (start_date f) (end_date f) (all_events f) (session_stats f)
            (trace f ++ es).

Definition set_stats (f : fetcher) (s : stats) : fetcher :=
  mkFetcher (start_date f) (end_date f) (all_events f) s (trace f).

(** [CleanFetcher.__init__]: nothing but the two dates is checked, and
    nothing is requested. *)
Definition init (start_date end_date : string) : result fetcher :=
  s ← fromisoformat start_date;
  e ← fromisoformat end_date;
  Ok (mkFetcher s e [] (mkStats 0 0 0) []).

(** ** RangeFetcher: [fetch_by_date_range]

    The [while True] loop; [fuel] bounds the number of pages requested and
    [None] means the bound was reached. The result is the list returned
    and the effects performed. *)
Definition PAGE_SIZE : nat := 100.

Fixpoint fetch_pages (fuel : nat) (srv : server) (start end_ : date)
    (page : Z) (events : list event) : option (list event * list effect) :=
  match fuel with
  | O => None
  | S fuel' =>
      let rq := ReqRange start end_ page in
      match srv rq with
      | Resp2xx page_events =>
          match page_events with
          | [] => Some (events, [EGet rq])
          | _ :: _ =>
              let events' := events ++ page_events in
              if (length page_events <? PAGE_SIZE)%nat
              then Some (events', [EGet rq])
              else
                '(r, tr) ← fetch_pages fuel' srv start end_ (page + 1) events';
                Some (r, EGet rq :: tr)
          end
      | RespStatus _ | RespFailure => Some (events, [EGet rq; EWarn rq])
      end
  end.

Definition fetch_by_date_range (fuel : nat) (srv : server)
    (start end_ : date) : option (list event * list effect) :=
  fetch_pages fuel srv start end_ 1 [].

(** ** Phase 1: [phase1_date_based_fetch] *)

Definition window_days : Z := 7.

(** The [while current <= self.end_date] loop. *)
Fixpoint windows_loop (fuel : nat) (current end_date : date)
    (windows : list (date * date)) : option (result (list (date * date))) :=
  if current <=? end_date then
    match fuel with
    | O => None
    | S fuel' =>
        match date_add current (window_days - 1) with
        | Raise e => Some (Raise e)
        | Ok reach =>
            let window_end := Z.min reach end_date in
            match date_add window_end 1 with
            | Raise e => Some (Raise e)
            | Ok next =>
                windows_loop fuel' next end_date
                             (windows ++ [(current, window_end)])
            end
        end
    end
  else Some (Ok windows).

(** [current] grows by at least a day per turn, so the span in days bounds
    the number of turns. *)
Definition plan_windows (start_date end_date : date)
    : option (result (list (date * date))) :=
  windows_loop (Z.to_nat (end_date - start_date + 1)) start_date end_date [].

(** The inner [for event in events] loop: records with a falsy id are
    skipped; an unhashable id raises [TypeError] at the assignment. *)
Fixpoint store_events (events : list event) (d : store) : result store :=
  match events with
  | [] => Ok d
  | event :: rest =>
      let event_id := ev_get event "service_request_id" in
      if truthy event_id then
        match hashable event_id with
        | Some k => store_events rest (dict_set d k event)
        | None => Raise TypeError
        end
      else store_events rest d
  end.

(** The [for i, (start, end) in enumerate(windows, 1)] loop. *)
Fixpoint fetch_windows (fuel : nat) (srv : server)
    (windows : list (date * date)) (f : fetcher) : option (result fetcher) :=
  match windows with
  | [] => Some (Ok f)
  | (start, end_) :: rest =>
      '(events, tr) ← fetch_by_date_range fuel srv start end_;
      match store_events events (all_events f) with
      | Ok d => fetch_windows fuel srv rest (set_events (emit f tr) d)
      | Raise e => Some (Raise e)
      end
  end.

Definition phase1_date_based_fetch (fuel : nat) (srv : server) (f : fetcher)
    : option (result fetcher) :=
  planned ← plan_windows (start_date f) (end_date f);
  match planned with
  | Raise e => Some (Raise e)
  | Ok windows =>
      swept ← fetch_windows fuel srv windows (emit f [EClock]);
      match swept with
      | Raise e => Some (Raise e)
      | Ok f1 =>
          let f2 := emit f1 [EClock] in
          let st := session_stats f2 in
          Some (Ok (set_stats f2
                      (mkStats (length (all_events f2)) (id_fetch_count st)
                               (total_events st))))
      end
  end.

(** ** GapAnalyzer: [analyze_missing_ids] *)

(** ["-" in event_id] *)
Fixpoint has_dash (s : string) : bool :=
  match s with
  | EmptyString => false
  | String c s' => is_dash c || has_dash s'
  end.

(** [event_id.split("-")] *)
Fixpoint split_dash (s : string) : list string :=
  match s with
  | EmptyString => [EmptyString]
  | String c s' =>
      if is_dash c then EmptyString :: split_dash s'
      else match split_dash s' with
           | p :: ps => String c p :: ps
           | [] => [String c EmptyString]
           end
  end.

(** [sorted] on strings and on integers. *)
Definition str_le (a b : string) : Prop := String.leb a b = true.

#[global] Instance str_le_dec : RelDecision str_le.
Proof. intros a b. unfold str_le. apply _. Defined.

Definition sorted_strs (l : list string) : list string := merge_sort str_le l.
Definition sorted_ints (l : list Z) : list Z := merge_sort Z.le l.

(** [ids_by_year[year].add(id_num)] on a [defaultdict(set)] *)
Definition add_id (ids_by_year : gmap string (gset Z)) (year : string)
    (id_num : Z) : gmap string (gset Z) :=
  <[year := (ids_by_year !!! year) ∪ {[id_num]}]> ids_by_year.

(** [max(ids)] of a set that is not empty *)
Definition set_max (ids : gset Z) : Z :=
  match elements ids with
  | [] => 0
  | x :: l => foldl Z.max x l
  end.

(** [set(range(lo, hi))] *)
Definition py_range_set (lo hi : Z) : gset Z := list_to_set (seqZ lo (hi - lo)).

(** The body of [for year in sorted(ids_by_year.keys())]. *)
Definition analyze_year (ids_by_year : gmap string (gset Z))
    (missing_by_year : gmap string (gset Z)) (year : string)
    : gmap string (gset Z) :=
  let ids := ids_by_year !!! year in
  if decide (ids = ∅) then missing_by_year
  else
    let max_id := set_max ids in
    let expected := py_range_set 1 (max_id + 1) in
    let missing := expected ∖ ids in
    <[year := missing]> missing_by_year.

Section analyzer.
(** Python's [int] on a [str]: [None] stands for [ValueError]. *)
Variable py_int : string → option Z.

(** The body of [for event_id in self.all_events.keys()]: a key that is
    not a [str] makes ["-" in event_id] raise [TypeError]. *)
Definition observe_key (ids_by_year : gmap string (gset Z)) (k : pykey)
    : result (gmap string (gset Z)) :=
  match k with
  | KStr event_id =>
      if has_dash event_id then
        match split_dash event_id with
        | part0 :: year :: _ =>
            match py_int part0 with
            | Some id_num => Ok (add_id ids_by_year year id_num)
            | None => Raise ValueError
            end
        | _ => Raise IndexError
        end
      else Ok ids_by_year
  | KNone | KNum _ => Raise TypeError
  end.

Fixpoint group_ids (keys : list pykey) (ids_by_year : gmap string (gset Z))
    : result (gmap string (gset Z)) :=
  match keys with
  | [] => Ok ids_by_year
  | k :: keys' =>
      ids_by_year' ← observe_key ids_by_year k;
      group_ids keys' ids_by_year'
  end.

Definition analyze_missing_ids (d : store) : result (gmap string (gset Z)) :=
  ids_by_year ← group_ids (dict_keys d) ∅;
  Ok (foldl (analyze_year ids_by_year) ∅
            (sorted_strs (elements (dom ids_by_year)))).

(** The partition and sequence number a key of the store stands for, when
    it has one. *)
Definition key_id (k : pykey) : option (string * Z) :=
  match k with
  | KStr event_id =>
      if has_dash event_id then
        match split_dash event_id with
        | part0 :: year :: _ => id_num ← py_int part0; Some (year, id_num)
        | _ => None
        end
      else None
  | _ => None
  end.

Definition key_in_year (year : string) (k : pykey) : option Z :=
  '(y, n) ← key_id k; if decide (y = year) then Some n else None.

(** PartitionCoverage: the sequence numbers observed in a partition. *)
Definition observed_ids (d : store) (year : string) : gset Z :=
  list_to_set (omap (key_in_year year) (dict_keys d)).

(** The keys [analyze_missing_ids] reads without raising. *)
Definition key_readable (k : pykey) : Prop :=
  match k with
  | KStr event_id => has_dash event_id = true → is_Some (key_id k)
  | _ => False
  end.
End analyzer.

(** [int] on a string of ASCII characters: surrounding white space (the
    space and the characters 9 to 13), an optional sign, decimal digits
    with single underscores between them. Strings with characters beyond
    ASCII, where [int] also reads other decimal digits, are not covered. *)
Definition is_space (c : ascii) : bool :=
  let n := Z.of_N (N_of_ascii c) in
  ((9 <=? n) && (n <=? 13)) || (n =? 32).

Fixpoint lstrip (cs : list ascii) : list ascii :=
  match cs with
  | [] => []
  | c :: cs' => if is_space c then lstrip cs' else cs
  end.

Definition strip (cs : list ascii) : list ascii :=
  reverse (lstrip (reverse (lstrip cs))).

Fixpoint int_digits (cs : list ascii) (acc : Z) (after_digit : bool)
    : option Z :=
  match cs with
  | [] => if after_digit then Some acc else None
  | c :: cs' =>
      if Ascii.eqb c "_"%char
      then (if after_digit then int_digits cs' acc false else None)
      else match digit_of c with
           | Some v => int_digits cs' (10 * acc + v) true
           | None => None
           end
  end.

Definition int_ascii (s : string) : option Z :=
  match strip (String.list_ascii_of_string s) with
  | c :: cs =>
      if Ascii.eqb c "+"%char then int_digits cs 0 false
      else if Ascii.eqb c "-"%char then Z.opp <$> int_digits cs 0 false
      else int_digits (c :: cs) 0 false
  | [] => None
  end.

(** ** IdBackfetcher: [fetch_by_id] *)

(** [f"{id_num}-{year}"] *)
Definition format_id (id_num : Z) (year : string) : string :=
  pretty id_num +:+ "-" +:+ year.

Definition fetch_by_id (srv : server) (id_num : Z) (year : string)
    : option event * list effect :=
  let service_request_id := format_id id_num year in
  let rq := ReqId service_request_id in
  match srv rq with
  | Resp2xx events =>
      match events with
      | first :: _ => (Some first, [EGet rq])
      | [] => (None, [EGet rq])
      end
  | RespStatus code =>
      if code =? 404 then (None, [EGet rq])
      else (None, [EGet rq; EWarn rq])
  | RespFailure => (None, [EGet rq; EWarn rq])
  end.

(** ** Phase 2: [phase2_id_based_fetch] *)

Record counters : Type := mkCounters {
  fetched_count : nat;
  not_found_count : nat
}.

Definition count_fetched (c : counters) : counters :=
  mkCounters (S (fetched_count c)) (not_found_count c).

Definition count_not_found (c : counters) : counters :=
  mkCounters (fetched_count c) (S (not_found_count c)).

(** The body of [for id_num in batch]. The counters of the batch and of
    the year are only printed; they move with the session counters. An
    unhashable id makes the assignment raise [TypeError], which the
    handler of the loop counts as not found. *)
Definition lookup_step (srv : server) (year : string)
    (st : fetcher * counters) (id_num : Z) : fetcher * counters :=
  let '(f, c) := st in
  let '(found, tr) := fetch_by_id srv id_num year in
  let f := emit f tr in
  match found with
  | Some event =>
      if event_truthy event then
        match hashable (ev_get event "service_request_id") with
        | Some service_request_id =>
            (set_events f (dict_set (all_events f) service_request_id event),
             count_fetched c)
        | None =>
            (emit f [EWarn (ReqId (format_id id_num year))], count_not_found c)
        end
      else (f, count_not_found c)
  | None => (f, count_not_found c)
  end.

Definition BATCH_SIZE : nat := 100.

(** [range(0, stop, step)] *)
Definition py_range_step (stop step : nat) : list nat :=
  (λ j, j * step)%nat <$> seq 0 ((stop + step - 1) `div` step)%nat.

(** [missing_ids[i:i+batch_size]] *)
Definition slice (l : list Z) (i n : nat) : list Z := take n (drop i l).

(** The body of [for year in sorted(missing_by_year.keys())]. *)
Definition fetch_year (srv : server) (missing_by_year : gmap string (gset Z))
    (st : fetcher * counters) (year : string) : fetcher * counters :=
  let missing_ids := sorted_ints (elements (missing_by_year !!! year)) in
  match missing_ids with
  | [] => st
  | _ :: _ =>
      let total_ids := length missing_ids in
      foldl (λ st i,
               let batch := slice missing_ids i BATCH_SIZE in
               foldl (lookup_step srv year) st batch)
            st (py_range_step total_ids BATCH_SIZE)
  end.

Definition total_missing (missing_by_year : gmap string (gset Z)) : nat :=
  sum_list (size <$> (map_to_list missing_by_year).*2).

Definition phase2_id_based_fetch (srv : server)
    (missing_by_year : gmap string (gset Z)) (f : fetcher) : fetcher :=
  if (total_missing missing_by_year =? 0)%nat then f
  else
    let f0 := emit f [EClock] in
    let '(f1, c) :=
      foldl (fetch_year srv missing_by_year) (f0, mkCounters 0 0)
            (sorted_strs (elements (dom missing_by_year))) in
    let f2 := emit f1 [EClock] in
    let st := session_stats f2 in
    set_stats f2 (mkStats (date_fetch_count st) (fetched_count c)
                          (total_events st)).

(** ** Finalize: [save_to_file] *)

Definition as_number (v : json) : option Z :=
  match v with
  | JBool b => Some (if b then 1 else 0)
  | JNum n => Some n
  | _ => None
  end.

(** Python's [<] on two sort keys: strings by code point, numbers by
    value; [None], a [dict] or a mix of kinds raises [TypeError]. (Python
    orders two lists element by element; that order is not modelled, and
    a list as sort key counts as a [TypeError] here.) *)
Definition py_lt (a b : json) : result bool :=
  match a, b with
  | JStr s, JStr t => Ok (String.ltb s t)
  | _, _ =>
      match as_number a, as_number b with
      | Some m, Some n => Ok (m <? n)
      | _, _ => Raise TypeError
      end
  end.

(** [lambda e: e.get("requested_datetime", "")] *)
Definition sort_key (e : event) : json :=
  ev_get_default e "requested_datetime" (JStr "").

(** [list.sort(key=..., reverse=True)] is stable: records with equal keys
    keep their order, so its result is the one of any stable sort. This
    one inserts each record before the first record that is not greater. *)
Fixpoint insert_desc (x : event) (l : list event) : result (list event) :=
  match l with
  | [] => Ok [x]
  | y :: l' =>
      below ← py_lt (sort_key x) (sort_key y);
      if below : bool then (r ← insert_desc x l'; Ok (y :: r))
      else Ok (x :: y :: l')
  end.

Fixpoint sort_desc (l : list event) : result (list event) :=
  match l with
  | [] => Ok []
  | x :: l' => sorted ← sort_desc l'; insert_desc x sorted
  end.

(** The list handed to [json.dump]: the records of the store, sorted.
    Opening the file and writing it come after the sort and are not
    modelled; a [Raise] is an exception of the sort, raised before the
    file is opened. *)
Definition save_to_file (f : fetcher) : result (list event) :=
  sort_desc (dict_values (all_events f)).

(** ** Reading a pagination run *)

(** The records a page of a window carries; a failed request carries none. *)
Definition page_body (srv : server) (start end_ : date) (page : Z)
    : list event :=
  match srv (ReqRange start end_ page) with
  | Resp2xx body => body
  | RespStatus _ | RespFailure => []
  end.

(** A page that arrives with at least [PAGE_SIZE] records. *)
Definition full_page (srv : server) (start end_ : date) (page : Z) : bool :=
  match srv (ReqRange start end_ page) with
  | Resp2xx body => (PAGE_SIZE <=? length body)%nat
  | RespStatus _ | RespFailure => false
  end.

(** A request that ends in an exception. *)
Definition failed (srv : server) (rq : request) : bool :=
  match srv rq with
  | Resp2xx _ => false
  | RespStatus _ | RespFailure => true
  end.

(** The page numbers requested, in order. *)
Definition requested_pages (tr : list effect) : list Z :=
  omap (λ e, match e with EGet (ReqRange _ _ page) => Some page | _ => None end)
       tr.

(** The requests issued, in order. *)
Definition requests (tr : list effect) : list request :=
  omap (λ e, match e with EGet rq => Some rq | _ => None end) tr.

(** The registry answers the first pages of a window with pages of the
    given sizes. *)
Definition page_sizes (srv : server) (start end_ : date) (sizes : list nat)
    : Prop :=
  ∀ (i : nat) (size : nat),
    sizes !! i = Some size →
    ∃ body, srv (ReqRange start end_ (Z.of_nat i + 1)) = Resp2xx body ∧
            length body = size.

(** ** Reading a window plan *)

(** [windows] tiles the days [start..end_]: each window begins where the
    one before it ended plus a day, reaches [window_days] days unless
    [end_] comes first, and the days run out exactly at [end_]. *)
Fixpoint tiles (windows : list (date * date)) (start end_ : date) : Prop :=
  match windows with
  | [] => start = end_ + 1
  | (a, b) :: rest =>
      a = start ∧ a ≤ end_ ∧ b = Z.min (a + (window_days - 1)) end_ ∧
      tiles rest (b + 1) end_
  end.

Definition in_window (d : date) (w : date * date) : Prop := w.1 ≤ d ≤ w.2.

(** The two dates the planning loop computes beyond [end_] exist: the day
    after [end_], and the seventh day of the last window, which begins a
    whole number of weeks after [start]. *)
Definition plan_in_range (start end_ : date) : Prop :=
  end_ + 1 ≤ MAXORDINAL ∧
  start + window_days * ((end_ - start) / window_days) + (window_days - 1)
    ≤ MAXORDINAL.

(** The effects of a window fetch that requests the pages
    [first .. first + count - 1] and stops there: one request per page,
    then the warning line if the last request failed. *)
Definition window_trace (srv : server) (start end_ : date) (first count : Z)
    : list effect :=
  let last_rq := ReqRange start end_ (first + count - 1) in
  (EGet <$> (ReqRange start end_ <$> seqZ first count))
    ++ (if failed srv last_rq then [EWarn last_rq] else []).

(** What it would mean for [fetch_by_date_range] to report an error to its
    caller: the caller can tell from the list it receives whether a
    request of the window failed. *)
Definition error_reported_to_caller : Prop :=
  ∃ reported : list event → bool,
    ∀ fuel srv start end_ events tr,
      fetch_by_date_range fuel srv start end_ = Some (events, tr) →
      (reported events = true ↔ ∃ rq, rq ∈ requests tr ∧ failed srv rq = true).

(** ** Reading the effects of Phase 2 *)

(** The lookups of Phase 2 in the order of its loops: partitions in sorted
    order, the missing numbers of a partition in ascending order. *)
Definition lookup_plan (missing_by_year : gmap string (gset Z))
    : list (string * Z) :=
  concat ((λ year, (λ id_num, (year, id_num))
                     <$> sorted_ints (elements (missing_by_year !!! year)))
            <$> sorted_strs (elements (dom missing_by_year))).

Definition lookup_request (l : string * Z) : request :=
  ReqId (format_id l.2 l.1).

(** A delay is enforced between the point lookups: between any two
    lookups of a trace there is a [time.sleep]. *)
Definition lookups_spaced (tr : list effect) : Prop :=
  ∀ (i j : nat) (r r' : string),
    (i < j)%nat →
    tr !! i = Some (EGet (ReqId r)) → tr !! j = Some (EGet (ReqId r')) →
    ∃ k : nat, (i < k < j)%nat ∧ tr !! k = Some ESleep.

(** ** Reading the finalized list *)

(** A record without a timestamp: the field is absent, [null] or the
    empty string. *)
Definition lacks_timestamp (e : event) : Prop :=
  get_field e "requested_datetime" = None ∨
  get_field e "requested_datetime" = Some JNull ∨
  get_field e "requested_datetime" = Some (JStr "").

(** [a] may stand before [b] in a descending list: [key(a) < key(b)] is
    false. *)
Definition not_below (a b : event) : Prop :=
  py_lt (sort_key a) (sort_key b) = Ok false.

(** ** Sample registries and stores *)

Definition sample_record (id : string) : event :=
  [("service_request_id", JStr id)].

Definition sample_page (size : nat) : list event :=
  replicate size (sample_record "1-2026").

(** Answers page [i] of any window with a page of the [i]-th size, and
    later pages with an empty page. *)
Definition paged_server (sizes : list nat) : server :=
  λ rq,
    match rq with
    | ReqRange _ _ page =>
        match sizes !! Z.to_nat (page - 1) with
        | Some size => Resp2xx (sample_page size)
        | None => Resp2xx []
        end
    | ReqId _ => RespStatus 404
    end.

(** A full first page, then an internal server error. *)
Definition failing_server : server :=
  λ rq,
    match rq with
    | ReqRange _ _ page =>
        if page =? 1 then Resp2xx (sample_page 100) else RespStatus 500
    | ReqId _ => RespStatus 404
    end.

(** A store holding 1, 2, 4 and 5 of partition 2026, 1 to 5 of partition
    2025, and one key without a partition. *)
Definition gap_store : store :=
  merge_all ((λ id, (KStr id, sample_record id)) <$>
             ["1-2026"; "2-2026"; "1-2025"; "4-2026"; "2-2025"; "5-2026";
              "3-2025"; "4-2025"; "5-2025"; "legacy"]).

(** Two records of ID 7-2026 and one of 8-2026, merged in this order. *)
Definition dup_writes : list (pykey * event) :=
  [(KStr "7-2026", [("service_request_id", JStr "7-2026"); ("status", JStr "open")]);
   (KStr "8-2026", [("service_request_id", JStr "8-2026")]);
   (KStr "7-2026", [("service_request_id", JStr "7-2026"); ("status", JStr "closed")])].

(** A registry that knows 4-2026, has lost 7-2026, and answers the lookup
    of 9-2026 with the record 90-2026. *)
Definition backfill_server : server :=
  λ rq,
    match rq with
    | ReqId id =>
        if String.eqb id "4-2026" then Resp2xx [sample_record "4-2026"]
        else if String.eqb id "9-2026" then Resp2xx [sample_record "90-2026"]
        else if String.eqb id "8-2026" then Resp2xx []
        else RespStatus 404
    | ReqRange _ _ _ => Resp2xx []
    end.

Definition empty_session : fetcher :=
  mkFetcher 739252 739267 [] (mkStats 0 0 0) [].

(** The registry has lost every record. *)
Definition forgetful_server : server := λ _, RespStatus 404.

(** Partition 2026 misses the numbers 1 and 2. *)
Definition two_missing : gmap string (gset Z) := {[ "2026" := {[1; 2]} ]}.

(** Three records: two with a timestamp, one without. *)
Definition dated_session : fetcher :=
  mkFetcher 739252 739267
    [(KStr "1-2026", [("service_request_id", JStr "1-2026");
                      ("requested_datetime", JStr "2026-01-03T10:00:00+01:00")]);
     (KStr "2-2026", [("service_request_id", JStr "2-2026")]);
     (KStr "3-2026", [("service_request_id", JStr "3-2026");
                      ("requested_datetime", JStr "2026-01-05T08:30:00+01:00")])]
    (mkStats 3 0 0) [].

(** ** Reading a sweep *)

(** The records and effects of fetching the windows one after the other:
    what the [for] loop of Phase 1 gets from [fetch_by_date_range], before
    any merging. *)
Fixpoint sweep (fuel : nat) (srv : server) (windows : list (date * date))
    : option (list event * list effect) :=
  match windows with
  | [] => Some ([], [])
  | (start, end_) :: rest =>
      '(events, tr) ← fetch_by_date_range fuel srv start end_;
      '(events', tr') ← sweep fuel srv rest;
      Some (events ++ events', tr ++ tr')
  end.

(** The key Phase 1 files a record under: none when the id is falsy. *)
Definition phase1_key (ev : event) : option (option pykey) :=
  let event_id := ev_get ev "service_request_id" in
  if truthy event_id then Some (hashable event_id) else None.

(** A registry that answers every page request with 100 records. *)
Definition endless_server : server :=
  λ rq,
    match rq with
    | ReqRange _ _ _ => Resp2xx (sample_page 100)
    | ReqId _ => RespStatus 404
    end.

(** A registry that is down. *)
Definition dead_server : server := λ _, RespFailure.

(** ** Reading a sequence of merges *)

Definition apply_writes (d : store) (writes : list (pykey * event)) : store :=
  foldl (λ d w, dict_set d w.1 w.2) d writes.

(** The record written last under a key, if any. *)
Fixpoint last_write (writes : list (pykey * event)) (k : pykey)
    : option event :=
  match writes with
  | [] => None
  | (k', v) :: writes' =>
      match last_write writes' k with
      | Some v' => Some v'
      | None => if decide (k' = k) then Some v else None
      end
  end.

(** The assignments the merge loop of Phase 1 makes for a list of records. *)
Definition phase1_writes (events : list event) : list (pykey * event) :=
  omap (λ ev, match phase1_key ev with
              | Some (Some k) => Some (k, ev)
              | _ => None
              end) events.

(** A registry whose records carry a list as id. *)
Definition list_id_server : server :=
  λ rq,
    match rq with
    | ReqRange _ _ _ =>
        Resp2xx [[("service_request_id", JArr [JStr "7-2026"])]]
    | ReqId _ => RespStatus 404
    end.

(** ** Reading composite IDs *)

Definition all_digits (cs : list ascii) : Prop :=
  Forall (λ c, is_Some (digit_of c)) cs.

(** The part of a string before its first ["-"]. *)
Definition first_segment (s : string) : string :=
  default "" (head (split_dash s)).

(** ** Reading the lookups of Phase 2 *)

(** The assignment a point lookup leads to, if any: the first record of
    the answer, when it is truthy and its id can be a key, filed under
    that id. *)
Definition lookup_write (srv : server) (l : string * Z)
    : option (pykey * event) :=
  match (fetch_by_id srv l.2 l.1).1 with
  | Some event =>
      if event_truthy event then
        k ← hashable (ev_get event "service_request_id"); Some (k, event)
      else None
  | None => None
  end.

(** The state [st'] is the state [st] after the lookups [plan]: the store
    took their assignments in order, the first counter grew by their
    number, the second by the number of the other lookups, and the rest
    of the session is as it was. *)
Definition ran_lookups (srv : server) (plan : list (string * Z))
    (st st' : fetcher * counters) : Prop :=
  let writes := omap (lookup_write srv) plan in
  all_events st'.1 = apply_writes (all_events st.1) writes ∧
  fetched_count st'.2 = (fetched_count st.2 + length writes)%nat ∧
  (not_found_count st'.2 + length writes
     = not_found_count st.2 + length plan)%nat ∧
  session_stats st'.1 = session_stats st.1 ∧
  start_date st'.1 = start_date st.1 ∧
  end_date st'.1 = end_date st.1.

(** The counters [fetched_count] and [not_found_count] as Phase 2 prints
    them when its loops are over. *)
Definition phase2_counters (srv : server)
    (missing_by_year : gmap string (gset Z)) (f : fetcher) : counters :=
  (foldl (fetch_year srv missing_by_year) (emit f [EClock], mkCounters 0 0)
         (sorted_strs (elements (dom missing_by_year)))).2.

(** The sequence numbers of a partition that the lookups of Phase 2
    bring into the store. *)
Definition found_ids (srv : server) (missing_by_year : gmap string (gset Z))
    (year : string) : gset Z :=
  list_to_set
    (omap (λ l : string * Z,
             if decide (l.1 = year ∧ is_Some (lookup_write srv l))
             then Some l.2 else None)
          (lookup_plan missing_by_year)).

(** The registry answers a lookup with nothing it can store, or with a
    record that carries the id asked for. *)
Definition answers_in_kind (srv : server) (l : string * Z) : Prop :=
  ∀ k ev, lookup_write srv l = Some (k, ev) → k = KStr (format_id l.2 l.1).

(** A registry that knows the record [2-2026] only. *)
Definition partial_server : server :=
  λ rq,
    match rq with
    | ReqId id =>
        if String.eqb id "2-2026" then Resp2xx [sample_record "2-2026"]
        else RespStatus 404
    | ReqRange _ _ _ => Resp2xx []
    end.

(** A session that holds the records [1-2026] and [4-2026]. *)
Definition gapped_session : fetcher :=
  mkFetcher 739252 739267
    [(KStr "1-2026", sample_record "1-2026");
     (KStr "4-2026", sample_record "4-2026")]
    (mkStats 2 0 0) [].

(** The sequence numbers of a partition have no gap: below an observed
    number every number from 1 on is observed. *)
Definition gap_free (observed : gset Z) : Prop :=
  ∀ n i, n ∈ observed → 1 ≤ i ≤ n → i ∈ observed.

(** ** Reading a session's merges *)

(** A merge into the store: the inner loop of Phase 1 on the records of
    a window, or a turn of the lookup loop of Phase 2. *)
Inductive merge : Type :=
| MergeRecords (events : list event)
| MergeLookup (srv : server) (year : string) (id_num : Z).

(** The session after a merge, as the code of the two phases computes
    it. *)
Definition merge_into (f : fetcher) (m : merge) : result fetcher :=
  match m with
  | MergeRecords events =>
      d ← store_events events (all_events f); Ok (set_events f d)
  | MergeLookup srv year id_num =>
      Ok (lookup_step srv year (f, mkCounters 0 0) id_num).1
  end.

Fixpoint merge_seq (ms : list merge) (f : fetcher) : result fetcher :=
  match ms with
  | [] => Ok f
  | m :: ms' => f' ← merge_into f m; merge_seq ms' f'
  end.

(** The records a merge is given to file, each with the ID it carries, in
    order: the fetched records that have a truthy id, or the first record
    of the answer to the lookup. *)
Definition merged (m : merge) : list (pykey * event) :=
  match m with
  | MergeRecords events => phase1_writes events
  | MergeLookup srv year id_num =>
      option_list (lookup_write srv (year, id_num))
  end.

(** Two records of ID 7-2026 from two windows, one of 8-2026, and a
    lookup of 4-2026 between the windows. *)
Definition sample_merges : list merge :=
  [MergeRecords (take 2 dup_writes).*2;
   MergeLookup backfill_server "2026" 4;
   MergeRecords (drop 2 dup_writes).*2].

(** ** Reading a date string *)

(** The year, month and day that a string of the form DDDD-DD-DD spells,
    D a decimal digit. *)
Definition ymd_fields (s : string) : option (Z * Z * Z) :=
  match String.list_ascii_of_string s with
  | [y1; y2; y3; y4; s1; m1; m2; s2; d1; d2] =>
      if is_dash s1 && is_dash s2 then
        y ← digits_value [y1; y2; y3; y4] 0;
        m ← digits_value [m1; m2] 0;
        d ← digits_value [d1; d2] 0;
        Some (y, m, d)
      else None
  | _ => None
  end.

(** The day exists in the calendar. *)
Definition calendar_date (ymd : Z * Z * Z) : Prop :=
  let '(y, m, d) := ymd in
  1 ≤ y ∧ 1 ≤ m ≤ 12 ∧ 1 ≤ d ≤ days_in_month y m.

(** A registry with the records 1-2026 and 3-2026 in every window, that
    also knows the record 2-2026. *)
Definition gappy_server : server :=
  λ rq,
    match rq with
    | ReqRange _ _ page =>
        if page =? 1
        then Resp2xx [sample_record "1-2026"; sample_record "3-2026"]
        else Resp2xx []
    | ReqId id =>
        if String.eqb id "2-2026" then Resp2xx [sample_record "2-2026"]
        else RespStatus 404
    end.

(** ** Reading the sort keys *)

(** The kinds of sort key that [<] can compare: text with text, numbers
    ([int] and [bool]) with numbers. *)
Definition key_text (e : event) : Prop := ∃ s, sort_key e = JStr s.
Definition key_number (e : event) : Prop := is_Some (as_number (sort_key e)).

(** The sort key is a JSON array. *)
Definition key_array (e : event) : Prop := ∃ items, sort_key e = JArr items.

(** The record [e] ties with the key [v]: neither key is below the
    other. *)
Definition ties (v : json) (e : event) : bool :=
  match py_lt v (sort_key e), py_lt (sort_key e) v with
  | Ok false, Ok false => true
  | _, _ => false
  end.

(** Two records, the second with a [null] timestamp. *)
Definition null_dated_session : fetcher :=
  mkFetcher 739252 739267
    [(KStr "1-2026", [("service_request_id", JStr "1-2026");
                      ("requested_datetime", JStr "2026-01-03T10:00:00+01:00")]);
     (KStr "2-2026", [("service_request_id", JStr "2-2026");
                      ("requested_datetime", JNull)])]
    (mkStats 2 0 0) [].

(** Three records of the same timestamp and one later record. *)
Definition tied_session : fetcher :=
  mkFetcher 739252 739267
    [(KStr "1-2026", [("service_request_id", JStr "1-2026");
                      ("requested_datetime", JStr "2026-01-03")]);
     (KStr "2-2026", [("service_request_id", JStr "2-2026");
                      ("requested_datetime", JStr "2026-01-03")]);
     (KStr "3-2026", [("service_request_id", JStr "3-2026");
                      ("requested_datetime", JStr "2026-01-04")]);
     (KStr "4-2026", [("service_request_id", JStr "4-2026");
                      ("requested_datetime", JStr "2026-01-03")])]
    (mkStats 4 0 0) [].

(** ** Summary: [print_summary] *)

(** [a > b] raises where [b < a] does, and agrees with it otherwise. *)
Definition py_gt (a b : json) : result bool := py_lt b a.

(** [min] and [max] on a sequence that is not empty: the first item is
    kept until a later item is [<] it (for [min]) or [>] it (for [max]). *)
Fixpoint py_min (current : json) (rest : list json) : result json :=
  match rest with
  | [] => Ok current
  | item :: rest' =>
      below ← py_lt item current;
      py_min (if below : bool then item else current) rest'
  end.

Fixpoint py_max (current : json) (rest : list json) : result json :=
  match rest with
  | [] => Ok current
  | item :: rest' =>
      above ← py_gt item current;
      py_max (if above : bool then item else current) rest'
  end.

(** [[d for d in dates if d]] *)
Definition summary_dates (d : store) : list json :=
  filter (λ v, truthy v = true)
         ((λ e, ev_get_default e "requested_datetime" (JStr ""))
            <$> dict_values d).

(** The lines [Earliest] and [Latest], when they are printed. *)
Definition date_span (d : store) : result (option (json * json)) :=
  match summary_dates d with
  | [] => Ok None
  | first :: rest =>
      earliest ← py_min first rest;
      latest ← py_max first rest;
      Ok (Some (earliest, latest))
  end.

(** The body of [for event_id in self.all_events.keys()] on the
    [defaultdict(int)]. *)
Definition count_key (years : gmap string nat) (k : pykey)
    : result (gmap string nat) :=
  match k with
  | KStr event_id =>
      if has_dash event_id then
        match split_dash event_id with
        | _ :: year :: _ => Ok (<[year := S (years !!! year)]> years)
        | _ => Raise IndexError
        end
      else Ok years
  | KNone | KNum _ => Raise TypeError
  end.

Fixpoint count_years (keys : list pykey) (years : gmap string nat)
    : result (gmap string nat) :=
  match keys with
  | [] => Ok years
  | k :: keys' => years' ← count_key years k; count_years keys' years'
  end.

(** What [print_summary] prints, durations apart: the two counters, the
    size of the store, the date range and the lines of [Events by year]
    in the order printed. *)
Record summary : Type := mkSummary {
  phase1_events : nat;
  phase2_events : nat;
  events_total : nat;
  event_date_range : option (json * json);
  events_by_year : list (string * nat)
}.

Definition print_summary (f : fetcher) : result summary :=
  span ← date_span (all_events f);
  years ← count_years (dict_keys (all_events f)) ∅;
  Ok (mkSummary (date_fetch_count (session_stats f))
                (id_fetch_count (session_stats f))
                (length (all_events f))
                span
                ((λ year, (year, years !!! year))
                   <$> sorted_strs (elements (dom years)))).

(** The partition [print_summary] counts a key under. *)
Definition key_year (k : pykey) : option string :=
  match k with
  | KStr event_id =>
      if has_dash event_id then
        match split_dash event_id with
        | _ :: year :: _ => Some year
        | _ => None
        end
      else None
  | KNone | KNum _ => None
  end.

(** The number of keys of the store counted under a partition. *)
Definition keys_in_year (d : store) (year : string) : nat :=
  length (filter (λ k, key_year k = Some year) (dict_keys d)).

(** ** [main] *)

Definition START_DATE : string := "2025-01-01".

(** What a run leaves: the session, the list written to
    [all_events.json], the statistics written to [fetch_stats.json] and
    the summary printed. *)
Record outcome : Type := mkOutcome {
  session : fetcher;
  saved_events : list event;
  saved_stats : stats;
  printed : summary
}.

(** The body of [try] in [main]. *)
Definition run (py_int : string → option Z) (fuel : nat) (srv : server)
    (f : fetcher) : option (result outcome) :=
  swept ← phase1_date_based_fetch fuel srv f;
  Some (f1 ← swept;
        missing_by_year ← analyze_missing_ids py_int (all_events f1);
        let f2 := phase2_id_based_fetch srv missing_by_year f1 in
        events_list ← save_to_file f2;
        printed ← print_summary f2;
        Ok (mkOutcome f2 events_list (session_stats f2) printed)).

(** [main], given the string [date.today().isoformat()] returns and
    what [int] does on the keys. The constructor is called before [try];
    an exception of the body is printed and raised again. Writing the two
    files is not modelled: the outcome holds what is handed to
    [json.dump]. *)
Definition main (py_int : string → option Z) (fuel : nat) (srv : server)
    (END_DATE : string) : option (result outcome) :=
  match init START_DATE END_DATE with
  | Ok fetcher => run py_int fuel srv fetcher
  | Raise e => Some (Raise e)
  end.

(** A request of a date range. *)
Definition is_range_request (rq : request) : Prop :=
  ∃ start end_ page, rq = ReqRange start end_ page.

(** * Properties *)

(** ** The record store *)

Section store_facts.
Implicit Types (d : store) (k : pykey) (v : event).

Lemma dict_keys_set d k v :
  dict_keys (dict_set d k v) =
    if decide (k ∈ dict_keys d) then dict_keys d else dict_keys d ++ [k].
Proof.
  unfold dict_keys. induction d as [|[k' v'] d IH].
  - rewrite decide_False; [done | apply not_elem_of_nil].
  - cbn [dict_set]. destruct (decide (k' = k)) as [->|Hne].
    + rewrite decide_True; [done | left].
    + rewrite !fmap_cons, IH. cbn [fst].
      destruct (decide (k ∈ d.*1)) as [Hin|Hnin].
      * rewrite decide_True; [done | by right].
      * rewrite decide_False; [done |].
        rewrite elem_of_cons. naive_solver.
Qed.

Lemma dict_get_set_eq d k v : dict_get (dict_set d k v) k = Some v.
Proof.
  induction d as [|[k' v'] d IH]; cbn [dict_set dict_get].
  - by case_decide.
  - destruct (decide (k' = k)) as [->|Hne]; cbn [dict_get]; by case_decide.
Qed.

Lemma dict_get_set_ne d k k' v :
  k ≠ k' → dict_get (dict_set d k v) k' = dict_get d k'.
Proof.
  intros Hne. induction d as [|[k0 v0] d IH]; cbn [dict_set dict_get].
  - by case_decide.
  - destruct (decide (k0 = k)) as [->|Hne0]; cbn [dict_get];
      by repeat case_decide.
Qed.

Lemma dict_get_None d k : dict_get d k = None ↔ k ∉ dict_keys d.
Proof.
  unfold dict_keys. induction d as [|[k0 v0] d IH]; cbn [dict_get]; csimpl.
  - split; [intros _; apply not_elem_of_nil | done].
  - case_decide as Hk; subst.
    + split; [done | intros []; left].
    + rewrite IH, not_elem_of_cons. naive_solver.
Qed.

Lemma dict_get_Some_elem d k v : dict_get d k = Some v → (k, v) ∈ d.
Proof.
  induction d as [|[k0 v0] d IH]; cbn [dict_get]; [done |].
  case_decide; subst.
  - intros [= ->]. left.
  - intros. right. auto.
Qed.

Lemma dict_set_NoDup d k v :
  NoDup (dict_keys d) → NoDup (dict_keys (dict_set d k v)).
Proof.
  intros Hnd. rewrite dict_keys_set. case_decide; [done |].
  apply NoDup_app. split_and!; [done | | apply NoDup_singleton].
  intros x Hx Hx'. apply list_elem_of_singleton in Hx'. by subst.
Qed.

Lemma dict_set_keys_elem d k v (x : pykey) :
  x ∈ dict_keys (dict_set d k v) ↔ x = k ∨ x ∈ dict_keys d.
Proof.
  rewrite dict_keys_set. case_decide.
  - naive_solver.
  - rewrite elem_of_app, list_elem_of_singleton. naive_solver.
Qed.

Lemma merge_all_snoc writes k v :
  merge_all (writes ++ [(k, v)]) = dict_set (merge_all writes) k v.
Proof. unfold merge_all. by rewrite foldl_app. Qed.

Lemma merge_all_NoDup writes : NoDup (dict_keys (merge_all writes)).
Proof.
  induction writes as [|[k v] writes IH] using rev_ind.
  - apply NoDup_nil_2.
  - rewrite merge_all_snoc. by apply dict_set_NoDup.
Qed.

Lemma merge_all_keys_elem writes (x : pykey) :
  x ∈ dict_keys (merge_all writes) ↔ x ∈ writes.*1.
Proof.
  induction writes as [|[k v] writes IH] using rev_ind.
  - done.
  - rewrite merge_all_snoc, dict_set_keys_elem, IH, fmap_app, elem_of_app.
    csimpl. rewrite list_elem_of_singleton. naive_solver.
Qed.

Lemma merge_all_last_write writes k v later :
  k ∉ later.*1 →
  dict_get (merge_all (writes ++ (k, v) :: later)) k = Some v.
Proof.
  induction later as [|[k' v'] later IH] using rev_ind; intros Hk.
  - rewrite merge_all_snoc. apply dict_get_set_eq.
  - rewrite fmap_app, not_elem_of_app in Hk. destruct Hk as [Hk Hk'].
    rewrite app_comm_cons, app_assoc, merge_all_snoc.
    rewrite dict_get_set_ne; [by apply IH |].
    intros ->. apply Hk'. csimpl. left.
Qed.

Lemma merge_all_length writes :
  length (merge_all writes) = length (remove_dups writes.*1).
Proof.
  transitivity (length (dict_keys (merge_all writes))).
  { unfold dict_keys. by rewrite length_fmap. }
  apply Permutation_length, NoDup_Permutation.
  - apply merge_all_NoDup.
  - apply NoDup_remove_dups.
  - intros x. by rewrite merge_all_keys_elem, elem_of_remove_dups.
Qed.
End store_facts.

(** ** Gap analysis *)

Lemma foldl_max_spec (l : list Z) (x : Z) :
  foldl Z.max x l ∈ x :: l ∧ ∀ y, y ∈ x :: l → y ≤ foldl Z.max x l.
Proof.
  revert x. induction l as [|a l IH]; intros x; cbn [foldl].
  - split; [left |]. intros y Hy. apply list_elem_of_singleton in Hy. lia.
  - destruct (IH (Z.max x a)) as [Hin Hub]. split.
    + apply elem_of_cons in Hin as [Heq|Hin].
      * rewrite Heq. destruct (Z.max_spec x a) as [[_ ->]|[_ ->]];
          [right; left | left].
      * by do 2 right.
    + intros y Hy. apply elem_of_cons in Hy as [->|Hy].
      * etrans; [|apply Hub; left]. lia.
      * apply elem_of_cons in Hy as [->|Hy].
        -- etrans; [|apply Hub; left]. lia.
        -- apply Hub. by right.
Qed.

Lemma set_max_spec (ids : gset Z) :
  ids ≠ ∅ → set_max ids ∈ ids ∧ ∀ y, y ∈ ids → y ≤ set_max ids.
Proof.
  intros Hne. unfold set_max.
  destruct (elements ids) as [|x l] eqn:Hel.
  - by apply elements_empty_inv, leibniz_equiv in Hel.
  - destruct (foldl_max_spec l x) as [Hin Hub]. split.
    + apply elem_of_elements. by rewrite Hel.
    + intros y Hy. apply Hub. rewrite <- Hel. by apply elem_of_elements.
Qed.

Lemma set_max_unique (ids : gset Z) (m : Z) :
  m ∈ ids → (∀ y, y ∈ ids → y ≤ m) → set_max ids = m.
Proof.
  intros Hin Hub.
  destruct (set_max_spec ids) as [Hin' Hub']; [set_solver |].
  specialize (Hub _ Hin'). specialize (Hub' _ Hin). lia.
Qed.

Lemma elem_of_py_range_set (lo hi x : Z) :
  x ∈ py_range_set lo hi ↔ lo ≤ x < hi.
Proof.
  unfold py_range_set. rewrite elem_of_list_to_set, elem_of_seqZ. lia.
Qed.

Lemma analyze_year_fold (ids_by_year : gmap string (gset Z))
    (years : list string) (acc : gmap string (gset Z)) (y : string) :
  foldl (analyze_year ids_by_year) acc years !! y =
    if decide (y ∈ years ∧ ids_by_year !!! y ≠ ∅)
    then Some (py_range_set 1 (set_max (ids_by_year !!! y) + 1)
                 ∖ (ids_by_year !!! y))
    else acc !! y.
Proof.
  revert acc. induction years as [|y0 years IH]; intros acc; cbn [foldl].
  - rewrite decide_False; [done |]. intros [Hin _]. by apply elem_of_nil in Hin.
  - rewrite IH. clear IH.
    assert (analyze_year ids_by_year acc y0 !! y =
              if decide (y = y0 ∧ ids_by_year !!! y ≠ ∅)
              then Some (py_range_set 1 (set_max (ids_by_year !!! y) + 1)
                           ∖ (ids_by_year !!! y))
              else acc !! y) as ->.
    { unfold analyze_year.
      destruct (decide (ids_by_year !!! y0 = ∅)) as [He|He].
      - rewrite decide_False; [done |]. intros [-> ?]. done.
      - destruct (decide (y = y0)) as [->|Hy].
        + by rewrite lookup_insert_eq, decide_True.
        + rewrite lookup_insert_ne by done.
          rewrite decide_False; [done | naive_solver]. }
    rewrite (decide_ext (y ∈ y0 :: years ∧ _)
               ((y = y0 ∧ ids_by_year !!! y ≠ ∅) ∨
                (y ∈ years ∧ ids_by_year !!! y ≠ ∅)))
      by (rewrite elem_of_cons; naive_solver).
    repeat case_decide; naive_solver.
Qed.

Section analyzer_facts.
Variable py_int : string → option Z.

Lemma observe_key_lookup (acc m : gmap string (gset Z)) (k : pykey) (y : string) :
  observe_key py_int acc k = Ok m →
  m !!! y = acc !!! y ∪ list_to_set (option_list (key_in_year py_int y k)).
Proof.
  unfold observe_key, key_in_year, key_id.
  destruct k as [| |s]; try done.
  destruct (has_dash s); [|intros [= ->]; cbn; set_solver].
  destruct (split_dash s) as [|p0 [|yr ps]]; try done.
  destruct (py_int p0) as [n|]; [|done]. intros [= <-]. cbn.
  unfold add_id. destruct (decide (yr = y)) as [->|Hne].
  - rewrite lookup_total_insert_eq. cbn. set_solver.
  - rewrite lookup_total_insert_ne by done. cbn. set_solver.
Qed.

Lemma group_ids_lookup (keys : list pykey) (acc m : gmap string (gset Z))
    (y : string) :
  group_ids py_int keys acc = Ok m →
  m !!! y = acc !!! y ∪ list_to_set (omap (key_in_year py_int y) keys).
Proof.
  revert acc. induction keys as [|k keys IH]; intros acc; cbn [group_ids].
  - intros [= ->]. cbn. set_solver.
  - destruct (observe_key py_int acc k) as [acc'|e] eqn:Hk; [|done]. cbn.
    intros Hm. rewrite (IH _ Hm), (observe_key_lookup _ _ _ y Hk).
    cbn [omap list_omap]. destruct (key_in_year py_int y k); cbn; set_solver.
Qed.

Lemma analyze_ids_by_year (d : store) (m : gmap string (gset Z)) :
  analyze_missing_ids py_int d = Ok m →
  ∃ ids_by_year,
    (∀ y, ids_by_year !!! y = observed_ids py_int d y) ∧
    m = foldl (analyze_year ids_by_year) ∅
              (sorted_strs (elements (dom ids_by_year))).
Proof.
  unfold analyze_missing_ids.
  destruct (group_ids py_int (dict_keys d) ∅) as [ids|e] eqn:Hg; [|done].
  cbn. intros [= <-]. exists ids. split; [|done].
  intros y. rewrite (group_ids_lookup _ _ _ y Hg), lookup_total_empty.
  unfold observed_ids. set_solver.
Qed.

Lemma analyze_lookup (d : store) (m : gmap string (gset Z)) (y : string) :
  analyze_missing_ids py_int d = Ok m →
  m !! y =
    if decide (observed_ids py_int d y = ∅) then None
    else Some (py_range_set 1 (set_max (observed_ids py_int d y) + 1)
                 ∖ observed_ids py_int d y).
Proof.
  intros (ids & Hids & ->)%analyze_ids_by_year.
  rewrite analyze_year_fold, lookup_empty, Hids.
  destruct (decide (observed_ids py_int d y = ∅)) as [He|Hne].
  - rewrite decide_False; [done | naive_solver].
  - rewrite decide_True; [done |]. split; [|done].
    unfold sorted_strs. rewrite merge_sort_Permutation.
    apply elem_of_elements, elem_of_dom.
    destruct (ids !! y) as [s|] eqn:Hl; [done |].
    rewrite <- Hids, lookup_total_alt, Hl in Hne. done.
Qed.

Lemma observe_key_readable (acc : gmap string (gset Z)) (k : pykey) :
  key_readable py_int k ↔ ∃ m, observe_key py_int acc k = Ok m.
Proof.
  unfold key_readable, observe_key, key_id.
  destruct k as [| |s]; [naive_solver | naive_solver |].
  destruct (has_dash s); [|naive_solver].
  destruct (split_dash s) as [|p0 [|yr ps]].
  - split; [intros H; by destruct (H eq_refl) | naive_solver].
  - split; [intros H; by destruct (H eq_refl) | naive_solver].
  - destruct (py_int p0); cbn.
    + naive_solver.
    + split; [intros H; by destruct (H eq_refl) | naive_solver].
Qed.

Lemma group_ids_returns (keys : list pykey) (acc : gmap string (gset Z)) :
  Forall (key_readable py_int) keys ↔ ∃ m, group_ids py_int keys acc = Ok m.
Proof.
  revert acc. induction keys as [|k keys IH]; intros acc; cbn [group_ids].
  - naive_solver.
  - rewrite Forall_cons, (observe_key_readable acc). split.
    + intros [[acc' Hk] Hks]. rewrite Hk. cbn. by apply IH.
    + destruct (observe_key py_int acc k) as [acc'|e]; cbn.
      * intros Hm. split; [eauto | by apply (IH acc')].
      * naive_solver.
Qed.

Lemma analyze_returns (d : store) :
  Forall (key_readable py_int) (dict_keys d) ↔
  ∃ m, analyze_missing_ids py_int d = Ok m.
Proof.
  rewrite (group_ids_returns _ ∅). unfold analyze_missing_ids.
  destruct (group_ids py_int (dict_keys d) ∅); cbn; naive_solver.
Qed.

End analyzer_facts.

(** C1. Gap analysis. When the store's keys can be read the analysis
    returns a mapping, and in any mapping it returns: a partition with no
    observed sequence number has no entry; a partition with observed
    sequence numbers has the entry [missing = {1..maxObserved} − observed],
    where [maxObserved] is the greatest observed number. In particular
    observed [{1,2,4,5}] gives missing [{3}] and observed [{1,2,3,4,5}]
    gives the empty set. *)
Theorem gap_analysis_correct (py_int : string → option Z) (d : store) :
  (Forall (key_readable py_int) (dict_keys d) →
   ∃ m, analyze_missing_ids py_int d = Ok m) ∧
  (∀ m year,
     analyze_missing_ids py_int d = Ok m →
     let observed := observed_ids py_int d year in
     (observed = ∅ → m !! year = None) ∧
     (observed ≠ ∅ →
        ∃ max_observed missing,
          max_observed ∈ observed ∧
          (∀ n, n ∈ observed → n ≤ max_observed) ∧
          m !! year = Some missing ∧
          missing = py_range_set 1 (max_observed + 1) ∖ observed ∧
          (∀ n, n ∈ missing ↔ 1 ≤ n ≤ max_observed ∧ n ∉ observed)) ∧
     (observed = {[1; 2; 4; 5]} → m !! year = Some {[3]}) ∧
     (observed = {[1; 2; 3; 4; 5]} → m !! year = Some ∅)).
Proof.
  split; [apply analyze_returns |].
  intros m year Hm observed.
  pose proof (analyze_lookup py_int d m year Hm) as Hl. fold observed in Hl.
  assert (∀ mx, mx ∈ observed → (∀ n, n ∈ observed → n ≤ mx) →
                m !! year = Some (py_range_set 1 (mx + 1) ∖ observed)) as Hmax.
  { intros mx Hin Hub. rewrite Hl, decide_False by set_solver.
    by rewrite (set_max_unique observed mx). }
  split_and!.
  - intros He. by rewrite Hl, decide_True.
  - intros Hne. destruct (set_max_spec observed Hne) as [Hin Hub].
    exists (set_max observed), (py_range_set 1 (set_max observed + 1) ∖ observed).
    split_and!; [done | done | by apply Hmax | done |].
    intros n. rewrite elem_of_difference, elem_of_py_range_set.
    intuition lia.
  - intros Ho. rewrite (Hmax 5); rewrite Ho; [| set_solver | set_unfold; lia].
    by vm_compute.
  - intros Ho. rewrite (Hmax 5); rewrite Ho; [| set_solver | set_unfold; lia].
    by vm_compute.
Qed.

Lemma gap_analysis_witness :
  ∃ m, analyze_missing_ids int_ascii gap_store = Ok m ∧
       m !! "2026" = Some {[3]} ∧ m !! "2025" = Some ∅ ∧ m !! "2024" = None.
Proof.
  destruct (gap_analysis_correct int_ascii gap_store) as [Hret Hspec].
  destruct Hret as [m Hm].
  { repeat constructor; unfold key_readable; intros Hd;
      first [discriminate Hd | vm_compute; eauto]. }
  exists m. split; [done |]. split_and!.
  - apply (Hspec m "2026" Hm). by vm_compute.
  - apply (Hspec m "2025" Hm). by vm_compute.
  - apply (Hspec m "2024" Hm). by vm_compute.
Defined.

(** ** Pagination *)

Lemma seqZ_one (m : Z) : seqZ m 1 = [m].
Proof. unfold seqZ. cbn. f_equal; lia. Qed.

Lemma seqZ_succ (m n : Z) : 0 ≤ n → seqZ m (n + 1) = m :: seqZ (m + 1) n.
Proof.
  intros Hn. rewrite seqZ_cons by lia.
  replace (Z.pred (n + 1)) with n by lia.
  by replace (Z.succ m) with (m + 1) by lia.
Qed.

Section pagination.
Variables (srv : server) (start end_ : date).

Lemma fetch_pages_step (fuel : nat) (page : Z) (events : list event) :
  fetch_pages (S fuel) srv start end_ page events =
    let rq := ReqRange start end_ page in
    match srv rq with
    | Resp2xx page_events =>
        match page_events with
        | [] => Some (events, [EGet rq])
        | _ :: _ =>
            if (length page_events <? PAGE_SIZE)%nat
            then Some (events ++ page_events, [EGet rq])
            else
              '(r, tr) ← fetch_pages fuel srv start end_ (page + 1)
                                     (events ++ page_events);
              Some (r, EGet rq :: tr)
        end
    | RespStatus _ | RespFailure => Some (events, [EGet rq; EWarn rq])
    end.
Proof. reflexivity. Qed.

Lemma window_trace_one (page : Z) :
  window_trace srv start end_ page 1 =
    EGet (ReqRange start end_ page)
      :: (if failed srv (ReqRange start end_ page)
          then [EWarn (ReqRange start end_ page)] else []).
Proof.
  unfold window_trace. cbv zeta. rewrite seqZ_one.
  by replace (page + 1 - 1) with page by lia.
Qed.

Lemma window_trace_succ (page n : Z) :
  0 ≤ n →
  window_trace srv start end_ page (n + 1) =
    EGet (ReqRange start end_ page) :: window_trace srv start end_ (page + 1) n.
Proof.
  intros Hn. unfold window_trace. cbv zeta. rewrite seqZ_succ by lia.
  by replace (page + (n + 1) - 1) with (page + 1 + n - 1) by lia.
Qed.

Lemma requests_window_trace (page n : Z) :
  requests (window_trace srv start end_ page n)
    = ReqRange start end_ <$> seqZ page n.
Proof.
  unfold window_trace, requests. cbv zeta. rewrite omap_app.
  destruct (failed srv _); cbn [omap list_omap]; rewrite app_nil_r;
    induction (seqZ page n) as [|p l IH]; cbn; by rewrite ?IH.
Qed.

Lemma requested_pages_window_trace (page n : Z) :
  requested_pages (window_trace srv start end_ page n) = seqZ page n.
Proof.
  unfold window_trace, requested_pages. cbv zeta. rewrite omap_app.
  destruct (failed srv _); cbn [omap list_omap]; rewrite app_nil_r;
    induction (seqZ page n) as [|p l IH]; cbn; by rewrite ?IH.
Qed.

Lemma fetch_pages_run (k : nat) :
  ∀ (fuel : nat) (page : Z) (events : list event),
    (k < fuel)%nat →
    (∀ p, page ≤ p < page + Z.of_nat k → full_page srv start end_ p = true) →
    full_page srv start end_ (page + Z.of_nat k) = false →
    fetch_pages fuel srv start end_ page events
      = Some (events ++ concat (page_body srv start end_
                                  <$> seqZ page (Z.of_nat k + 1)),
              window_trace srv start end_ page (Z.of_nat k + 1)).
Proof.
  induction k as [|k IH]; intros fuel page events Hfuel Hfull Hstop.
  - destruct fuel as [|fuel]; [lia |].
    replace (page + Z.of_nat 0) with page in Hstop by lia.
    change (Z.of_nat 0 + 1) with 1.
    rewrite seqZ_one, fetch_pages_step, window_trace_one.
    unfold full_page in Hstop. unfold page_body, failed.
    cbn [fmap list_fmap concat]. rewrite app_nil_r. cbv zeta.
    destruct (srv (ReqRange start end_ page)) as [body| |] eqn:Hsrv.
    + destruct body as [|ev body]; [by rewrite app_nil_r |].
      apply Nat.leb_gt, Nat.ltb_lt in Hstop. by rewrite Hstop.
    + by rewrite app_nil_r.
    + by rewrite app_nil_r.
  - destruct fuel as [|fuel]; [lia |].
    pose proof (Hfull page ltac:(lia)) as Hfirst.
    replace (Z.of_nat (S k) + 1) with ((Z.of_nat k + 1) + 1) by lia.
    rewrite seqZ_succ, window_trace_succ by lia.
    rewrite fetch_pages_step. cbv zeta.
    assert (page_body srv start end_ page ≠ [] ∧
            srv (ReqRange start end_ page)
              = Resp2xx (page_body srv start end_ page) ∧
            (length (page_body srv start end_ page) <? PAGE_SIZE)%nat = false)
      as (Hne & -> & Hlen).
    { unfold full_page in Hfirst. unfold page_body.
      destruct (srv (ReqRange start end_ page)) as [body| |]; try done.
      apply Nat.leb_le in Hfirst. split_and!; [|done |].
      - intros ->. unfold PAGE_SIZE in Hfirst. cbn in Hfirst. lia.
      - apply Nat.ltb_ge. lia. }
    destruct (page_body srv start end_ page) as [|ev body] eqn:Hbody; [done |].
    rewrite Hlen, IH.
    + cbn [fmap list_fmap concat mbind option_bind]. rewrite Hbody.
      by rewrite <- app_assoc.
    + lia.
    + intros p Hp. apply Hfull. lia.
    + by replace (page + 1 + Z.of_nat k) with (page + Z.of_nat (S k)) by lia.
Qed.

End pagination.

Lemma page_sizes_full (srv : server) (start end_ : date) (sizes : list nat)
    (i size : nat) :
  page_sizes srv start end_ sizes → sizes !! i = Some size →
  full_page srv start end_ (Z.of_nat i + 1) = bool_decide (100 ≤ size)%nat ∧
  length (page_body srv start end_ (Z.of_nat i + 1)) = size.
Proof.
  intros Hs Hi. destruct (Hs i size Hi) as (body & Hsrv & Hlen).
  unfold full_page, page_body, PAGE_SIZE. rewrite Hsrv, Hlen. split; [|done].
  case_bool_decide; [by apply Nat.leb_le | by apply Nat.leb_gt; lia].
Qed.

(** C2. Pagination of a window fetch. If the pages 1..n arrive with at
    least 100 records each and page n+1 does not, the fetch requests
    exactly the pages 1, 2, ..., n+1 in this order and returns the records
    of all of them; any requested page of exactly 100 records is followed
    by a request for the next page. Pages of sizes [100,100,37] cost 3
    requests and give 237 records; a first page of 42 records costs 1
    request. *)
Theorem pagination_until_short_page (srv : server) (start end_ : date) :
  (∀ (n fuel : nat),
     (∀ p, 1 ≤ p ≤ Z.of_nat n → full_page srv start end_ p = true) →
     full_page srv start end_ (Z.of_nat n + 1) = false →
     (n < fuel)%nat →
     ∃ events tr,
       fetch_by_date_range fuel srv start end_ = Some (events, tr) ∧
       requested_pages tr = seqZ 1 (Z.of_nat n + 1) ∧
       requests tr = ReqRange start end_ <$> seqZ 1 (Z.of_nat n + 1) ∧
       events = concat (page_body srv start end_ <$> seqZ 1 (Z.of_nat n + 1)) ∧
       (∀ p body,
          p ∈ requested_pages tr →
          srv (ReqRange start end_ p) = Resp2xx body →
          length body = 100%nat →
          (p + 1) ∈ requested_pages tr)) ∧
  (∀ fuel : nat,
     page_sizes srv start end_ [100; 100; 37]%nat → (3 ≤ fuel)%nat →
     ∃ events tr,
       fetch_by_date_range fuel srv start end_ = Some (events, tr) ∧
       requested_pages tr = [1; 2; 3] ∧
       length (requests tr) = 3%nat ∧
       length events = 237%nat) ∧
  (∀ fuel : nat,
     page_sizes srv start end_ [42]%nat → (1 ≤ fuel)%nat →
     ∃ events tr,
       fetch_by_date_range fuel srv start end_ = Some (events, tr) ∧
       requested_pages tr = [1] ∧
       length (requests tr) = 1%nat ∧
       length events = 42%nat).
Proof.
  assert (∀ (n fuel : nat),
     (∀ p, 1 ≤ p ≤ Z.of_nat n → full_page srv start end_ p = true) →
     full_page srv start end_ (Z.of_nat n + 1) = false →
     (n < fuel)%nat →
     ∃ tr,
       fetch_by_date_range fuel srv start end_
         = Some (concat (page_body srv start end_ <$> seqZ 1 (Z.of_nat n + 1)),
                 tr) ∧
       requested_pages tr = seqZ 1 (Z.of_nat n + 1) ∧
       requests tr = ReqRange start end_ <$> seqZ 1 (Z.of_nat n + 1)) as Hrun.
  { intros n fuel Hfull Hstop Hfuel. eexists. split_and!.
    - unfold fetch_by_date_range. rewrite (fetch_pages_run srv start end_ n);
        [by rewrite app_nil_l | done | intros p Hp; apply Hfull; lia
        | by rewrite Z.add_comm].
    - apply requested_pages_window_trace.
    - apply requests_window_trace. }
  split_and!.
  - intros n fuel Hfull Hstop Hfuel.
    destruct (Hrun n fuel Hfull Hstop Hfuel) as (tr & Hr & Hp & Hq).
    eexists _, tr. split_and!; [done.. |].
    intros p body Hin Hsrv Hlen. rewrite Hp in Hin |- *.
    apply elem_of_seqZ in Hin. apply elem_of_seqZ.
    assert (p ≠ Z.of_nat n + 1); [|lia].
    intros ->. unfold full_page in Hstop. by rewrite Hsrv, Hlen in Hstop.
  - intros fuel Hs Hfuel.
    destruct (page_sizes_full _ _ _ _ 0 100 Hs eq_refl) as [Hf1 Hl1].
    destruct (page_sizes_full _ _ _ _ 1 100 Hs eq_refl) as [Hf2 Hl2].
    destruct (page_sizes_full _ _ _ _ 2 37 Hs eq_refl) as [Hf3 Hl3].
    destruct (Hrun 2%nat fuel) as (tr & Hr & Hp & Hq); [| done | lia |].
    { intros p Hp. assert (p = 1 ∨ p = 2) as [-> | ->] by lia; done. }
    eexists _, tr. split_and!; [done | done | by rewrite Hq |].
    change (seqZ 1 (Z.of_nat 2 + 1)) with [1; 2; 3].
    cbn [fmap list_fmap concat]. rewrite app_nil_r, !length_app.
    change 1 with (Z.of_nat 0 + 1) at 1. rewrite Hl1.
    change 2 with (Z.of_nat 1 + 1). rewrite Hl2.
    change 3 with (Z.of_nat 2 + 1). by rewrite Hl3.
  - intros fuel Hs Hfuel.
    destruct (page_sizes_full _ _ _ _ 0 42 Hs eq_refl) as [Hf1 Hl1].
    destruct (Hrun 0%nat fuel) as (tr & Hr & Hp & Hq); [| done | lia |].
    { intros p Hp. lia. }
    eexists _, tr. split_and!; [done | done | by rewrite Hq |].
    change (seqZ 1 (Z.of_nat 0 + 1)) with [1].
    cbn [fmap list_fmap concat]. rewrite app_nil_r.
    change 1 with (Z.of_nat 0 + 1). by rewrite Hl1.
Qed.

Lemma pagination_until_short_page_witness :
  ∃ events tr,
    fetch_by_date_range 3 (paged_server [100; 100; 37]%nat) 739252 739258
      = Some (events, tr) ∧
    requested_pages tr = [1; 2; 3] ∧
    length (requests tr) = 3%nat ∧
    length events = 237%nat.
Proof.
  apply (pagination_until_short_page
           (paged_server [100; 100; 37]%nat) 739252 739258); [|lia].
  intros i size Hi. destruct i as [|[|[|i]]]; [| | |done];
    injection Hi as <-; eexists; split; reflexivity.
Defined.

(** ** Window planning *)

Lemma date_add_ok (d n : Z) :
  0 < d + n → d + n ≤ MAXORDINAL → date_add d n = Ok (d + n).
Proof.
  intros Hlo Hhi. unfold date_add. cbv zeta.
  apply Z.ltb_lt in Hlo as ->. by apply Z.leb_le in Hhi as ->.
Qed.

Lemma date_add_overflow (d n : Z) :
  MAXORDINAL < d + n → date_add d n = Raise OverflowError.
Proof.
  intros Hhi. unfold date_add. cbv zeta.
  apply Z.leb_gt in Hhi as ->. by rewrite andb_false_r.
Qed.

Lemma plan_in_range_next (current end_ : date) :
  current + 6 < end_ → plan_in_range current end_ →
  plan_in_range (current + 7) end_.
Proof.
  unfold plan_in_range, window_days. intros Hlt [Hend Hlast].
  split; [done |].
  replace (end_ - (current + 7)) with ((end_ - current) + (-1) * 7) by lia.
  rewrite Z.div_add by lia. lia.
Qed.

Lemma plan_in_range_reach (current end_ : date) :
  current ≤ end_ → plan_in_range current end_ → current + 6 ≤ MAXORDINAL.
Proof.
  unfold plan_in_range, window_days. intros Hle [_ Hlast].
  pose proof (Z.div_pos (end_ - current) 7 ltac:(lia) ltac:(lia)). lia.
Qed.

Lemma plan_in_range_week (start end_ : date) :
  end_ + 6 ≤ MAXORDINAL → start ≤ end_ → plan_in_range start end_.
Proof.
  unfold plan_in_range, window_days. intros Hmax Hle. split; [lia |].
  pose proof (Z.mul_div_le (end_ - start) 7 ltac:(lia)). lia.
Qed.

Lemma windows_loop_tiles (end_ : date) (fuel : nat) :
  ∀ (current : date) (acc : list (date * date)),
    1 ≤ current → current ≤ end_ + 1 →
    (current ≤ end_ → plan_in_range current end_) →
    end_ - current + 1 ≤ Z.of_nat fuel →
    ∃ windows,
      windows_loop fuel current end_ acc = Some (Ok (acc ++ windows)) ∧
      tiles windows current end_.
Proof.
  induction fuel as [|fuel IH]; intros current acc Hlo Hcur Hrange Hfuel.
  - exists []. assert (current = end_ + 1) as -> by lia.
    cbn [windows_loop]. rewrite (proj2 (Z.leb_gt _ _)) by lia.
    by rewrite app_nil_r.
  - cbn [windows_loop]. destruct (Z.leb_spec current end_) as [Hle|Hgt].
    + pose proof (plan_in_range_reach _ _ Hle (Hrange Hle)) as Hreach.
      pose proof (proj1 (Hrange Hle)) as Hend.
      unfold window_days. rewrite date_add_ok by lia.
      rewrite date_add_ok by lia.
      destruct (IH (Z.min (current + (7 - 1)) end_ + 1)
                   (acc ++ [(current, Z.min (current + (7 - 1)) end_)]))
        as (rest & Hrun & Htiles); [lia | lia | | lia |].
      { intros Hnext. replace (Z.min (current + (7 - 1)) end_ + 1)
          with (current + 7) by lia.
        apply plan_in_range_next; [lia | by apply Hrange]. }
      exists ((current, Z.min (current + (7 - 1)) end_) :: rest).
      rewrite Hrun, <- app_assoc. split; [done |].
      cbn [tiles]. unfold window_days. done.
    + exists []. rewrite app_nil_r. split; [done |]. cbn. lia.
Qed.

Lemma plan_windows_tiles (start end_ : date) :
  1 ≤ start → start ≤ end_ → plan_in_range start end_ →
  ∃ windows, plan_windows start end_ = Some (Ok windows) ∧
             tiles windows start end_.
Proof.
  intros Hlo Hle Hrange.
  destruct (windows_loop_tiles end_ (Z.to_nat (end_ - start + 1)) start [])
    as (ws & Hrun & Ht); [lia | lia | done | lia |].
  exists ws. by rewrite app_nil_l in Hrun.
Qed.

Lemma windows_loop_overflow (end_ : date) (fuel : nat) :
  ∀ (current : date) (acc : list (date * date)),
    1 ≤ current → current ≤ end_ → end_ ≤ MAXORDINAL →
    ¬ plan_in_range current end_ →
    end_ - current + 1 ≤ Z.of_nat fuel →
    windows_loop fuel current end_ acc = Some (Raise OverflowError).
Proof.
  induction fuel as [|fuel IH]; intros current acc Hlo Hle Hmax Hout Hfuel;
    [lia |].
  cbn [windows_loop]. rewrite (proj2 (Z.leb_le _ _)) by done.
  unfold window_days.
  destruct (Z.le_gt_cases (current + 6) MAXORDINAL) as [Hreach|Hreach];
    [|by rewrite date_add_overflow by lia].
  rewrite date_add_ok by lia.
  destruct (Z.le_gt_cases (Z.min (current + (7 - 1)) end_ + 1) MAXORDINAL)
    as [Hnext|Hnext]; [|by rewrite date_add_overflow by lia].
  rewrite date_add_ok by lia.
  destruct (Z.le_gt_cases end_ (current + 6)) as [Hlast|Hmore].
  - destruct Hout. unfold plan_in_range, window_days. split; [lia |].
    rewrite Z.div_small by lia. lia.
  - replace (Z.min (current + (7 - 1)) end_ + 1) with (current + 7) by lia.
    apply IH; [lia.. | | lia].
    intros Hin. apply Hout. unfold plan_in_range, window_days in *.
    destruct Hin as [Hend Hweek]. split; [done |].
    replace (end_ - (current + 7)) with ((end_ - current) + (-1) * 7)
      in Hweek by lia.
    rewrite Z.div_add in Hweek by lia. lia.
Qed.

Lemma plan_windows_overflow (start end_ : date) :
  valid_date start → valid_date end_ → start ≤ end_ →
  ¬ plan_in_range start end_ →
  plan_windows start end_ = Some (Raise OverflowError).
Proof.
  intros [Hs _] [_ He] Hle Hout.
  apply windows_loop_overflow; [done.. | lia].
Qed.

Lemma tiles_within (windows : list (date * date)) (start end_ : date) :
  tiles windows start end_ →
  Forall (λ w, start ≤ w.1 ∧ w.1 ≤ w.2 ∧ w.2 ≤ end_ ∧ w.2 ≤ w.1 + 6) windows.
Proof.
  revert start. induction windows as [|[a b] rest IH]; intros start; cbn [tiles].
  - constructor.
  - unfold window_days. intros (-> & Hle & -> & Hrest). constructor.
    + cbn. lia.
    + eapply Forall_impl; [by apply IH |]. cbn. lia.
Qed.

Lemma tiles_cover (windows : list (date * date)) (start end_ : date) (d : date) :
  tiles windows start end_ → start ≤ d ≤ end_ →
  ∃ w, w ∈ windows ∧ in_window d w.
Proof.
  revert start. induction windows as [|[a b] rest IH]; intros start; cbn [tiles].
  - lia.
  - intros (-> & Hle & -> & Hrest) Hd.
    destruct (Z.le_gt_cases d (Z.min (start + (window_days - 1)) end_))
      as [Hin|Hout].
    + eexists. split; [left |]. unfold in_window. cbn. lia.
    + destruct (IH _ Hrest) as (w & Hw & Hdw); [lia |].
      exists w. split; [by right | done].
Qed.

Lemma tiles_adjacent (windows : list (date * date)) (start end_ : date)
    (i : nat) (w w' : date * date) :
  tiles windows start end_ →
  windows !! i = Some w → windows !! S i = Some w' →
  w'.1 = w.2 + 1 ∧ w.2 = w.1 + 6.
Proof.
  revert start i. induction windows as [|[a b] rest IH]; intros start i;
    cbn [tiles]; [done |].
  intros (-> & Hle & -> & Hrest). destruct i as [|i]; cbn.
  - intros [= <-]. destruct rest as [|[a' b'] rest]; [done |].
    intros [= <-]. cbn in Hrest |- *. unfold window_days in *. lia.
  - by apply (IH (Z.min (start + (window_days - 1)) end_ + 1)).
Qed.

Lemma tiles_last (windows : list (date * date)) (start end_ : date) :
  tiles windows start end_ → start ≤ end_ →
  ∃ w, last windows = Some w ∧ w.2 = end_.
Proof.
  revert start. induction windows as [|[a b] rest IH]; intros start; cbn [tiles].
  - lia.
  - intros (-> & Hle & -> & Hrest) _. destruct rest as [|w' rest].
    + cbn in Hrest. eexists. split; [done |]. cbn. lia.
    + destruct (IH _ Hrest) as (w & Hw & He).
      { destruct w'. cbn in Hrest. lia. }
      exists w. split; [|done]. by rewrite last_cons, Hw.
Qed.

Lemma tiles_disjoint (windows : list (date * date)) (start end_ : date)
    (i j : nat) (w w' : date * date) :
  tiles windows start end_ →
  windows !! i = Some w → windows !! j = Some w' → (i < j)%nat →
  w.2 < w'.1.
Proof.
  revert start i j. induction windows as [|[a b] rest IH]; intros start i j;
    cbn [tiles]; [done |].
  intros (-> & Hle & -> & Hrest) Hi Hj Hij.
  destruct j as [|j]; [lia |]. cbn in Hj. destruct i as [|i].
  - cbn in Hi. injection Hi as <-.
    apply tiles_within in Hrest. rewrite Forall_forall in Hrest.
    apply list_elem_of_lookup_2, Hrest in Hj. cbn. lia.
  - cbn in Hi. eapply IH; eauto. lia.
Qed.

Lemma windows_loop_returns (end_ : date) (fuel : nat) :
  ∀ (current : date) (acc : list (date * date)),
    end_ - current + 1 ≤ Z.of_nat fuel →
    is_Some (windows_loop fuel current end_ acc).
Proof.
  induction fuel as [|fuel IH]; intros current acc Hfuel; cbn [windows_loop].
  - destruct (Z.leb_spec current end_); [lia | done].
  - destruct (Z.leb_spec current end_) as [Hle|Hgt]; [|done].
    unfold date_add at 1. cbv zeta.
    destruct ((0 <? current + (window_days - 1))
              && (current + (window_days - 1) <=? MAXORDINAL)) eqn:Hreach;
      [|done].
    apply andb_true_iff in Hreach as [Hlo%Z.ltb_lt Hhi%Z.leb_le].
    unfold window_days in *.
    destruct (date_add _ 1) as [next|e] eqn:Hnext; [|done].
    unfold date_add in Hnext. cbv zeta in Hnext.
    destruct (_ && _) in Hnext; [|done]. injection Hnext as <-.
    apply IH. lia.
Qed.

Lemma plan_windows_returns (start end_ : date) :
  is_Some (plan_windows start end_).
Proof. apply windows_loop_returns. lia. Qed.

(** C5, as amended. For valid dates [start <= end] such that the dates
    the planning loop computes stay within the range of [date] (the day
    after [end], and the seventh day of the last window; [end] no later
    than 9999-12-25 is enough), the window plan of Phase 1 exists and
    covers [start..end] exactly: a day lies in a window iff it lies in
    [start..end]; windows do not overlap; each window begins the day after
    the one before it ends; every window but the last spans 7 days; the
    first begins at [start] and the last ends at [end], spanning at most 7
    days. For the other valid dates the loop raises [OverflowError]. *)
Theorem window_plan_covers_span (start end_ : date) :
  valid_date start → valid_date end_ → start ≤ end_ →
  (end_ + 6 ≤ MAXORDINAL → plan_in_range start end_) ∧
  (¬ plan_in_range start end_ →
   plan_windows start end_ = Some (Raise OverflowError)) ∧
  (plan_in_range start end_ →
   ∃ windows,
     plan_windows start end_ = Some (Ok windows) ∧
     (∀ d, start ≤ d ≤ end_ ↔ ∃ w, w ∈ windows ∧ in_window d w) ∧
     (∀ i j w w',
        windows !! i = Some w → windows !! j = Some w' → (i < j)%nat →
        w.2 < w'.1) ∧
     (∀ i w w',
        windows !! i = Some w → windows !! S i = Some w' →
        w'.1 = w.2 + 1 ∧ w.2 = w.1 + 6) ∧
     (∃ w, head windows = Some w ∧ w.1 = start) ∧
     (∃ w, last windows = Some w ∧ w.2 = end_ ∧ w.1 ≤ w.2 ≤ w.1 + 6)).
Proof.
  intros Hvs Hve Hle. split_and!.
  - intros Hmax. by apply plan_in_range_week.
  - by apply plan_windows_overflow.
  - intros Hrange. destruct Hvs as [Hs _].
    destruct (plan_windows_tiles start end_) as (ws & Hplan & Ht); [done.. |].
    exists ws. split; [done |].
    pose proof (tiles_within _ _ _ Ht) as Hin. rewrite Forall_forall in Hin.
    split_and!.
    + intros d. split; [by apply tiles_cover |].
      intros (w & Hw & Hd). apply Hin in Hw. unfold in_window in Hd. lia.
    + intros i j w w'. by apply (tiles_disjoint ws start end_).
    + intros i w w'. by apply (tiles_adjacent ws start end_).
    + destruct ws as [|[a b] ws]; cbn in Ht; [lia |].
      exists (a, b). split; [done |]. cbn. lia.
    + destruct (tiles_last _ _ _ Ht Hle) as (w & Hw & He).
      exists w. split_and!; [done | done | |].
      * apply last_Some_elem_of, Hin in Hw. lia.
      * apply last_Some_elem_of, Hin in Hw. lia.
Qed.

Lemma window_plan_covers_span_witness :
  ∃ windows,
    plan_windows 739252 739267 = Some (Ok windows) ∧
    windows = [(739252, 739258); (739259, 739265); (739266, 739267)].
Proof.
  destruct (window_plan_covers_span 739252 739267) as (Hweek & _ & Hcover);
    [unfold valid_date, MAXORDINAL; lia.. |].
  destruct Hcover as (ws & Hplan & _);
    [apply Hweek; unfold MAXORDINAL; lia |].
  exists ws. split; [done |].
  vm_compute in Hplan. by injection Hplan as <-.
Defined.

(** C5, as stated, fails at the top of the date range: for the valid dates
    [start = end = 9999-12-31] there is no plan, since
    [current + timedelta(days=6)] raises [OverflowError]. *)
Lemma window_plan_overflow :
  init "9999-12-31" "9999-12-31"
    = Ok (mkFetcher MAXORDINAL MAXORDINAL [] (mkStats 0 0 0) []) ∧
  valid_date MAXORDINAL ∧
  plan_windows MAXORDINAL MAXORDINAL = Some (Raise OverflowError) ∧
  ¬ (∃ windows, plan_windows MAXORDINAL MAXORDINAL = Some (Ok windows)).
Proof.
  split_and!; [by vm_compute | by vm_compute | by vm_compute |].
  intros [ws Hws]. vm_compute in Hws. discriminate.
Qed.

(** ** Errors during the sweep *)

Lemma full_page_not_failed (srv : server) (start end_ : date) (p : Z) :
  failed srv (ReqRange start end_ p) = true →
  full_page srv start end_ p = false ∧ page_body srv start end_ p = [].
Proof.
  unfold failed, full_page, page_body.
  by destruct (srv (ReqRange start end_ p)).
Qed.

Lemma fetch_windows_step (fuel : nat) (srv : server) (start end_ : date)
    (rest : list (date * date)) (f : fetcher) (events : list event)
    (tr : list effect) :
  fetch_by_date_range fuel srv start end_ = Some (events, tr) →
  fetch_windows fuel srv ((start, end_) :: rest) f =
    match store_events events (all_events f) with
    | Ok d => fetch_windows fuel srv rest (set_events (emit f tr) d)
    | Raise e => Some (Raise e)
    end.
Proof. intros Hf. cbn [fetch_windows]. by rewrite Hf. Qed.

(** C7, as amended. When the pages 1..n of a window arrive full and the
    request for page n+1 fails, the window's fetch stops there: every page
    is requested once (no retry), the records of the pages 1..n are
    returned, and a warning line is printed. The error is not passed to the
    caller: the list returned is the one a registry with an empty page n+1
    gives. The sweep then merges the records returned and goes on with the
    next window. *)
Theorem window_error_keeps_partial_results (srv : server) (start end_ : date)
    (n fuel : nat) (rest : list (date * date)) (f : fetcher) :
  (∀ p, 1 ≤ p ≤ Z.of_nat n → full_page srv start end_ p = true) →
  failed srv (ReqRange start end_ (Z.of_nat n + 1)) = true →
  (n < fuel)%nat →
  let collected := concat (page_body srv start end_ <$> seqZ 1 (Z.of_nat n)) in
  let tr := (EGet <$> (ReqRange start end_ <$> seqZ 1 (Z.of_nat n + 1)))
              ++ [EWarn (ReqRange start end_ (Z.of_nat n + 1))] in
  fetch_by_date_range fuel srv start end_ = Some (collected, tr) ∧
  requests tr = ReqRange start end_ <$> seqZ 1 (Z.of_nat n + 1) ∧
  NoDup (requests tr) ∧
  (∀ srv' : server,
     (∀ rq, rq ≠ ReqRange start end_ (Z.of_nat n + 1) → srv' rq = srv rq) →
     srv' (ReqRange start end_ (Z.of_nat n + 1)) = Resp2xx [] →
     ∃ tr', fetch_by_date_range fuel srv' start end_ = Some (collected, tr') ∧
            ∀ rq, EWarn rq ∉ tr') ∧
  fetch_windows fuel srv ((start, end_) :: rest) f =
    match store_events collected (all_events f) with
    | Ok d => fetch_windows fuel srv rest (set_events (emit f tr) d)
    | Raise e => Some (Raise e)
    end.
Proof.
  intros Hfull Hfail Hfuel collected tr.
  destruct (full_page_not_failed _ _ _ _ Hfail) as [Hstop Hbody].
  assert (∀ srv' : server,
    (∀ p, 1 ≤ p ≤ Z.of_nat n → full_page srv' start end_ p = true) →
    full_page srv' start end_ (Z.of_nat n + 1) = false →
    fetch_by_date_range fuel srv' start end_ =
      Some (concat (page_body srv' start end_ <$> seqZ 1 (Z.of_nat n + 1)),
            window_trace srv' start end_ 1 (Z.of_nat n + 1))) as Hrun.
  { intros srv' Hfull' Hstop'. unfold fetch_by_date_range.
    rewrite (fetch_pages_run srv' start end_ n);
      [by rewrite app_nil_l | done | intros p Hp; apply Hfull'; lia
      | by rewrite Z.add_comm]. }
  assert (∀ srv' : server,
    page_body srv' start end_ (Z.of_nat n + 1) = [] →
    concat (page_body srv' start end_ <$> seqZ 1 (Z.of_nat n + 1))
      = concat (page_body srv' start end_ <$> seqZ 1 (Z.of_nat n))) as Hcat.
  { intros srv' Hb. rewrite seqZ_app by lia. rewrite seqZ_one, fmap_app.
    rewrite concat_app. cbn [fmap list_fmap concat].
    replace (1 + Z.of_nat n) with (Z.of_nat n + 1) by lia.
    by rewrite Hb, !app_nil_r. }
  assert (fetch_by_date_range fuel srv start end_ = Some (collected, tr)) as Hf.
  { rewrite (Hrun srv Hfull Hstop), (Hcat srv Hbody). unfold window_trace.
    cbv zeta. replace (1 + (Z.of_nat n + 1) - 1) with (Z.of_nat n + 1) by lia.
    by rewrite Hfail. }
  assert (requests tr = ReqRange start end_ <$> seqZ 1 (Z.of_nat n + 1)) as Hreq.
  { pose proof (requests_window_trace srv start end_ 1 (Z.of_nat n + 1)) as Hr.
    unfold window_trace in Hr. cbv zeta in Hr.
    replace (1 + (Z.of_nat n + 1) - 1) with (Z.of_nat n + 1) in Hr by lia.
    by rewrite Hfail in Hr. }
  split_and!; [done | done | | | by apply fetch_windows_step].
  - rewrite Hreq. apply NoDup_fmap_2; [by intros ?? [= ->] | apply NoDup_seqZ].
  - intros srv' Hsame Hempty.
    assert (∀ p, p ≠ Z.of_nat n + 1 →
              full_page srv' start end_ p = full_page srv start end_ p ∧
              page_body srv' start end_ p = page_body srv start end_ p) as Hp.
    { intros p Hne. unfold full_page, page_body.
      rewrite Hsame; [done |]. by intros [= ->]. }
    eexists. split.
    + rewrite Hrun.
      * rewrite Hcat by (unfold page_body; by rewrite Hempty).
        unfold collected. do 3 f_equal.
        apply Forall_fmap_ext, Forall_forall. intros p Hin.
        apply elem_of_seqZ in Hin. apply Hp. lia.
      * intros p Hle. destruct (Hp p) as [-> _]; [lia | by apply Hfull].
      * unfold full_page. by rewrite Hempty.
    + intros rq. unfold window_trace, failed. cbv zeta.
      replace (1 + (Z.of_nat n + 1) - 1) with (Z.of_nat n + 1) by lia.
      rewrite Hempty, app_nil_r. intros Hin.
      apply list_elem_of_fmap in Hin as (? & ? & _). done.
Qed.

Lemma window_error_keeps_partial_results_witness :
  fetch_by_date_range 5 failing_server 739252 739258
    = Some (sample_page 100,
            [EGet (ReqRange 739252 739258 1); EGet (ReqRange 739252 739258 2);
             EWarn (ReqRange 739252 739258 2)]).
Proof.
  destruct (window_error_keeps_partial_results
              failing_server 739252 739258 1 5 []
              (mkFetcher 739252 739258 [] (mkStats 0 0 0) [])) as [Hrun _].
  - intros p Hp. assert (p = 1) as -> by lia. reflexivity.
  - reflexivity.
  - lia.
  - exact Hrun.
Defined.

(** C7, as stated, fails in one part: the caller of [fetch_by_date_range]
    is not told of the error. A window whose second request fails and a
    window whose second page is empty hand the same list to the caller. *)
Lemma window_error_not_reported :
  fst <$> fetch_by_date_range 5 failing_server 739252 739258
    = fst <$> fetch_by_date_range 5 (paged_server [100%nat]) 739252 739258 ∧
  failed failing_server (ReqRange 739252 739258 2) = true ∧
  ¬ error_reported_to_caller.
Proof.
  split_and!; [by vm_compute | done |].
  intros [reported Hrep].
  assert (fetch_by_date_range 5 failing_server 739252 739258
            = Some (sample_page 100,
                    [EGet (ReqRange 739252 739258 1);
                     EGet (ReqRange 739252 739258 2);
                     EWarn (ReqRange 739252 739258 2)])) as Hfail
    by (by vm_compute).
  assert (fetch_by_date_range 5 (paged_server [100%nat]) 739252 739258
            = Some (sample_page 100,
                    [EGet (ReqRange 739252 739258 1);
                     EGet (ReqRange 739252 739258 2)])) as Hfine
    by (by vm_compute).
  apply Hrep in Hfail, Hfine.
  destruct Hfail as [_ Hyes]. destruct Hfine as [Hno _].
  destruct Hno as (rq & Hin & Hrq).
  - apply Hyes. exists (ReqRange 739252 739258 2). split; [|done].
    cbn. set_solver.
  - cbn in Hin. set_unfold in Hin. destruct Hin as [-> | [-> | []]]; by vm_compute in Hrq.
Qed.

(** ** Construction of a session *)

Lemma fromisoformat_raises (s : string) (e : exn) :
  fromisoformat s = Raise e → e = ValueError.
Proof.
  unfold fromisoformat.
  repeat case_match; intros; simplify_eq; done.
Qed.

Lemma plan_windows_reversed (start end_ : date) :
  end_ < start → plan_windows start end_ = Some (Ok []).
Proof.
  intros Hlt. unfold plan_windows.
  destruct (Z.to_nat (end_ - start + 1)); cbn [windows_loop];
    by destruct (Z.leb_spec start end_); [lia |].
Qed.

Lemma calendar_date_test (y m d : Z) :
  (1 <=? y) && (1 <=? m) && (m <=? 12) && (1 <=? d)
    && (d <=? days_in_month y m) = true
  ↔ calendar_date (y, m, d).
Proof.
  unfold calendar_date. rewrite !andb_true_iff, !Z.leb_le. tauto.
Qed.

Lemma fromisoformat_fields (s : string) (y m d : Z) :
  ymd_fields s = Some (y, m, d) →
  fromisoformat s =
    if (1 <=? y) && (1 <=? m) && (m <=? 12) && (1 <=? d)
       && (d <=? days_in_month y m)
    then Ok (ymd2ord y m d) else Raise ValueError.
Proof.
  unfold ymd_fields, fromisoformat.
  destruct (String.list_ascii_of_string s)
    as [|y1 [|y2 [|y3 [|y4 [|s1 [|m1 [|m2 [|s2 [|d1 [|d2 [|]]]]]]]]]]];
    try done.
  destruct (is_dash s1 && is_dash s2) eqn:Hdash; [|done].
  destruct (digits_value [y1; y2; y3; y4] 0) as [y0|]; [|done].
  destruct (digits_value [m1; m2] 0) as [m0|]; [|done].
  destruct (digits_value [d1; d2] 0) as [d0|]; [|done].
  cbn. by intros [= <- <- <-].
Qed.

Lemma fromisoformat_calendar (s : string) (y m d : Z) :
  ymd_fields s = Some (y, m, d) →
  (calendar_date (y, m, d) → fromisoformat s = Ok (ymd2ord y m d)) ∧
  (¬ calendar_date (y, m, d) → fromisoformat s = Raise ValueError).
Proof.
  intros ->%fromisoformat_fields. rewrite <- calendar_date_test.
  by destruct (_ && _).
Qed.

(** C8, as amended. [__init__] checks that the two strings are dates and
    nothing else. Given two strings of the documented form YYYY-MM-DD, it
    raises exactly when one of them spells a day that is not in the
    calendar, and it raises a [ValueError]; otherwise it builds the
    session with these two dates, an empty store and no request made,
    whatever the order of the dates. When [start > end], Phase 1 plans no
    window, makes no request and leaves the store empty. *)
Theorem init_checks_date_syntax_only (start end_ : string)
    (y m d y' m' d' : Z) :
  ymd_fields start = Some (y, m, d) →
  ymd_fields end_ = Some (y', m', d') →
  (init start end_ = Raise ValueError ↔
   ¬ calendar_date (y, m, d) ∨ ¬ calendar_date (y', m', d')) ∧
  (∀ e, init start end_ = Raise e → e = ValueError) ∧
  (calendar_date (y, m, d) → calendar_date (y', m', d') →
   init start end_
     = Ok (mkFetcher (ymd2ord y m d) (ymd2ord y' m' d') [] (mkStats 0 0 0) [])) ∧
  (∀ f fuel srv,
     init start end_ = Ok f → end_date f < start_date f →
     ∃ f', phase1_date_based_fetch fuel srv f = Some (Ok f') ∧
           all_events f' = [] ∧ requests (trace f') = []).
Proof.
  intros Hstart Hend.
  destruct (fromisoformat_calendar start y m d Hstart) as [Hs Hs'].
  destruct (fromisoformat_calendar end_ y' m' d' Hend) as [He He'].
  assert (Decision (calendar_date (y, m, d))) as Hdec
    by (unfold calendar_date; apply _).
  assert (Decision (calendar_date (y', m', d'))) as Hdec'
    by (unfold calendar_date; apply _).
  unfold init. split_and!.
  - destruct Hdec as [Hok | Hbad];
      [|rewrite (Hs' Hbad); cbn; split; [by left | done]].
    rewrite (Hs Hok). cbn.
    destruct Hdec' as [Hok' | Hbad'];
      [|rewrite (He' Hbad'); cbn; split; [by right | done]].
    rewrite (He Hok'). cbn. split; [done | by intros [? | ?]].
  - intros e.
    destruct (fromisoformat start) as [s|e1] eqn:Hp; cbn.
    + destruct (fromisoformat end_) as [e2|e2] eqn:Hq; cbn; [done |].
      intros [= <-]. by apply fromisoformat_raises in Hq.
    + intros [= <-]. by apply fromisoformat_raises in Hp.
  - intros Hok Hok'. by rewrite (Hs Hok), (He Hok').
  - intros f fuel srv Hinit Hlt.
    destruct (fromisoformat start) as [s|]; [|done].
    destruct (fromisoformat end_) as [e|]; [|done].
    cbn in Hinit. injection Hinit as <-. cbn in Hlt.
    unfold phase1_date_based_fetch. cbn [start_date end_date].
    rewrite plan_windows_reversed by done. cbn.
    eexists. split; [done |]. done.
Qed.

Lemma init_rejects_malformed_date :
  init "2025-02-30" "2025-03-01" = Raise ValueError ∧
  init "2025-01-01" "01.03.2025" = Raise ValueError.
Proof. split; reflexivity. Qed.

Lemma init_checks_date_syntax_only_witness :
  init "2025-02-30" "2025-03-01" = Raise ValueError ∧
  init "2025-01-01" "2025-13-01" = Raise ValueError ∧
  init "2025-01-01" "2025-01-16"
    = Ok (mkFetcher 739252 739267 [] (mkStats 0 0 0) []).
Proof.
  assert (days_in_month 2025 1 = 31) as Hjan by reflexivity.
  assert (days_in_month 2025 2 = 28) as Hfeb by reflexivity.
  split_and!.
  - apply (init_checks_date_syntax_only "2025-02-30" "2025-03-01"
             2025 2 30 2025 3 1); [reflexivity | reflexivity |].
    left. unfold calendar_date. rewrite Hfeb. lia.
  - apply (init_checks_date_syntax_only "2025-01-01" "2025-13-01"
             2025 1 1 2025 13 1); [reflexivity | reflexivity |].
    right. unfold calendar_date. lia.
  - apply (init_checks_date_syntax_only "2025-01-01" "2025-01-16"
             2025 1 1 2025 1 16); [reflexivity | reflexivity | |];
      unfold calendar_date; rewrite Hjan; lia.
Defined.

(** C8, as stated, fails: a session with [start > end] is constructed
    without any error. *)
Lemma init_accepts_reversed_dates :
  init "2025-02-01" "2025-01-01"
    = Ok (mkFetcher 739283 739252 [] (mkStats 0 0 0) []) ∧
  739252 < 739283.
Proof. split; [by vm_compute | lia]. Qed.

(** ** Point lookups *)

Lemma hashable_str (v : json) (s : string) :
  hashable v = Some (KStr s) → v = JStr s.
Proof. destruct v as [|[]| | | |]; cbn; congruence. Qed.

Section lookup.
Variables (srv : server) (year : string) (f : fetcher) (c : counters)
          (id_num : Z).

Lemma lookup_step_not_found :
  (fetch_by_id srv id_num year).1 = None →
  all_events (lookup_step srv year (f, c) id_num).1 = all_events f ∧
  (lookup_step srv year (f, c) id_num).2 = count_not_found c.
Proof.
  unfold lookup_step. destruct (fetch_by_id srv id_num year) as [found tr].
  cbn. by intros ->.
Qed.

Lemma lookup_step_found (record : event) (k : pykey) :
  (fetch_by_id srv id_num year).1 = Some record →
  event_truthy record = true →
  hashable (ev_get record "service_request_id") = Some k →
  all_events (lookup_step srv year (f, c) id_num).1
    = dict_set (all_events f) k record ∧
  (lookup_step srv year (f, c) id_num).2 = count_fetched c.
Proof.
  unfold lookup_step. destruct (fetch_by_id srv id_num year) as [found tr].
  cbn. by intros -> -> ->.
Qed.

Lemma lookup_step_store :
  all_events (lookup_step srv year (f, c) id_num).1 = all_events f ∨
  ∃ record k,
    (fetch_by_id srv id_num year).1 = Some record ∧
    hashable (ev_get record "service_request_id") = Some k ∧
    all_events (lookup_step srv year (f, c) id_num).1
      = dict_set (all_events f) k record.
Proof.
  unfold lookup_step. destruct (fetch_by_id srv id_num year) as [[ev|] tr];
    cbn; [|by left].
  destruct (event_truthy ev); [|by left].
  destruct (hashable _) as [k|] eqn:Hk; cbn; [|by left].
  right. by exists ev, k.
Qed.

End lookup.

(** C3. Classification of a point lookup in Phase 2. A lookup answered
    with HTTP 404, or with a success status and an empty array, yields no
    record, leaves the store as it is and is counted as not found, not as
    fetched. A lookup answered with a record (a non-empty object whose id
    can be a dictionary key) is merged into the store and adds one to the
    fetched count. An answer that is an empty object, or whose id cannot
    be a key, is no record to the loop: the store stays as it is and the
    lookup is counted as not found. *)
Theorem backfill_classification (srv : server) (year : string) (f : fetcher)
    (c : counters) (id_num : Z) :
  let rq := ReqId (format_id id_num year) in
  let after := lookup_step srv year (f, c) id_num in
  (srv rq = RespStatus 404 ∨ srv rq = Resp2xx [] →
   (fetch_by_id srv id_num year).1 = None ∧
   all_events after.1 = all_events f ∧
   fetched_count after.2 = fetched_count c ∧
   not_found_count after.2 = S (not_found_count c)) ∧
  (∀ record rest k,
     srv rq = Resp2xx (record :: rest) →
     event_truthy record = true →
     hashable (ev_get record "service_request_id") = Some k →
     (fetch_by_id srv id_num year).1 = Some record ∧
     all_events after.1 = dict_set (all_events f) k record ∧
     dict_get (all_events after.1) k = Some record ∧
     fetched_count after.2 = S (fetched_count c) ∧
     not_found_count after.2 = not_found_count c) ∧
  (∀ record rest,
     srv rq = Resp2xx (record :: rest) →
     event_truthy record = false ∨
     hashable (ev_get record "service_request_id") = None →
     all_events after.1 = all_events f ∧
     fetched_count after.2 = fetched_count c ∧
     not_found_count after.2 = S (not_found_count c)).
Proof.
  intros rq after. split_and!.
  - intros Hresp.
    assert ((fetch_by_id srv id_num year).1 = None) as Hnone.
    { unfold fetch_by_id. cbv zeta. fold rq. by destruct Hresp as [-> | ->]. }
    destruct (lookup_step_not_found srv year f c id_num Hnone) as [Hs Hc].
    subst after. by rewrite Hs, Hc.
  - intros record rest k Hresp Htruthy Hkey.
    assert ((fetch_by_id srv id_num year).1 = Some record) as Hsome.
    { unfold fetch_by_id. cbv zeta. fold rq. by rewrite Hresp. }
    destruct (lookup_step_found srv year f c id_num record k Hsome Htruthy Hkey)
      as [Hs Hc].
    subst after. rewrite Hs, Hc. split_and!; try done.
    apply dict_get_set_eq.
  - intros record rest Hresp Hno. subst after.
    unfold lookup_step, fetch_by_id. cbv zeta. fold rq. rewrite Hresp.
    destruct (event_truthy record); [|done].
    destruct Hno as [? | ->]; done.
Qed.

Lemma backfill_classification_witness :
  let found := lookup_step backfill_server "2026" (empty_session, mkCounters 0 0) 4 in
  let lost := lookup_step backfill_server "2026" (empty_session, mkCounters 0 0) 7 in
  (all_events found.1 = [(KStr "4-2026", sample_record "4-2026")] ∧
   fetched_count found.2 = 1%nat) ∧
  (all_events lost.1 = [] ∧ fetched_count lost.2 = 0%nat).
Proof.
  intros found lost. split.
  - destruct (backfill_classification backfill_server "2026" empty_session
                (mkCounters 0 0) 4) as (_ & Hfound & _).
    destruct (Hfound (sample_record "4-2026") [] (KStr "4-2026"))
      as (_ & Hs & _ & Hc & _); [reflexivity.. |].
    split; [exact Hs | exact Hc].
  - destruct (backfill_classification backfill_server "2026" empty_session
                (mkCounters 0 0) 7) as (Hlost & _ & _).
    destruct Hlost as (_ & Hs & Hc & _); [left; reflexivity |].
    split; [exact Hs | exact Hc].
Defined.

(** C10. A record returned by a point lookup is merged under the
    [service_request_id] it carries itself ([None] when the field is
    absent), not under the ID that was asked for. Hence, when the ID of
    the returned record is not the requested one, the requested ID is as
    absent from the store after the merge as it was before. *)
Theorem backfill_keyed_by_returned_id (srv : server) (year : string)
    (f : fetcher) (c : counters) (id_num : Z) (record : event) :
  let requested := format_id id_num year in
  let after := (lookup_step srv year (f, c) id_num).1 in
  (fetch_by_id srv id_num year).1 = Some record →
  event_truthy record = true →
  (∀ k, hashable (ev_get record "service_request_id") = Some k →
        all_events after = dict_set (all_events f) k record ∧
        dict_get (all_events after) k = Some record) ∧
  (get_field record "service_request_id" = None →
   all_events after = dict_set (all_events f) KNone record) ∧
  (ev_get record "service_request_id" ≠ JStr requested →
   dict_get (all_events f) (KStr requested) = None →
   dict_get (all_events after) (KStr requested) = None).
Proof.
  intros requested after Hfound Htruthy.
  assert (∀ k, hashable (ev_get record "service_request_id") = Some k →
               all_events after = dict_set (all_events f) k record) as Hset.
  { intros k Hk.
    by destruct (lookup_step_found srv year f c id_num record k). }
  split_and!.
  - intros k Hk. split; [by apply Hset |].
    rewrite (Hset k Hk). apply dict_get_set_eq.
  - intros Habsent. apply Hset. unfold ev_get. by rewrite Habsent.
  - intros Hdiff Hbefore.
    destruct (lookup_step_store srv year f c id_num)
      as [Hsame | (record' & k & Hfound' & Hk & Hstore)].
    + subst after. by rewrite Hsame.
    + subst after. rewrite Hstore, dict_get_set_ne; [done |].
      intros ->. rewrite Hfound in Hfound'. injection Hfound' as <-.
      by apply hashable_str in Hk.
Qed.

Lemma backfill_keyed_by_returned_id_witness :
  let after := (lookup_step backfill_server "2026"
                            (empty_session, mkCounters 0 0) 9).1 in
  all_events after = [(KStr "90-2026", sample_record "90-2026")] ∧
  dict_get (all_events after) (KStr "9-2026") = None.
Proof.
  intros after.
  destruct (backfill_keyed_by_returned_id backfill_server "2026" empty_session
              (mkCounters 0 0) 9 (sample_record "90-2026"))
    as (Hkey & _ & Habsent); [reflexivity.. |].
  split.
  - apply (Hkey (KStr "90-2026")). reflexivity.
  - apply Habsent; [discriminate | reflexivity].
Defined.

(** ** The effects of Phase 2 *)

Lemma requests_app (a b : list effect) :
  requests (a ++ b) = requests a ++ requests b.
Proof. apply omap_app. Qed.

Lemma lookup_step_trace (srv : server) (year : string) (f : fetcher)
    (c : counters) (id_num : Z) :
  ∃ tr, trace (lookup_step srv year (f, c) id_num).1 = trace f ++ tr ∧
        requests tr = [lookup_request (year, id_num)] ∧ ESleep ∉ tr.
Proof.
  unfold lookup_step, fetch_by_id, lookup_request. cbv zeta. cbn [fst snd].
  set (rq := ReqId (format_id id_num year)).
  assert (∀ tr tr', requests tr = [rq] → ESleep ∉ tr → tr' = [] ∨ tr' = [EWarn rq] →
            requests (tr ++ tr') = [rq] ∧ ESleep ∉ tr ++ tr') as Hext.
  { intros tr tr' Hr Hs [-> | ->]; rewrite requests_app, Hr; cbn;
      (split; [done |]); set_solver. }
  destruct (srv rq) as [[|ev body]|code|]; cbn.
  - exists [EGet rq]. split_and!; [done | done | set_solver].
  - destruct (event_truthy ev); cbn.
    + destruct (hashable _); cbn.
      * exists [EGet rq]. split_and!; [done | done | set_solver].
      * exists ([EGet rq] ++ [EWarn rq]). rewrite app_assoc.
        split; [done |]. apply Hext; [done | set_solver | auto].
    + exists [EGet rq]. split_and!; [done | done | set_solver].
  - destruct (code =? 404); cbn.
    + exists [EGet rq]. split_and!; [done | done | set_solver].
    + exists [EGet rq; EWarn rq]. split_and!; [done | done | set_solver].
  - exists [EGet rq; EWarn rq]. split_and!; [done | done | set_solver].
Qed.

Lemma lookup_steps_trace (srv : server) (year : string) (ids : list Z) :
  ∀ st : fetcher * counters,
    ∃ tr, trace (foldl (lookup_step srv year) st ids).1 = trace st.1 ++ tr ∧
          requests tr = (λ id_num, lookup_request (year, id_num)) <$> ids ∧
          ESleep ∉ tr.
Proof.
  induction ids as [|id_num ids IH]; intros [f c]; cbn [foldl].
  - exists []. by rewrite app_nil_r; split_and!; [| |apply not_elem_of_nil].
  - destruct (lookup_step_trace srv year f c id_num) as (t1 & Ht1 & Hr1 & Hs1).
    destruct (IH (lookup_step srv year (f, c) id_num)) as (t2 & Ht2 & Hr2 & Hs2).
    exists (t1 ++ t2). rewrite Ht2, Ht1, <- app_assoc, requests_app, Hr1, Hr2.
    split_and!; [done | done |]. rewrite elem_of_app. naive_solver.
Qed.

Lemma slices_concat (l : list Z) (size : nat) :
  ∀ count : nat,
    (length l ≤ count * size)%nat →
    concat ((λ j, slice l (j * size) size) <$> seq 0 count) = l.
Proof.
  intros count. revert l. induction count as [|count IH]; intros l Hlen.
  - destruct l; [done | cbn in Hlen; lia].
  - cbn [seq fmap list_fmap concat]. rewrite <- fmap_S_seq, <- list_fmap_compose.
    transitivity (take size l ++ drop size l); [|apply take_drop].
    f_equal. rewrite <- (IH (drop size l)) by (rewrite length_drop; lia).
    f_equal. apply list_fmap_ext. intros _ j _. unfold slice, compose.
    by rewrite drop_drop.
Qed.

Lemma batches_concat (l : list Z) :
  concat ((λ i, slice l i BATCH_SIZE) <$> py_range_step (length l) BATCH_SIZE)
    = l.
Proof.
  unfold py_range_step. rewrite <- list_fmap_compose.
  apply slices_concat. unfold BATCH_SIZE.
  pose proof (Nat.div_mod (length l + 100 - 1) 100 ltac:(lia)).
  pose proof (Nat.mod_upper_bound (length l + 100 - 1) 100 ltac:(lia)).
  lia.
Qed.

Lemma foldl_batches (srv : server) (year : string) (l : list Z)
    (batches : list nat) :
  ∀ st : fetcher * counters,
    foldl (λ st i, foldl (lookup_step srv year) st (slice l i BATCH_SIZE))
          st batches
    = foldl (lookup_step srv year) st
            (concat ((λ i, slice l i BATCH_SIZE) <$> batches)).
Proof.
  induction batches as [|i batches IH]; intros st; [done |].
  cbn [foldl fmap list_fmap concat]. by rewrite foldl_app, IH.
Qed.

Lemma fetch_year_flat (srv : server) (missing_by_year : gmap string (gset Z))
    (st : fetcher * counters) (year : string) :
  fetch_year srv missing_by_year st year =
    foldl (lookup_step srv year) st
          (sorted_ints (elements (missing_by_year !!! year))).
Proof.
  unfold fetch_year. cbv zeta.
  generalize (sorted_ints (elements (missing_by_year !!! year))). intros ids.
  pose proof (foldl_batches srv year ids
                (py_range_step (length ids) BATCH_SIZE) st) as Hflat.
  rewrite batches_concat in Hflat. by destruct ids.
Qed.

Lemma fetch_years_trace (srv : server) (missing_by_year : gmap string (gset Z))
    (years : list string) :
  ∀ st : fetcher * counters,
    ∃ tr,
      trace (foldl (fetch_year srv missing_by_year) st years).1
        = trace st.1 ++ tr ∧
      requests tr =
        lookup_request <$>
          concat ((λ year, (λ id_num, (year, id_num))
                     <$> sorted_ints (elements (missing_by_year !!! year)))
                  <$> years) ∧
      ESleep ∉ tr.
Proof.
  induction years as [|year years IH]; intros st; cbn [foldl].
  - exists []. by rewrite app_nil_r; split_and!; [| |apply not_elem_of_nil].
  - rewrite fetch_year_flat.
    destruct (lookup_steps_trace srv year
                (sorted_ints (elements (missing_by_year !!! year))) st)
      as (t1 & Ht1 & Hr1 & Hs1).
    destruct (IH (foldl (lookup_step srv year) st
                    (sorted_ints (elements (missing_by_year !!! year)))))
      as (t2 & Ht2 & Hr2 & Hs2).
    exists (t1 ++ t2). rewrite Ht2, Ht1, <- app_assoc, requests_app, Hr1, Hr2.
    split_and!; [done | |rewrite elem_of_app; naive_solver].
    cbn [fmap list_fmap concat]. by rewrite fmap_app, <- list_fmap_compose.
Qed.

Lemma sum_list_zero (l : list nat) (n : nat) :
  sum_list l = 0%nat → n ∈ l → n = 0%nat.
Proof.
  induction l as [|a l IH]; cbn; [by intros _ ?%elem_of_nil |].
  intros Hsum [-> | Hin]%elem_of_cons; [lia | apply IH; [lia | done]].
Qed.

Lemma lookup_plan_none (missing_by_year : gmap string (gset Z)) :
  total_missing missing_by_year = 0%nat → lookup_plan missing_by_year = [].
Proof.
  intros Hzero. unfold lookup_plan.
  assert (∀ year, year ∈ sorted_strs (elements (dom missing_by_year)) →
                  missing_by_year !!! year = (∅ : gset Z)) as Hempty.
  { intros year Hin. unfold sorted_strs in Hin.
    rewrite merge_sort_Permutation in Hin.
    apply elem_of_elements, elem_of_dom in Hin as [ids Hids].
    rewrite lookup_total_alt, Hids. cbn.
    apply leibniz_equiv, size_empty_inv.
    apply (sum_list_zero _ _ Hzero).
    apply list_elem_of_fmap. exists ids. split; [done |].
    apply list_elem_of_fmap. exists (year, ids). split; [done |].
    by apply elem_of_map_to_list. }
  induction (sorted_strs (elements (dom missing_by_year))) as [|year years IH];
    [done |].
  cbn [fmap list_fmap concat]. rewrite Hempty by left.
  rewrite elements_empty. cbn. apply IH. intros y Hy. apply Hempty. by right.
Qed.

(** C9, as amended. Phase 2 enforces no delay: its effects hold no
    [time.sleep], and its requests are exactly the point lookups of the
    missing IDs, one after the other, partitions in sorted order and
    numbers ascending. *)
Theorem phase2_lookups_back_to_back (srv : server)
    (missing_by_year : gmap string (gset Z)) (f : fetcher) :
  ∃ tr,
    trace (phase2_id_based_fetch srv missing_by_year f) = trace f ++ tr ∧
    ESleep ∉ tr ∧
    requests tr = lookup_request <$> lookup_plan missing_by_year.
Proof.
  unfold phase2_id_based_fetch.
  destruct (Nat.eqb_spec (total_missing missing_by_year) 0) as [Hzero|Hsome].
  - exists []. rewrite app_nil_r, lookup_plan_none by done.
    split_and!; [done | apply not_elem_of_nil | done].
  - destruct (fetch_years_trace srv missing_by_year
                (sorted_strs (elements (dom missing_by_year)))
                (emit f [EClock], mkCounters 0 0)) as (tr & Htr & Hreq & Hs).
    destruct (foldl _ _ _) as [f1 c1]. cbn in Htr |- *.
    exists ([EClock] ++ tr ++ [EClock]). rewrite Htr, <- !app_assoc.
    split_and!; [done | set_solver |].
    by rewrite !requests_app, Hreq, app_nil_r.
Qed.

(** C9, as stated, fails: two missing numbers are looked up one right
    after the other, with nothing between the two requests. *)
Lemma phase2_lookups_not_spaced :
  trace (phase2_id_based_fetch forgetful_server two_missing empty_session)
    = [EClock; EGet (ReqId "1-2026"); EGet (ReqId "2-2026"); EClock] ∧
  ¬ lookups_spaced
      (trace (phase2_id_based_fetch forgetful_server two_missing empty_session)).
Proof.
  assert (trace (phase2_id_based_fetch forgetful_server two_missing empty_session)
          = [EClock; EGet (ReqId "1-2026"); EGet (ReqId "2-2026"); EClock])
    as Htr by (by vm_compute).
  split; [done |]. rewrite Htr. intros Hspaced.
  destruct (Hspaced 1%nat 2%nat "1-2026" "2-2026") as (k & Hk & _);
    [lia | done | done | lia].
Qed.

(** ** The finalized list *)

Lemma ascii_compare_refl (a : ascii) : Ascii.compare a a = Eq.
Proof. unfold Ascii.compare. apply N.compare_refl. Qed.

Lemma ascii_compare_lt_trans (a b c : ascii) :
  Ascii.compare a b = Lt → Ascii.compare b c = Lt → Ascii.compare a c = Lt.
Proof. unfold Ascii.compare. rewrite !N.compare_lt_iff. lia. Qed.

Lemma string_compare_refl (s : string) : String.compare s s = Eq.
Proof. induction s as [|a s IH]; cbn; [done |]. by rewrite ascii_compare_refl. Qed.

Lemma string_compare_lt_trans (s t u : string) :
  String.compare s t = Lt → String.compare t u = Lt → String.compare s u = Lt.
Proof.
  revert t u. induction s as [|a s IH]; intros [|b t] [|c u]; cbn; try done.
  destruct (Ascii.compare a b) eqn:Hab, (Ascii.compare b c) eqn:Hbc; try done.
  - apply Ascii.compare_eq_iff in Hab as ->.
    apply Ascii.compare_eq_iff in Hbc as ->.
    rewrite ascii_compare_refl. apply IH.
  - apply Ascii.compare_eq_iff in Hab as ->. by rewrite Hbc.
  - apply Ascii.compare_eq_iff in Hbc as <-. by rewrite Hab.
  - by rewrite (ascii_compare_lt_trans a b c).
Qed.

Lemma string_ltb_asym (s t : string) :
  String.ltb s t = true → String.ltb t s = false.
Proof.
  unfold String.ltb. rewrite (String.compare_antisym t s).
  by destruct (String.compare s t).
Qed.

Lemma string_ltb_negtrans (s t u : string) :
  String.ltb s t = false → String.ltb t u = false → String.ltb s u = false.
Proof.
  unfold String.ltb. intros Hst Htu.
  destruct (String.compare s u) eqn:Hsu; try done.
  destruct (String.compare s t) eqn:Hst'; try done.
  - apply String.compare_eq_iff in Hst' as ->. by rewrite Hsu in Htu.
  - rewrite String.compare_antisym in Hst'.
    destruct (String.compare t s) eqn:Hts; try done.
    by rewrite (string_compare_lt_trans t s u) in Htu.
Qed.

Lemma string_ltb_leb (s t : string) :
  String.ltb s t = false ↔ String.leb t s = true.
Proof.
  unfold String.ltb, String.leb. rewrite (String.compare_antisym t s).
  by destruct (String.compare s t).
Qed.

Lemma string_ltb_empty (t : string) : String.ltb "" t = false → t = "".
Proof. by destruct t. Qed.

Lemma py_lt_Ok (a b : json) (r : bool) :
  py_lt a b = Ok r →
  (∃ s t, a = JStr s ∧ b = JStr t ∧ r = String.ltb s t) ∨
  (∃ m n, as_number a = Some m ∧ as_number b = Some n ∧ r = (m <? n)).
Proof.
  destruct a, b; cbn; intros; simplify_eq; eauto 10.
Qed.

Lemma py_lt_asym (a b : json) :
  py_lt a b = Ok true → py_lt b a = Ok false.
Proof.
  intros [(s & t & -> & -> & Hr) | (m & n & Ha & Hb & Hr)]%py_lt_Ok.
  - cbn. f_equal. by apply string_ltb_asym.
  - destruct a, b; cbn in *; simplify_eq; f_equal; lia.
Qed.

Lemma py_lt_negtrans (a b c : json) :
  py_lt a b = Ok false → py_lt b c = Ok false → py_lt a c = Ok false.
Proof.
  intros [(s & t & -> & -> & Hr) | (m & n & Ha & Hb & Hr)]%py_lt_Ok
         [(t' & u & Ht & -> & Hr') | (n' & p & Hb' & Hc & Hr')]%py_lt_Ok;
    simplify_eq.
  - cbn. f_equal. by apply (string_ltb_negtrans s t' u).
  - destruct a, b, c; cbn in *; simplify_eq; f_equal; lia.
Qed.

Lemma insert_desc_Permutation (x : event) (l r : list event) :
  insert_desc x l = Ok r → r ≡ₚ x :: l.
Proof.
  revert r. induction l as [|y l IH]; intros r; cbn [insert_desc].
  - by intros [= <-].
  - destruct (py_lt (sort_key x) (sort_key y)) as [[]|]; cbn; [| |done].
    + destruct (insert_desc x l) as [r'|]; cbn; [|done].
      intros [= <-]. rewrite (IH r' eq_refl). apply Permutation_swap.
    + by intros [= <-].
Qed.

Lemma insert_desc_sorted (x : event) (l r : list event) :
  StronglySorted not_below l → insert_desc x l = Ok r →
  StronglySorted not_below r.
Proof.
  revert r. induction l as [|y l IH]; intros r Hsorted; cbn [insert_desc].
  - intros [= <-]. repeat constructor.
  - apply StronglySorted_inv in Hsorted as [Hl Hy].
    destruct (py_lt (sort_key x) (sort_key y)) as [[]|] eqn:Hxy; cbn; [| |done].
    + destruct (insert_desc x l) as [r'|] eqn:Hr'; cbn; [|done].
      intros [= <-]. constructor; [by apply IH |].
      rewrite (insert_desc_Permutation _ _ _ Hr'). constructor; [|done].
      by apply py_lt_asym.
    + intros [= <-]. constructor; [by constructor |].
      constructor; [done |]. eapply Forall_impl; [exact Hy |].
      intros z Hz. by apply (py_lt_negtrans _ (sort_key y)).
Qed.

Lemma sort_desc_spec (l out : list event) :
  sort_desc l = Ok out → out ≡ₚ l ∧ StronglySorted not_below out.
Proof.
  revert out. induction l as [|x l IH]; intros out; cbn [sort_desc].
  - intros [= <-]. split; [done | constructor].
  - destruct (sort_desc l) as [sorted|]; cbn; [|done].
    destruct (IH sorted eq_refl) as [Hp Hs]. intros Hins. split.
    + by rewrite (insert_desc_Permutation _ _ _ Hins), Hp.
    + by apply (insert_desc_sorted x sorted).
Qed.

Lemma insert_desc_text (x : event) (l : list event) :
  (∃ s, sort_key x = JStr s) → Forall (λ e, ∃ s, sort_key e = JStr s) l →
  ∃ r, insert_desc x l = Ok r.
Proof.
  intros [s Hx]. induction l as [|y l IH]; intros Hl; cbn [insert_desc];
    [eauto |].
  apply Forall_cons in Hl as [[t Hy] Hl]. rewrite Hx, Hy. cbn.
  destruct (String.ltb s t); [|eauto].
  destruct (IH Hl) as [r ->]. cbn. eauto.
Qed.

Lemma sort_desc_text (l : list event) :
  Forall (λ e, ∃ s, sort_key e = JStr s) l → ∃ out, sort_desc l = Ok out.
Proof.
  induction l as [|x l IH]; intros Hl; cbn [sort_desc]; [eauto |].
  apply Forall_cons in Hl as [Hx Hl]. destruct (IH Hl) as [sorted Hs].
  rewrite Hs. cbn. apply insert_desc_text; [done |].
  destruct (sort_desc_spec _ _ Hs) as [Hp _]. by rewrite Hp.
Qed.

Lemma StronglySorted_lookup_lt {A : Type} (R : relation A) (l : list A)
    (i j : nat) (a b : A) :
  StronglySorted R l → (i < j)%nat → l !! i = Some a → l !! j = Some b → R a b.
Proof.
  intros Hs. revert i j. induction Hs as [|x l Hl IH Hx]; intros i j Hij;
    [done |].
  destruct j as [|j]; [lia |]. destruct i as [|i]; cbn.
  - intros [= <-] Hb. rewrite Forall_forall in Hx.
    by apply Hx, list_elem_of_lookup_2 with j.
  - apply IH. lia.
Qed.

(** C6. A [null] timestamp breaks the finalized list. The claim wants
    the records without a timestamp after all the others. The code gives
    the sort key [""] to a record whose field is absent, but a field that
    is [null] keeps [None] as its key, and [None] cannot be compared with
    the timestamp of a second record: the sort raises [TypeError] before
    the file is opened, so no list is produced and nothing is saved. *)
Lemma save_to_file_null_timestamp :
  (∃ e, e ∈ dict_values (all_events null_dated_session) ∧
        lacks_timestamp e ∧ sort_key e = JNull) ∧
  (length (all_events null_dated_session) = 2)%nat ∧
  save_to_file null_dated_session = Raise TypeError.
Proof.
  split_and!; [| reflexivity | reflexivity].
  eexists. split_and!; [right; left | right; left; reflexivity | reflexivity].
Qed.

(** * Further properties of the fetcher *)

(** ** Pagination without end *)

Lemma fetch_pages_endless (srv : server) (start end_ : date) (fuel : nat) :
  ∀ (page : Z) (events : list event),
    (∀ p, page ≤ p → full_page srv start end_ p = true) →
    fetch_pages fuel srv start end_ page events = None.
Proof.
  induction fuel as [|fuel IH]; intros page events Hfull; [done |].
  rewrite fetch_pages_step. cbv zeta.
  pose proof (Hfull page ltac:(lia)) as Hfirst. unfold full_page in Hfirst.
  destruct (srv (ReqRange start end_ page)) as [body| |]; try done.
  destruct body as [|ev body]; [done |].
  apply Nat.leb_le, Nat.ltb_ge in Hfirst. rewrite Hfirst.
  rewrite IH; [done |]. intros p Hp. apply Hfull. lia.
Qed.

(** X1. [fetch_by_date_range] has no page limit of its own: against a
    registry that answers every page of a window with at least 100
    records, the loop requests page after page and never returns. *)
Theorem pagination_has_no_page_limit (srv : server) (start end_ : date) :
  (∀ p, 1 ≤ p → full_page srv start end_ p = true) →
  ∀ fuel, fetch_by_date_range fuel srv start end_ = None.
Proof. intros Hfull fuel. by apply fetch_pages_endless. Qed.

Lemma pagination_has_no_page_limit_witness :
  fetch_by_date_range 25 endless_server 739252 739258 = None.
Proof.
  apply (pagination_has_no_page_limit endless_server 739252 739258).
  intros p Hp. reflexivity.
Defined.

(** ** The merge loop of Phase 1 *)

Lemma dict_ext (d d' : store) :
  NoDup (dict_keys d) → dict_keys d = dict_keys d' →
  (∀ k, dict_get d k = dict_get d' k) → d = d'.
Proof.
  unfold dict_keys. revert d'.
  induction d as [|[k v] d IH]; intros [|[k' v'] d'] Hnd Hkeys Hget;
    try done.
  rewrite !fmap_cons in Hkeys. cbn [fst] in Hkeys. injection Hkeys as <- Hkeys.
  rewrite fmap_cons in Hnd. cbn [fst] in Hnd.
  apply NoDup_cons in Hnd as [Hk Hnd].
  pose proof (Hget k) as Hv. cbn [dict_get] in Hv.
  rewrite !decide_True in Hv by done. injection Hv as <-.
  f_equal. apply IH; [done | done |].
  intros k0. specialize (Hget k0). cbn [dict_get] in Hget.
  destruct (decide (k = k0)) as [<-|Hne]; [|done].
  transitivity (@None event); [|symmetry].
  - by apply dict_get_None.
  - apply dict_get_None. unfold dict_keys. by rewrite <- Hkeys.
Qed.

Lemma apply_writes_cons (d : store) (k : pykey) (v : event)
    (writes : list (pykey * event)) :
  apply_writes d ((k, v) :: writes) = apply_writes (dict_set d k v) writes.
Proof. done. Qed.

Lemma apply_writes_app (d : store) (ws ws' : list (pykey * event)) :
  apply_writes d (ws ++ ws') = apply_writes (apply_writes d ws) ws'.
Proof. apply foldl_app. Qed.

Lemma apply_writes_keys_elem (writes : list (pykey * event)) :
  ∀ (d : store) (k : pykey),
    k ∈ dict_keys (apply_writes d writes) ↔ k ∈ dict_keys d ∨ k ∈ writes.*1.
Proof.
  induction writes as [|[k' v] writes IH]; intros d k.
  - cbn. rewrite elem_of_nil. naive_solver.
  - rewrite apply_writes_cons, IH, dict_set_keys_elem, fmap_cons, elem_of_cons.
    cbn. naive_solver.
Qed.

Lemma apply_writes_NoDup (writes : list (pykey * event)) :
  ∀ d : store, NoDup (dict_keys d) → NoDup (dict_keys (apply_writes d writes)).
Proof.
  induction writes as [|[k v] writes IH]; intros d Hnd; [done |].
  rewrite apply_writes_cons. by apply IH, dict_set_NoDup.
Qed.

Lemma apply_writes_prefix (writes : list (pykey * event)) :
  ∀ d : store, dict_keys d `prefix_of` dict_keys (apply_writes d writes).
Proof.
  induction writes as [|[k v] writes IH]; intros d; [done |].
  rewrite apply_writes_cons. etrans; [|apply IH].
  rewrite dict_keys_set. case_decide; [done | by apply prefix_app_r].
Qed.

Lemma apply_writes_get (writes : list (pykey * event)) :
  ∀ (d : store) (k : pykey),
    dict_get (apply_writes d writes) k =
      match last_write writes k with
      | Some v => Some v
      | None => dict_get d k
      end.
Proof.
  induction writes as [|[k' v] writes IH]; intros d k; [done |].
  rewrite apply_writes_cons, IH. cbn [last_write].
  destruct (last_write writes k); [done |].
  destruct (decide (k' = k)) as [->|Hne].
  - apply dict_get_set_eq.
  - by apply dict_get_set_ne.
Qed.

Lemma apply_writes_same_keys (writes : list (pykey * event)) :
  ∀ d : store,
    (∀ k, k ∈ writes.*1 → k ∈ dict_keys d) →
    dict_keys (apply_writes d writes) = dict_keys d.
Proof.
  induction writes as [|[k v] writes IH]; intros d Hin; [done |].
  assert (dict_keys (dict_set d k v) = dict_keys d) as Hset.
  { rewrite dict_keys_set, decide_True; [done |]. apply Hin. csimpl. left. }
  rewrite apply_writes_cons, IH, Hset; [done |].
  intros k' Hk'. rewrite Hset. apply Hin. csimpl. by right.
Qed.

Lemma apply_writes_twice (d : store) (writes : list (pykey * event)) :
  NoDup (dict_keys d) →
  apply_writes (apply_writes d writes) writes = apply_writes d writes.
Proof.
  intros Hnd. apply dict_ext.
  - by do 2 apply apply_writes_NoDup.
  - apply apply_writes_same_keys. intros k Hk.
    apply apply_writes_keys_elem. by right.
  - intros k. rewrite !apply_writes_get. by destruct (last_write writes k).
Qed.

Lemma store_events_cons (ev : event) (events : list event) (d : store) :
  store_events (ev :: events) d =
    match phase1_key ev with
    | Some (Some k) => store_events events (dict_set d k ev)
    | Some None => Raise TypeError
    | None => store_events events d
    end.
Proof.
  cbn [store_events]. unfold phase1_key. cbv zeta.
  destruct (truthy _); [|done]. by destruct (hashable _).
Qed.

Lemma phase1_writes_cons (ev : event) (events : list event) :
  phase1_writes (ev :: events) =
    match phase1_key ev with
    | Some (Some k) => (k, ev) :: phase1_writes events
    | _ => phase1_writes events
    end.
Proof.
  unfold phase1_writes. cbn [omap list_omap].
  by destruct (phase1_key ev) as [[k|]|].
Qed.

Lemma store_events_writes (events : list event) :
  ∀ d : store,
    store_events events d =
      if decide (Exists (λ ev, phase1_key ev = Some None) events)
      then Raise TypeError
      else Ok (apply_writes d (phase1_writes events)).
Proof.
  induction events as [|ev events IH]; intros d.
  - rewrite decide_False; [done |]. by intros ?%Exists_nil.
  - rewrite store_events_cons, phase1_writes_cons.
    destruct (phase1_key ev) as [[k|]|] eqn:Hkey.
    + rewrite IH, apply_writes_cons.
      apply decide_ext. rewrite Exists_cons, Hkey. naive_solver.
    + rewrite decide_True; [done |]. by left.
    + rewrite IH. apply decide_ext. rewrite Exists_cons, Hkey. naive_solver.
Qed.

Lemma phase1_writes_keys (events : list event) (k : pykey) :
  k ∈ (phase1_writes events).*1 ↔
  ∃ ev, ev ∈ events ∧ phase1_key ev = Some (Some k).
Proof.
  unfold phase1_writes. rewrite list_elem_of_fmap. split.
  - intros ([k' ev] & -> & Hin). apply list_elem_of_omap in Hin as (ev' & Hin & Hev).
    exists ev'. split; [done |].
    destruct (phase1_key ev') as [[k0|]|]; simplify_eq. done.
  - intros (ev & Hin & Hk). exists (k, ev). split; [done |].
    apply list_elem_of_omap. exists ev. by rewrite Hk.
Qed.

(** X2. The merge loop of Phase 1. It raises, a [TypeError], exactly when
    one of the records carries a non-empty list or object as id.
    Otherwise the keys the store had stay where they were, the keys added
    are exactly the truthy ids of the records (a record whose id is
    missing, null, empty, 0 or false is dropped), and no key is held
    twice. *)
Theorem phase1_merge_outcome (events : list event) (d : store) :
  (store_events events d = Raise TypeError ↔
   ∃ ev, ev ∈ events ∧ phase1_key ev = Some None) ∧
  (∀ e, store_events events d = Raise e → e = TypeError) ∧
  (∀ d',
     store_events events d = Ok d' →
     dict_keys d `prefix_of` dict_keys d' ∧
     (∀ k, k ∈ dict_keys d' ↔
           k ∈ dict_keys d ∨
           ∃ ev, ev ∈ events ∧ phase1_key ev = Some (Some k)) ∧
     (NoDup (dict_keys d) → NoDup (dict_keys d'))).
Proof.
  rewrite store_events_writes. split_and!.
  - rewrite <- Exists_exists. by case_decide.
  - intros e. by case_decide; intros [= <-].
  - intros d'. case_decide; [done |]. intros [= <-]. split_and!.
    + apply apply_writes_prefix.
    + intros k. by rewrite apply_writes_keys_elem, phase1_writes_keys.
    + apply apply_writes_NoDup.
Qed.

Lemma store_events_twice (events : list event) (d d' : store) :
  NoDup (dict_keys d) →
  store_events events d = Ok d' →
  store_events events d' = Ok d'.
Proof.
  intros Hnd. rewrite !store_events_writes. case_decide; [done |].
  intros [= <-]. by rewrite apply_writes_twice.
Qed.

Lemma store_events_app (a b : list event) (d : store) :
  store_events (a ++ b) d = store_events a d ≫= store_events b.
Proof.
  revert d. induction a as [|ev a IH]; intros d; [done |].
  rewrite <- app_comm_cons, !store_events_cons.
  by destruct (phase1_key ev) as [[k|]|].
Qed.

(** ** Phase 1 as a whole *)

Lemma fetcher_steps (f : fetcher) (tr tr' : list effect) (d d' : store) :
  set_events (emit (set_events (emit f tr) d) tr') d'
    = set_events (emit f (tr ++ tr')) d'.
Proof. unfold set_events, emit. cbn. by rewrite app_assoc. Qed.

Lemma fetch_windows_sweep_Ok (fuel : nat) (srv : server)
    (windows : list (date * date)) :
  ∀ (f f' : fetcher),
    fetch_windows fuel srv windows f = Some (Ok f') →
    ∃ events tr,
      sweep fuel srv windows = Some (events, tr) ∧
      store_events events (all_events f) = Ok (all_events f') ∧
      f' = set_events (emit f tr) (all_events f').
Proof.
  induction windows as [|[start end_] rest IH]; intros f f'.
  - cbn. intros [= <-]. exists [], []. split_and!; [done | done |].
    destruct f. unfold set_events, emit. cbn. by rewrite app_nil_r.
  - cbn [fetch_windows sweep].
    destruct (fetch_by_date_range fuel srv start end_) as [[evs tr]|]; [|done].
    cbn. destruct (store_events evs (all_events f)) as [d|e] eqn:Hd; [|done].
    intros (evs' & tr' & Hsweep & Hstore & Hf')%IH. rewrite Hsweep. cbn.
    exists (evs ++ evs'), (tr ++ tr'). split_and!; [done | |].
    + rewrite store_events_app, Hd. done.
    + rewrite Hf' at 1. apply fetcher_steps.
Qed.

Lemma fetch_windows_sweep (fuel : nat) (srv : server)
    (windows : list (date * date)) :
  ∀ (f : fetcher) (events : list event) (tr : list effect) (d' : store),
    sweep fuel srv windows = Some (events, tr) →
    store_events events (all_events f) = Ok d' →
    fetch_windows fuel srv windows f = Some (Ok (set_events (emit f tr) d')).
Proof.
  induction windows as [|[start end_] rest IH]; intros f events tr d'.
  - cbn. intros [= <- <-] [= <-]. do 2 f_equal.
    destruct f. unfold set_events, emit. cbn. by rewrite app_nil_r.
  - cbn [fetch_windows sweep].
    destruct (fetch_by_date_range fuel srv start end_) as [[evs tr1]|]; [|done].
    cbn. destruct (sweep fuel srv rest) as [[evs' tr2]|] eqn:Hrest; [|done].
    cbn. intros [= <- <-]. rewrite store_events_app.
    destruct (store_events evs (all_events f)) as [d|e]; [|done]. cbn.
    intros Hd'.
    rewrite (IH (set_events (emit f tr1) d) evs' tr2 d' eq_refl Hd').
    do 2 f_equal. apply fetcher_steps.
Qed.

Lemma fetch_windows_raises (fuel : nat) (srv : server)
    (windows : list (date * date)) :
  ∀ (f : fetcher) (e : exn),
    fetch_windows fuel srv windows f = Some (Raise e) →
    e = TypeError ∧
    ∃ w events tr ev,
      w ∈ windows ∧
      fetch_by_date_range fuel srv w.1 w.2 = Some (events, tr) ∧
      ev ∈ events ∧ phase1_key ev = Some None.
Proof.
  induction windows as [|[start end_] rest IH]; intros f e; [done |].
  cbn [fetch_windows].
  destruct (fetch_by_date_range fuel srv start end_) as [[evs tr]|] eqn:Hf;
    [|done].
  cbn. destruct (store_events evs (all_events f)) as [d|e'] eqn:Hd.
  - intros (-> & w & evs' & tr' & ev & Hw & Hrest)%IH. split; [done |].
    exists w, evs', tr', ev. split; [by right | done].
  - intros [= <-]. rewrite store_events_writes in Hd.
    case_decide as Hex; [|done]. injection Hd as <-. split; [done |].
    apply Exists_exists in Hex as (ev & Hev & Hkey).
    exists (start, end_), evs, tr, ev. split_and!; [left | done..].
Qed.

Lemma windows_loop_raises (fuel : nat) :
  ∀ (current end_ : date) (acc : list (date * date)) (e : exn),
    windows_loop fuel current end_ acc = Some (Raise e) → e = OverflowError.
Proof.
  induction fuel as [|fuel IH]; intros current end_ acc e; cbn [windows_loop].
  - by destruct (current <=? end_).
  - destruct (current <=? end_); [|done].
    unfold date_add. cbv zeta.
    destruct (_ && _); [|by intros [= <-]].
    destruct (_ && _); [|by intros [= <-]]. apply IH.
Qed.

(** X3. Phase 1 is idempotent. Running it again on the session it left,
    against the same registry, ends with the very same store and the same
    statistics. *)
Theorem phase1_idempotent (fuel : nat) (srv : server) (f f1 : fetcher) :
  NoDup (dict_keys (all_events f)) →
  phase1_date_based_fetch fuel srv f = Some (Ok f1) →
  ∃ f2,
    phase1_date_based_fetch fuel srv f1 = Some (Ok f2) ∧
    all_events f2 = all_events f1 ∧
    session_stats f2 = session_stats f1.
Proof.
  intros Hnd. unfold phase1_date_based_fetch.
  destruct (plan_windows (start_date f) (end_date f)) as [[ws|e]|] eqn:Hplan;
    cbn; [|done..].
  destruct (fetch_windows fuel srv ws (emit f [EClock])) as [[f'|e]|] eqn:Hw;
    cbn; [|done..].
  intros [= <-]. cbn [start_date end_date set_stats emit].
  apply fetch_windows_sweep_Ok in Hw as (evs & tr & Hsweep & Hstore & Hf').
  assert (start_date f' = start_date f ∧ end_date f' = end_date f) as [-> ->].
  { by rewrite Hf'. }
  rewrite Hplan. cbn.
  cbn in Hstore. apply (store_events_twice _ _ _ Hnd) in Hstore.
  erewrite (fetch_windows_sweep fuel srv ws _ evs tr (all_events f'));
    [| done | done].
  cbn. eexists. split; [done |]. by destruct f'.
Qed.

(** X4. What can make Phase 1 raise. The registry is one whose successful
    answers are arrays of records, the [List[Dict[str, Any]]] that
    [fetch_by_date_range] declares; nothing is said of a success body of
    another shape. Against such a registry no failed request (an error
    status, a transport error, a body that cannot be decoded) makes
    Phase 1 raise: an exception leaves Phase 1 only as the
    [OverflowError] of planning the windows, or as the [TypeError] of a
    fetched record whose truthy id is unhashable. *)
Theorem phase1_exceptions (fuel : nat) (srv : server) (f : fetcher) (e : exn) :
  phase1_date_based_fetch fuel srv f = Some (Raise e) →
  (e = OverflowError ∧
   plan_windows (start_date f) (end_date f) = Some (Raise OverflowError)) ∨
  (e = TypeError ∧
   ∃ windows w events tr ev,
     plan_windows (start_date f) (end_date f) = Some (Ok windows) ∧
     w ∈ windows ∧
     fetch_by_date_range fuel srv w.1 w.2 = Some (events, tr) ∧
     ev ∈ events ∧ phase1_key ev = Some None).
Proof.
  unfold phase1_date_based_fetch.
  destruct (plan_windows (start_date f) (end_date f)) as [[ws|e']|] eqn:Hplan;
    cbn; [| |done].
  - destruct (fetch_windows fuel srv ws (emit f [EClock])) as [[f'|e']|] eqn:Hw;
      cbn; [done | |done].
    intros [= <-]. right.
    apply fetch_windows_raises in Hw as (-> & w & evs & tr & ev & Hrest).
    split; [done |]. by exists ws, w, evs, tr, ev.
  - intros [= <-]. left. apply windows_loop_raises in Hplan as Hov.
    by subst.
Qed.

Lemma phase1_idempotent_witness :
  ∃ f1 f2,
    phase1_date_based_fetch 3 (paged_server [100; 37]%nat) empty_session
      = Some (Ok f1) ∧
    phase1_date_based_fetch 3 (paged_server [100; 37]%nat) f1 = Some (Ok f2) ∧
    all_events f2 = all_events f1 ∧
    all_events f1 = [(KStr "1-2026", sample_record "1-2026")].
Proof.
  assert (∃ f1, phase1_date_based_fetch 3 (paged_server [100; 37]%nat)
                  empty_session = Some (Ok f1) ∧
                all_events f1 = [(KStr "1-2026", sample_record "1-2026")])
    as (f1 & Hf1 & Hstore) by (eexists; split; vm_compute; reflexivity).
  destruct (phase1_idempotent 3 (paged_server [100; 37]%nat) empty_session f1)
    as (f2 & Hf2 & Hsame & _); [apply NoDup_nil_2 | exact Hf1 |].
  by exists f1, f2.
Defined.

Lemma phase1_exceptions_witness :
  phase1_date_based_fetch 3 list_id_server empty_session
    = Some (Raise TypeError) ∧
  ∃ windows w events tr ev,
    plan_windows (start_date empty_session) (end_date empty_session)
      = Some (Ok windows) ∧
    w ∈ windows ∧
    fetch_by_date_range 3 list_id_server w.1 w.2 = Some (events, tr) ∧
    ev ∈ events ∧ phase1_key ev = Some None.
Proof.
  assert (phase1_date_based_fetch 3 list_id_server empty_session
            = Some (Raise TypeError)) as Hrun by (by vm_compute).
  split; [done |].
  destruct (phase1_exceptions 3 list_id_server empty_session TypeError Hrun)
    as [[Hno _] | [_ Hyes]]; [discriminate | exact Hyes].
Defined.

Lemma sweep_down (fuel : nat) (srv : server) (windows : list (date * date)) :
  (∀ w, w ∈ windows → failed srv (ReqRange w.1 w.2 1) = true) →
  fuel ≠ 0%nat →
  sweep fuel srv windows =
    Some ([], concat ((λ w, [EGet (ReqRange w.1 w.2 1);
                             EWarn (ReqRange w.1 w.2 1)]) <$> windows)).
Proof.
  intros Hdown Hfuel. destruct fuel as [|fuel]; [done |].
  induction windows as [|[start end_] rest IH]; [done |].
  cbn [sweep]. unfold fetch_by_date_range. rewrite fetch_pages_step. cbv zeta.
  pose proof (Hdown (start, end_) ltac:(left)) as Hfirst.
  unfold failed in Hfirst. cbn [fst snd] in Hfirst.
  rewrite IH by (intros w Hw; apply Hdown; by right).
  by destruct (srv (ReqRange start end_ 1)).
Qed.

(** X5. A registry that is down does not stop Phase 1. When the first
    request of every planned window fails, Phase 1 completes: it has asked
    once for page 1 of each window, in the order of the plan, has left the
    store as it was, and reports the store's size as its count. *)
Theorem phase1_registry_down (fuel : nat) (srv : server) (f : fetcher)
    (windows : list (date * date)) :
  plan_windows (start_date f) (end_date f) = Some (Ok windows) →
  (∀ w, w ∈ windows → failed srv (ReqRange w.1 w.2 1) = true) →
  fuel ≠ 0%nat →
  ∃ f',
    phase1_date_based_fetch fuel srv f = Some (Ok f') ∧
    all_events f' = all_events f ∧
    requests (trace f')
      = requests (trace f) ++ ((λ w, ReqRange w.1 w.2 1) <$> windows) ∧
    date_fetch_count (session_stats f') = length (all_events f).
Proof.
  intros Hplan Hdown Hfuel. unfold phase1_date_based_fetch.
  rewrite Hplan. cbn.
  erewrite (fetch_windows_sweep fuel srv windows (emit f [EClock]) []);
    [| by apply sweep_down | done].
  cbn. eexists. split; [done |]. cbn. split_and!; [done | | done].
  assert (requests (concat ((λ w, [EGet (ReqRange w.1 w.2 1);
                                      EWarn (ReqRange w.1 w.2 1)]) <$> windows))
          = (λ w, ReqRange w.1 w.2 1) <$> windows) as Hreq.
  { clear Hplan Hdown. induction windows as [|w ws IH]; [done |].
    rewrite !fmap_cons. cbn [concat]. by rewrite requests_app, IH. }
  rewrite !requests_app, Hreq. cbn. by rewrite !app_nil_r.
Qed.

Lemma phase1_registry_down_witness :
  ∃ f',
    phase1_date_based_fetch 1 dead_server empty_session = Some (Ok f') ∧
    all_events f' = [] ∧
    requests (trace f')
      = [ReqRange 739252 739258 1; ReqRange 739259 739265 1;
         ReqRange 739266 739267 1].
Proof.
  destruct (phase1_registry_down 1 dead_server empty_session
              [(739252, 739258); (739259, 739265); (739266, 739267)])
    as (f' & Hrun & Hstore & Hreq & _); [reflexivity | done | done |].
  by exists f'.
Defined.

(** ** Composite IDs: formatting and reading back *)

Lemma digit_of_pretty_N_char (d : N) :
  (d < 10)%N → digit_of (pretty_N_char d) = Some (Z.of_N d).
Proof.
  intros Hd.
  assert (d = 0 ∨ d = 1 ∨ d = 2 ∨ d = 3 ∨ d = 4 ∨ d = 5 ∨ d = 6 ∨ d = 7
          ∨ d = 8 ∨ d = 9)%N as Hcases by lia.
  repeat (destruct Hcases as [-> | Hcases]; [reflexivity |]).
  by subst.
Qed.

Lemma digit_not_space (c : ascii) : is_Some (digit_of c) → is_space c = false.
Proof.
  unfold digit_of, is_space. cbv zeta. intros [v Hv].
  destruct ((48 <=? Z.of_N (N_of_ascii c)) && (Z.of_N (N_of_ascii c) <=? 57))
    eqn:Hd; [|done].
  apply andb_true_iff in Hd as [Hlo%Z.leb_le Hhi%Z.leb_le].
  apply orb_false_iff. split; [apply andb_false_iff | apply Z.eqb_neq; lia].
  right. apply Z.leb_gt. lia.
Qed.

Lemma digit_not_char (c c' : ascii) :
  is_Some (digit_of c) → digit_of c' = None → Ascii.eqb c c' = false.
Proof.
  intros [v Hv] Hc'. apply Ascii.eqb_neq. intros ->. congruence.
Qed.

Lemma pretty_N_go_value (x : N) :
  ∀ (s : string) (acc : Z),
    ∃ k, 0 ≤ k ∧
      digits_value (String.list_ascii_of_string (pretty_N_go x s)) acc
        = digits_value (String.list_ascii_of_string s)
                       (acc * 10 ^ k + Z.of_N x).
Proof.
  induction (N.lt_wf_0 x) as [x _ IH]; intros s acc.
  destruct (decide (x = 0)%N) as [->|Hx].
  - exists 0. split; [done |]. rewrite pretty_N_go_0. f_equal. lia.
  - rewrite pretty_N_go_step by lia.
    destruct (IH (x `div` 10)%N ltac:(apply N.div_lt; lia)
                 (String (pretty_N_char (x `mod` 10)) s) acc)
      as (k & Hk & ->).
    exists (k + 1). split; [lia |]. cbn [String.list_ascii_of_string digits_value].
    rewrite digit_of_pretty_N_char by (apply N.mod_lt; lia).
    f_equal. rewrite Z.pow_add_r by lia.
    pose proof (N.div_mod x 10 ltac:(lia)) as Hdm.
    apply (f_equal Z.of_N) in Hdm. rewrite N2Z.inj_add, N2Z.inj_mul in Hdm.
    change (Z.of_N 10) with 10 in Hdm. lia.
Qed.

Lemma pretty_N_go_all_digits (x : N) :
  ∀ s : string,
    all_digits (String.list_ascii_of_string s) →
    all_digits (String.list_ascii_of_string (pretty_N_go x s)).
Proof.
  induction (N.lt_wf_0 x) as [x _ IH]; intros s Hs.
  destruct (decide (x = 0)%N) as [->|Hx]; [by rewrite pretty_N_go_0 |].
  rewrite pretty_N_go_step by lia. apply IH; [apply N.div_lt; lia |].
  cbn [String.list_ascii_of_string]. constructor; [|done].
  rewrite digit_of_pretty_N_char by (apply N.mod_lt; lia). done.
Qed.

Lemma int_digits_all_digits (cs : list ascii) :
  all_digits cs →
  ∀ (acc : Z) (after_digit : bool),
    cs ≠ [] ∨ after_digit = true →
    int_digits cs acc after_digit = digits_value cs acc.
Proof.
  induction 1 as [|c cs Hc Hcs IH]; intros acc b Hne.
  - by destruct Hne as [? | ->].
  - cbn [int_digits digits_value].
    rewrite (digit_not_char c "_") by done.
    destruct (digit_of c) as [v|]; [|by destruct Hc]. apply IH. by right.
Qed.

Lemma lstrip_digits (cs : list ascii) : all_digits cs → lstrip cs = cs.
Proof.
  intros [|c cs' Hc _]; [done |]. cbn [lstrip]. by rewrite digit_not_space.
Qed.

Lemma strip_digits (cs : list ascii) : all_digits cs → strip cs = cs.
Proof.
  intros Hcs. unfold strip. rewrite (lstrip_digits cs Hcs).
  rewrite lstrip_digits by (by apply Forall_reverse).
  apply reverse_involutive.
Qed.

Lemma int_ascii_pretty (n : Z) : 0 ≤ n → int_ascii (pretty n) = Some n.
Proof.
  intros Hn. destruct n as [|p|p]; [done | | lia].
  change (pretty (Z.pos p)) with (pretty_N_go (N.pos p) "").
  pose proof (pretty_N_go_all_digits (N.pos p) "" ltac:(constructor)) as Hd.
  destruct (pretty_N_go_value (N.pos p) "" 0) as (k & Hk & Hv).
  cbn [String.list_ascii_of_string digits_value] in Hv.
  unfold int_ascii. rewrite strip_digits by done.
  destruct (String.list_ascii_of_string (pretty_N_go (N.pos p) ""))
    as [|c cs] eqn:Hcs; [by cbn in Hv |].
  pose proof (Forall_inv Hd) as Hc.
  rewrite (digit_not_char c "+"), (digit_not_char c "-") by done.
  rewrite int_digits_all_digits by (done || by left).
  rewrite Hv. f_equal; lia.
Qed.

Lemma has_dash_app (a b : string) :
  has_dash (a +:+ b) = has_dash a || has_dash b.
Proof.
  induction a as [|c a IH]; [done |].
  change (String c a +:+ b) with (String c (a +:+ b)).
  cbn [has_dash]. by rewrite IH, orb_assoc.
Qed.

Lemma all_digits_no_dash (s : string) :
  all_digits (String.list_ascii_of_string s) → has_dash s = false.
Proof.
  induction s as [|c s IH]; [done |]. cbn. intros [Hc Hs]%Forall_cons.
  unfold is_dash. by rewrite (digit_not_char c "-"), IH.
Qed.

Lemma split_dash_nonempty (s : string) : split_dash s ≠ [].
Proof.
  induction s as [|c s IH]; [done |]. cbn.
  destruct (is_dash c); [done |]. by destruct (split_dash s).
Qed.

Lemma split_dash_whole (s : string) : has_dash s = false → split_dash s = [s].
Proof.
  induction s as [|c s IH]; [done |]. cbn.
  destruct (is_dash c); [done |]. intros Hs. by rewrite IH.
Qed.

Lemma split_dash_at_dash (a b : string) :
  has_dash a = false →
  split_dash (a +:+ String "-" b) = a :: split_dash b.
Proof.
  induction a as [|c a IH]; [done |].
  change (String c a +:+ String "-" b) with (String c (a +:+ String "-" b)).
  cbn [has_dash split_dash].
  destruct (is_dash c); [done |]. intros Ha. by rewrite IH.
Qed.

Lemma split_dash_two_parts (s : string) :
  has_dash s = true → ∃ part0 part1 rest, split_dash s = part0 :: part1 :: rest.
Proof.
  induction s as [|c s IH]; [done |]. cbn. destruct (is_dash c); cbn.
  - intros _. pose proof (split_dash_nonempty s).
    destruct (split_dash s) as [|p ps] eqn:Hs; [done |]. eauto.
  - intros (p0 & p1 & ps & ->)%IH. eauto.
Qed.

(** X6. A composite ID reads back as it was written. The string
    [f"{id_num}-{year}"] that [fetch_by_id] asks the registry for is read
    by the gap analysis as the number [id_num] in the partition named by
    [year] up to its first ["-"], hence in [year] itself when [year] holds
    no ["-"]. *)
Theorem composite_id_round_trip (id_num : Z) (year : string) :
  0 ≤ id_num →
  key_id int_ascii (KStr (format_id id_num year))
    = Some (first_segment year, id_num) ∧
  (has_dash year = false →
   key_id int_ascii (KStr (format_id id_num year)) = Some (year, id_num)).
Proof.
  intros Hn.
  assert (has_dash (pretty id_num) = false) as Hdigits.
  { destruct id_num as [|p|p]; [done | | lia].
    apply all_digits_no_dash.
    apply (pretty_N_go_all_digits (N.pos p) ""). constructor. }
  assert (key_id int_ascii (KStr (format_id id_num year))
          = Some (first_segment year, id_num)) as Hkey.
  { unfold key_id, format_id, first_segment.
    rewrite has_dash_app, Hdigits. cbn [orb has_dash is_dash Ascii.eqb].
    change ("-" +:+ year) with (String "-" year).
    rewrite split_dash_at_dash by done. cbn.
    pose proof (split_dash_nonempty year).
    destruct (split_dash year) as [|y ys]; [done |].
    by rewrite int_ascii_pretty. }
  split; [done |]. intros Hyear. rewrite Hkey.
  unfold first_segment. by rewrite split_dash_whole.
Qed.

Lemma composite_id_round_trip_witness :
  key_id int_ascii (KStr (format_id 1207 "2026")) = Some ("2026", 1207).
Proof.
  apply (composite_id_round_trip 1207 "2026"); [lia | reflexivity].
Defined.

(** ** The gap analysis: exceptions and what it depends on *)

Section analysis_more.
Variable py_int : string → option Z.

Lemma observe_key_raise (acc : gmap string (gset Z)) (k : pykey) (e : exn) :
  observe_key py_int acc k = Raise e ↔
  (e = TypeError ∧ ∀ s, k ≠ KStr s) ∨
  (e = ValueError ∧
   ∃ s, k = KStr s ∧ has_dash s = true ∧ py_int (first_segment s) = None).
Proof.
  unfold observe_key, first_segment. destruct k as [| |s].
  - split; [intros [= <-]; by left | intros [[-> _] | (_ & s & ? & _)]; done].
  - split; [intros [= <-]; by left | intros [[-> _] | (_ & s & ? & _)]; done].
  - destruct (has_dash s) eqn:Hdash.
    + destruct (split_dash_two_parts s Hdash) as (p0 & p1 & ps & Hsplit).
      rewrite Hsplit. cbn.
      destruct (py_int p0) as [n|] eqn:Hp0.
      * split; [done |]. intros [[_ Hk] | (_ & s' & [= <-] & _ & Hn)].
        -- by destruct (Hk s).
        -- rewrite Hsplit in Hn. cbn in Hn. congruence.
      * split.
        -- intros [= <-]. right. split; [done |]. exists s.
           by rewrite Hsplit.
        -- intros [[_ Hk] | (-> & _)]; [by destruct (Hk s) | done].
    + split; [done |]. intros [[_ Hk] | (_ & s' & [= <-] & Hd & _)].
      * by destruct (Hk s).
      * congruence.
Qed.

Lemma group_ids_raise (keys : list pykey) :
  ∀ (acc : gmap string (gset Z)) (e : exn),
    group_ids py_int keys acc = Raise e ↔
    ∃ good k rest,
      keys = good ++ k :: rest ∧ Forall (key_readable py_int) good ∧
      ((e = TypeError ∧ ∀ s, k ≠ KStr s) ∨
       (e = ValueError ∧
        ∃ s, k = KStr s ∧ has_dash s = true ∧
             py_int (first_segment s) = None)).
Proof.
  induction keys as [|k keys IH]; intros acc e; cbn [group_ids].
  - split; [done |]. intros (good & k & rest & Hkeys & _).
    by destruct good.
  - destruct (observe_key py_int acc k) as [acc'|e'] eqn:Hk; cbn.
    + assert (key_readable py_int k) as Hread
        by (apply (observe_key_readable py_int acc); eauto).
      rewrite IH. split.
      * intros (good & k' & rest & -> & Hgood & Hbad).
        exists (k :: good), k', rest. split_and!; [done | by constructor | done].
      * intros (good & k' & rest & Hkeys & Hgood & Hbad).
        destruct good as [|k0 good]; simplify_eq/=.
        -- apply (observe_key_raise acc) in Hbad. congruence.
        -- apply Forall_cons in Hgood as [_ Hgood]. by exists good, k', rest.
    + split.
      * intros [= <-]. exists [], k, keys. split_and!; [done | constructor |].
        by apply (observe_key_raise acc).
      * intros (good & k' & rest & Hkeys & Hgood & Hbad).
        destruct good as [|k0 good]; simplify_eq/=.
        -- apply (observe_key_raise acc) in Hbad. congruence.
        -- apply Forall_cons in Hgood as [Hk0 _].
           apply (observe_key_readable py_int acc) in Hk0 as [? ?]. congruence.
Qed.

(** X7. The exceptions of the gap analysis. It raises exactly when some
    key of the store cannot be read, and the exception is that of the
    first such key: [TypeError] for a key that is not a string, and
    [ValueError] for a string with a ["-"] whose part before the first
    ["-"] is no integer. It never raises [IndexError]: a string with a
    ["-"] always splits into two parts. *)
Theorem analysis_exceptions (d : store) (e : exn) :
  analyze_missing_ids py_int d = Raise e ↔
  ∃ good k rest,
    dict_keys d = good ++ k :: rest ∧ Forall (key_readable py_int) good ∧
    ((e = TypeError ∧ ∀ s, k ≠ KStr s) ∨
     (e = ValueError ∧
      ∃ s, k = KStr s ∧ has_dash s = true ∧ py_int (first_segment s) = None)).
Proof.
  rewrite <- (group_ids_raise (dict_keys d) ∅). unfold analyze_missing_ids.
  by destruct (group_ids py_int (dict_keys d) ∅).
Qed.

Lemma observed_ids_elem (d : store) (year : string) (n : Z) :
  n ∈ observed_ids py_int d year ↔
  ∃ k, k ∈ dict_keys d ∧ key_id py_int k = Some (year, n).
Proof.
  unfold observed_ids. rewrite elem_of_list_to_set, list_elem_of_omap.
  unfold key_in_year. split.
  - intros (k & Hk & Hy). exists k. split; [done |].
    destruct (key_id py_int k) as [[y n']|]; [|done]. cbn in Hy.
    case_decide; by simplify_eq.
  - intros (k & Hk & Hid). exists k. split; [done |]. rewrite Hid. cbn.
    by rewrite decide_True.
Qed.

Lemma analyze_same_observed (d d' : store) (m : gmap string (gset Z)) :
  analyze_missing_ids py_int d = Ok m →
  Forall (key_readable py_int) (dict_keys d') →
  (∀ year, observed_ids py_int d' year = observed_ids py_int d year) →
  analyze_missing_ids py_int d' = Ok m.
Proof.
  intros Hm Hread Hobs.
  apply analyze_returns in Hread as [m' Hm']. rewrite Hm'. f_equal.
  apply map_eq. intros year.
  rewrite (analyze_lookup py_int d' m' year Hm').
  rewrite (analyze_lookup py_int d m year Hm). by rewrite Hobs.
Qed.

(** X8. The gap analysis depends on the store only through the numbers
    observed per partition. Two stores with readable keys and the same
    observed numbers get the same result; in particular the result does
    not depend on the order of the keys. *)
Theorem analysis_depends_on_observed (d d' : store) (m : gmap string (gset Z)) :
  analyze_missing_ids py_int d = Ok m →
  (Forall (key_readable py_int) (dict_keys d') →
   (∀ year, observed_ids py_int d' year = observed_ids py_int d year) →
   analyze_missing_ids py_int d' = Ok m) ∧
  (dict_keys d' ≡ₚ dict_keys d → analyze_missing_ids py_int d' = Ok m).
Proof.
  intros Hm. split; [by apply analyze_same_observed |].
  intros Hperm. apply (analyze_same_observed d); [done | |].
  - rewrite Hperm. apply analyze_returns. eauto.
  - intros year. apply set_eq. intros n. rewrite !observed_ids_elem.
    by setoid_rewrite Hperm.
Qed.

End analysis_more.

Lemma analysis_exceptions_witness :
  analyze_missing_ids int_ascii
    [(KStr "1-2026", sample_record "1-2026"); (KNum 7, []);
     (KStr "x-2026", [])]
    = Raise TypeError.
Proof.
  apply (analysis_exceptions int_ascii).
  exists [KStr "1-2026"], (KNum 7), [KStr "x-2026"].
  split; [reflexivity |]. split.
  - apply Forall_cons_2; [|apply Forall_nil_2].
    intros _. by eexists.
  - left. split; [reflexivity | discriminate].
Defined.

Lemma analysis_depends_on_observed_witness :
  ∃ m,
    analyze_missing_ids int_ascii gap_store = Ok m ∧
    analyze_missing_ids int_ascii (reverse gap_store) = Ok m.
Proof.
  destruct (analyze_missing_ids int_ascii gap_store) as [m|] eqn:Hm;
    [|by vm_compute in Hm].
  exists m. split; [done |].
  apply (analysis_depends_on_observed int_ascii gap_store); [done |].
  unfold dict_keys. by rewrite fmap_reverse, reverse_Permutation.
Defined.

(** ** The state after Phase 2 *)

Lemma ran_lookups_nil (srv : server) (st : fetcher * counters) :
  ran_lookups srv [] st st.
Proof. unfold ran_lookups. cbn. split_and!; (done || lia). Qed.

Lemma ran_lookups_app (srv : server) (plan plan' : list (string * Z))
    (st st' st'' : fetcher * counters) :
  ran_lookups srv plan st st' → ran_lookups srv plan' st' st'' →
  ran_lookups srv (plan ++ plan') st st''.
Proof.
  unfold ran_lookups. cbv zeta.
  intros (Hd & Hf & Hn & Hs & Ha & Hb) (Hd' & Hf' & Hn' & Hs' & Ha' & Hb').
  rewrite omap_app, apply_writes_app, !length_app.
  split_and!; try congruence; lia.
Qed.

Lemma lookup_write_eq (srv : server) (year : string) (id_num : Z) :
  lookup_write srv (year, id_num) =
    match (fetch_by_id srv id_num year).1 with
    | Some event =>
        if event_truthy event then
          k ← hashable (ev_get event "service_request_id"); Some (k, event)
        else None
    | None => None
    end.
Proof. reflexivity. Qed.

Lemma lookup_step_ran (srv : server) (year : string) (st : fetcher * counters)
    (id_num : Z) :
  ran_lookups srv [(year, id_num)] st (lookup_step srv year st id_num).
Proof.
  destruct st as [f c].
  unfold ran_lookups. cbv zeta.
  change (omap (lookup_write srv) [(year, id_num)])
    with (option_list (lookup_write srv (year, id_num))).
  rewrite lookup_write_eq. unfold lookup_step. cbn [fst snd].
  destruct (fetch_by_id srv id_num year) as [[ev|] tr]; cbn [fst snd].
  - destruct (event_truthy ev).
    + destruct (hashable (ev_get ev "service_request_id")) as [k|]; cbn;
        split_and!; (done || lia).
    + cbn. split_and!; (done || lia).
  - cbn. split_and!; (done || lia).
Qed.

Lemma lookup_steps_ran (srv : server) (year : string) (ids : list Z) :
  ∀ st : fetcher * counters,
    ran_lookups srv ((λ id_num, (year, id_num)) <$> ids) st
                (foldl (lookup_step srv year) st ids).
Proof.
  induction ids as [|id_num ids IH]; intros st; cbn [foldl fmap list_fmap].
  - apply ran_lookups_nil.
  - apply (ran_lookups_app srv [(year, id_num)] _ st
             (lookup_step srv year st id_num)); [apply lookup_step_ran | apply IH].
Qed.

Lemma fetch_years_ran (srv : server) (missing_by_year : gmap string (gset Z))
    (years : list string) :
  ∀ st : fetcher * counters,
    ran_lookups srv
      (concat ((λ year, (λ id_num, (year, id_num))
                  <$> sorted_ints (elements (missing_by_year !!! year)))
               <$> years))
      st (foldl (fetch_year srv missing_by_year) st years).
Proof.
  induction years as [|year years IH]; intros st;
    cbn [foldl fmap list_fmap concat].
  - apply ran_lookups_nil.
  - eapply ran_lookups_app; [|apply IH].
    rewrite fetch_year_flat. apply lookup_steps_ran.
Qed.

Lemma phase2_ran (srv : server) (missing_by_year : gmap string (gset Z))
    (f : fetcher) :
  total_missing missing_by_year ≠ 0%nat →
  let writes := omap (lookup_write srv) (lookup_plan missing_by_year) in
  let c := phase2_counters srv missing_by_year f in
  let f' := phase2_id_based_fetch srv missing_by_year f in
  all_events f' = apply_writes (all_events f) writes ∧
  session_stats f' =
    mkStats (date_fetch_count (session_stats f)) (length writes)
            (total_events (session_stats f)) ∧
  fetched_count c = length writes ∧
  (not_found_count c + length writes = length (lookup_plan missing_by_year))%nat ∧
  start_date f' = start_date f ∧ end_date f' = end_date f.
Proof.
  intros Hsome. cbv zeta. unfold phase2_id_based_fetch, phase2_counters.
  destruct (Nat.eqb_spec (total_missing missing_by_year) 0) as [|_]; [done |].
  pose proof (fetch_years_ran srv missing_by_year
                (sorted_strs (elements (dom missing_by_year)))
                (emit f [EClock], mkCounters 0 0)) as Hran.
  fold (lookup_plan missing_by_year) in Hran.
  destruct (foldl _ _ _) as [f1 c1].
  destruct Hran as (Hd & Hf & Hn & Hs & Ha & Hb). cbn in *.
  rewrite Hs, Hf. split_and!; (done || lia).
Qed.

(** ** The lookups of Phase 2 *)

Lemma sorted_ints_Permutation (l : list Z) : sorted_ints l ≡ₚ l.
Proof. apply merge_sort_Permutation. Qed.

Lemma sorted_strs_Permutation (l : list string) : sorted_strs l ≡ₚ l.
Proof. apply merge_sort_Permutation. Qed.

Lemma elem_of_concat {A} (x : A) (ls : list (list A)) :
  x ∈ concat ls ↔ ∃ l, x ∈ l ∧ l ∈ ls.
Proof.
  induction ls as [|l ls IH]; cbn [concat].
  - split; [by intros ?%elem_of_nil | by intros (? & _ & ?%elem_of_nil)].
  - rewrite elem_of_app, IH. split.
    + intros [Hl | (l' & Hx & Hl')]; [exists l; split; [done | left] |].
      exists l'. split; [done | by right].
    + intros (l' & Hx & [-> | Hl']%elem_of_cons); [by left | right; eauto].
Qed.

Lemma length_concat_sum {A} (ls : list (list A)) :
  length (concat ls) = sum_list_with length ls.
Proof.
  induction ls as [|l ls IH]; [done |]. cbn. by rewrite length_app, IH.
Qed.

Lemma sum_list_with_fmap {A B} (g : A → B) (h : B → nat) (l : list A) :
  sum_list_with h (g <$> l) = sum_list_with (h ∘ g) l.
Proof. induction l as [|a l IH]; [done |]. cbn. by rewrite IH. Qed.

Lemma sum_list_with_ext {A} (g h : A → nat) (l : list A) :
  (∀ a, a ∈ l → g a = h a) → sum_list_with g l = sum_list_with h l.
Proof.
  induction l as [|a l IH]; [done |]. intros Heq. cbn.
  rewrite IH by (intros ? ?; apply Heq; by right). f_equal. apply Heq. left.
Qed.

Lemma elem_of_lookup_plan (missing_by_year : gmap string (gset Z))
    (year : string) (id_num : Z) :
  (year, id_num) ∈ lookup_plan missing_by_year ↔
  ∃ ids, missing_by_year !! year = Some ids ∧ id_num ∈ ids.
Proof.
  unfold lookup_plan. rewrite elem_of_concat. split.
  - intros (l & Hin & Hl). apply list_elem_of_fmap in Hl as (y & -> & Hy).
    apply list_elem_of_fmap in Hin as (n & [= -> ->] & Hn).
    rewrite sorted_strs_Permutation in Hy.
    apply elem_of_elements, elem_of_dom in Hy as [ids Hids].
    rewrite sorted_ints_Permutation, lookup_total_alt, Hids in Hn.
    exists ids. split; [done |]. by apply elem_of_elements in Hn.
  - intros (ids & Hids & Hn).
    exists ((λ id_num, (year, id_num))
              <$> sorted_ints (elements (missing_by_year !!! year))).
    split.
    + apply list_elem_of_fmap. exists id_num. split; [done |].
      rewrite sorted_ints_Permutation, lookup_total_alt, Hids.
      by apply elem_of_elements.
    + apply list_elem_of_fmap. exists year. split; [done |].
      rewrite sorted_strs_Permutation. apply elem_of_elements, elem_of_dom.
      by exists ids.
Qed.

Lemma NoDup_year_plans (missing_by_year : gmap string (gset Z))
    (years : list string) :
  NoDup years →
  NoDup (concat ((λ year, (λ id_num, (year, id_num))
                    <$> sorted_ints (elements (missing_by_year !!! year)))
                 <$> years)).
Proof.
  induction 1 as [|year years Hnotin Hnd IH]; cbn [fmap list_fmap concat];
    [constructor |].
  apply NoDup_app. split_and!.
  - apply NoDup_fmap_2; [by intros a b [= ->] |].
    rewrite sorted_ints_Permutation. apply NoDup_elements.
  - intros [y n] Hin Hin'. apply list_elem_of_fmap in Hin as (n' & [= -> ->] & _).
    apply elem_of_concat in Hin' as (l & Hin' & Hl).
    apply list_elem_of_fmap in Hl as (y' & -> & Hy').
    apply list_elem_of_fmap in Hin' as (n'' & [= -> ->] & _). done.
  - done.
Qed.

Lemma NoDup_lookup_plan (missing_by_year : gmap string (gset Z)) :
  NoDup (lookup_plan missing_by_year).
Proof.
  apply NoDup_year_plans. rewrite sorted_strs_Permutation. apply NoDup_elements.
Qed.

Lemma length_lookup_plan (missing_by_year : gmap string (gset Z)) :
  length (lookup_plan missing_by_year) = total_missing missing_by_year.
Proof.
  unfold lookup_plan, total_missing.
  rewrite length_concat_sum, !sum_list_with_fmap, sorted_strs_Permutation.
  assert (elements (dom missing_by_year) ≡ₚ (map_to_list missing_by_year).*1)
    as ->.
  { apply NoDup_Permutation;
      [apply NoDup_elements | apply NoDup_fst_map_to_list |].
    intros y. rewrite elem_of_elements, elem_of_dom, list_elem_of_fmap.
    split.
    - intros [ids Hids]. exists (y, ids). by rewrite elem_of_map_to_list.
    - intros ([y' ids] & -> & Hin). exists ids. by apply elem_of_map_to_list. }
  rewrite sum_list_with_fmap. apply sum_list_with_ext.
  intros [y ids] Hin%elem_of_map_to_list. unfold compose. cbn [fst snd].
  by rewrite length_fmap, sorted_ints_Permutation, lookup_total_alt, Hin.
Qed.

Lemma length_dict_set (d : store) (k : pykey) (v : event) :
  (length (dict_set d k v) ≤ S (length d))%nat.
Proof.
  rewrite <- (length_fmap fst (dict_set d k v)), <- (length_fmap fst d).
  change (length (dict_keys (dict_set d k v)) ≤ S (length (dict_keys d)))%nat.
  rewrite dict_keys_set. destruct (decide _); [lia |].
  rewrite length_app. cbn. lia.
Qed.

Lemma length_apply_writes (writes : list (pykey * event)) :
  ∀ d : store,
    (length (apply_writes d writes) ≤ length d + length writes)%nat.
Proof.
  induction writes as [|[k v] writes IH]; intros d.
  - cbn. lia.
  - rewrite apply_writes_cons. cbn [length].
    pose proof (IH (dict_set d k v)). pose proof (length_dict_set d k v). lia.
Qed.

(** X9. The accounting of Phase 2. Every missing ID is counted once, as
    fetched or as not found. When there was something to look up, the
    [id_fetch_count] of the session is the number of lookups that stored
    a record; when there was nothing, the statistics stay as they were.
    The store grows by at most the number of records fetched (a record
    whose id is already a key replaces the record held), and Phase 2 does
    not touch the other statistics or the dates of the session. *)
Theorem phase2_accounting (srv : server)
    (missing_by_year : gmap string (gset Z)) (f : fetcher) :
  let f' := phase2_id_based_fetch srv missing_by_year f in
  let c := phase2_counters srv missing_by_year f in
  (fetched_count c + not_found_count c = total_missing missing_by_year)%nat ∧
  id_fetch_count (session_stats f') =
    (if (total_missing missing_by_year =? 0)%nat
     then id_fetch_count (session_stats f) else fetched_count c) ∧
  (length (all_events f') ≤ length (all_events f) + fetched_count c)%nat ∧
  date_fetch_count (session_stats f') = date_fetch_count (session_stats f) ∧
  total_events (session_stats f') = total_events (session_stats f) ∧
  start_date f' = start_date f ∧ end_date f' = end_date f.
Proof.
  cbv zeta.
  destruct (Nat.eqb_spec (total_missing missing_by_year) 0) as [Hzero|Hsome].
  - pose proof (fetch_years_ran srv missing_by_year
                  (sorted_strs (elements (dom missing_by_year)))
                  (emit f [EClock], mkCounters 0 0)) as Hran.
    fold (lookup_plan missing_by_year) in Hran.
    rewrite (lookup_plan_none _ Hzero) in Hran.
    unfold phase2_counters, phase2_id_based_fetch.
    rewrite Hzero. cbn [Nat.eqb].
    destruct (foldl _ _ _) as [f1 c1].
    destruct Hran as (_ & Hf & Hn & _). cbn in Hf, Hn |- *.
    split_and!; (done || lia).
  - destruct (phase2_ran srv missing_by_year f Hsome)
      as (Hd & Hs & Hf & Hn & Ha & Hb).
    rewrite length_lookup_plan in Hn. rewrite Hs, Hd, Hf. cbn.
    pose proof (length_apply_writes
                  (omap (lookup_write srv) (lookup_plan missing_by_year))
                  (all_events f)).
    split_and!; (done || lia).
Qed.

(** ** One lookup per missing ID *)

Lemma pretty_no_dash (n : Z) : 0 ≤ n → has_dash (pretty n) = false.
Proof.
  intros Hn. destruct n as [|p|p]; [done | | lia].
  apply all_digits_no_dash.
  apply (pretty_N_go_all_digits (N.pos p) ""). constructor.
Qed.

Lemma key_id_format_id (py_int : string → option Z) (n : Z) (year : string) :
  0 ≤ n → py_int (pretty n) = Some n →
  key_id py_int (KStr (format_id n year)) = Some (first_segment year, n).
Proof.
  intros Hn Hint. unfold key_id, format_id, first_segment.
  rewrite has_dash_app, pretty_no_dash by done.
  cbn [orb has_dash is_dash Ascii.eqb].
  change ("-" +:+ year) with (String "-" year).
  rewrite split_dash_at_dash by by apply pretty_no_dash. cbn.
  pose proof (split_dash_nonempty year).
  destruct (split_dash year) as [|y ys]; [done |].
  by rewrite Hint.
Qed.

Lemma string_app_inv_head (a b c : string) : a +:+ b = a +:+ c → b = c.
Proof.
  induction a as [|x a IH]; [done |].
  change (String x a +:+ b) with (String x (a +:+ b)).
  change (String x a +:+ c) with (String x (a +:+ c)).
  intros [= H]. by apply IH.
Qed.

Lemma format_id_inj (n n' : Z) (year year' : string) :
  0 ≤ n → 0 ≤ n' → format_id n year = format_id n' year' →
  n = n' ∧ year = year'.
Proof.
  intros Hn Hn' Heq.
  pose proof (key_id_format_id int_ascii n year Hn (int_ascii_pretty n Hn))
    as Hk.
  rewrite Heq, (key_id_format_id int_ascii n' year' Hn'
                  (int_ascii_pretty n' Hn')) in Hk.
  injection Hk as _ ->. split; [done |].
  unfold format_id in Heq. apply string_app_inv_head in Heq.
  by apply (string_app_inv_head "-") in Heq.
Qed.

Lemma phase2_requests (srv : server) (missing_by_year : gmap string (gset Z))
    (f : fetcher) :
  ∃ tr,
    trace (phase2_id_based_fetch srv missing_by_year f) = trace f ++ tr ∧
    requests tr = lookup_request <$> lookup_plan missing_by_year ∧
    (total_missing missing_by_year ≠ 0%nat → tr ≠ []).
Proof.
  unfold phase2_id_based_fetch.
  destruct (Nat.eqb_spec (total_missing missing_by_year) 0) as [Hzero|Hsome].
  - exists []. by rewrite app_nil_r, lookup_plan_none.
  - destruct (fetch_years_trace srv missing_by_year
                (sorted_strs (elements (dom missing_by_year)))
                (emit f [EClock], mkCounters 0 0)) as (tr & Htr & Hreq & _).
    destruct (foldl _ _ _) as [f1 c1]. cbn in Htr |- *.
    exists ([EClock] ++ tr ++ [EClock]). rewrite Htr, <- !app_assoc.
    split_and!; [done | | done].
    by rewrite !requests_app, Hreq, app_nil_r.
Qed.

(** X10. Phase 2 looks up every missing ID exactly once. When the missing
    numbers are not negative (those of the gap analysis start at 1), the
    requests of Phase 2 are pairwise different, there are as many as
    there are missing IDs, and a request is issued exactly for the IDs
    [{number}-{partition}] of the mapping; none of them is a date-range
    request. *)
Theorem phase2_one_lookup_per_missing_id (srv : server)
    (missing_by_year : gmap string (gset Z)) (f : fetcher) :
  (∀ year ids n, missing_by_year !! year = Some ids → n ∈ ids → 0 ≤ n) →
  ∃ tr,
    trace (phase2_id_based_fetch srv missing_by_year f) = trace f ++ tr ∧
    NoDup (requests tr) ∧
    length (requests tr) = total_missing missing_by_year ∧
    (∀ rq, rq ∈ requests tr ↔
           ∃ year ids n,
             missing_by_year !! year = Some ids ∧ n ∈ ids ∧
             rq = ReqId (format_id n year)).
Proof.
  intros Hpos.
  destruct (phase2_requests srv missing_by_year f) as (tr & Htr & Hreq & _).
  exists tr. rewrite Hreq. split_and!.
  - done.
  - apply NoDup_fmap_2_strong; [|apply NoDup_lookup_plan].
    intros [y n] [y' n'] Hin Hin' [= Heq].
    apply elem_of_lookup_plan in Hin as (ids & Hids & Hn).
    apply elem_of_lookup_plan in Hin' as (ids' & Hids' & Hn').
    cbn in Heq. apply format_id_inj in Heq as [-> ->]; by eauto.
  - by rewrite length_fmap, length_lookup_plan.
  - intros rq. rewrite list_elem_of_fmap. split.
    + intros ([y n] & -> & (ids & Hids & Hn)%elem_of_lookup_plan).
      by exists y, ids, n.
    + intros (y & ids & n & Hids & Hn & ->). exists (y, n).
      split; [done |]. apply elem_of_lookup_plan. eauto.
Qed.

Lemma phase2_one_lookup_per_missing_id_witness :
  ∃ tr,
    trace (phase2_id_based_fetch forgetful_server two_missing empty_session)
      = trace empty_session ++ tr ∧
    NoDup (requests tr) ∧ length (requests tr) = 2%nat.
Proof.
  destruct (phase2_one_lookup_per_missing_id forgetful_server two_missing
              empty_session) as (tr & Htr & Hnd & Hlen & _).
  - intros year ids n Hids Hn. unfold two_missing in Hids.
    apply lookup_singleton_Some in Hids as [_ <-]. set_unfold. lia.
  - exists tr. split_and!; [done | done |]. by rewrite Hlen.
Defined.

(** ** The store after Phase 2 *)

Lemma lookup_write_Some (srv : server) (year : string) (id_num : Z)
    (k : pykey) (ev : event) :
  lookup_write srv (year, id_num) = Some (k, ev) ↔
  (fetch_by_id srv id_num year).1 = Some ev ∧ event_truthy ev = true ∧
  hashable (ev_get ev "service_request_id") = Some k.
Proof.
  rewrite lookup_write_eq.
  destruct (fetch_by_id srv id_num year).1 as [ev'|]; [|naive_solver].
  destruct (event_truthy ev') eqn:Ht.
  - destruct (hashable (ev_get ev' "service_request_id")) as [k'|] eqn:Hk;
      cbn; [|naive_solver].
    split; [by intros [= <- <-] | intros ([= ->] & _ & Hk'); congruence].
  - split; [done | intros ([= ->] & ? & _); congruence].
Qed.

Lemma last_write_elem (writes : list (pykey * event)) (k : pykey) (v : event) :
  last_write writes k = Some v → (k, v) ∈ writes.
Proof.
  induction writes as [|[k' v'] writes IH]; cbn; [done |].
  destruct (last_write writes k) as [v''|].
  - intros [= ->]. right. by apply IH.
  - destruct (decide (k' = k)) as [->|]; [|done]. intros [= ->]. left.
Qed.

(** X11. Phase 2 only adds to the store or replaces in place. The keys
    held before stay where they are, in the same order, and new keys come
    after them; no key is dropped and none is held twice. A key is in the
    store afterwards exactly when it was there before or is the id
    carried by the first record of the answer to one of the lookups, and
    every record held afterwards was held before under the same key or
    is such a first record, filed under the id it carries. *)
Theorem phase2_store (srv : server) (missing_by_year : gmap string (gset Z))
    (f : fetcher) :
  let d := all_events f in
  let d' := all_events (phase2_id_based_fetch srv missing_by_year f) in
  dict_keys d `prefix_of` dict_keys d' ∧
  (NoDup (dict_keys d) → NoDup (dict_keys d')) ∧
  (∀ k, k ∈ dict_keys d' ↔
        k ∈ dict_keys d ∨
        ∃ year ids id_num ev,
          missing_by_year !! year = Some ids ∧ id_num ∈ ids ∧
          (fetch_by_id srv id_num year).1 = Some ev ∧
          event_truthy ev = true ∧
          hashable (ev_get ev "service_request_id") = Some k) ∧
  (∀ k ev, dict_get d' k = Some ev →
           dict_get d k = Some ev ∨
           ∃ year ids id_num,
             missing_by_year !! year = Some ids ∧ id_num ∈ ids ∧
             (fetch_by_id srv id_num year).1 = Some ev ∧
             hashable (ev_get ev "service_request_id") = Some k).
Proof.
  cbv zeta.
  assert (all_events (phase2_id_based_fetch srv missing_by_year f)
          = apply_writes (all_events f)
              (omap (lookup_write srv) (lookup_plan missing_by_year))) as ->.
  { destruct (decide (total_missing missing_by_year = 0%nat)) as [Hzero|Hsome].
    - rewrite lookup_plan_none by done. unfold phase2_id_based_fetch.
      by rewrite Hzero.
    - apply (phase2_ran srv missing_by_year f Hsome). }
  assert (∀ k ev,
            (k, ev) ∈ omap (lookup_write srv) (lookup_plan missing_by_year) ↔
            ∃ year ids id_num,
              missing_by_year !! year = Some ids ∧ id_num ∈ ids ∧
              (fetch_by_id srv id_num year).1 = Some ev ∧
              event_truthy ev = true ∧
              hashable (ev_get ev "service_request_id") = Some k) as Hw.
  { intros k ev. rewrite list_elem_of_omap. split.
    - intros ([y n] & (ids & Hids & Hn)%elem_of_lookup_plan
              & Hl%lookup_write_Some).
      exists y, ids, n. tauto.
    - intros (y & ids & n & Hids & Hn & Hl). exists (y, n). split.
      + apply elem_of_lookup_plan. eauto.
      + by apply lookup_write_Some. }
  split_and!.
  - apply apply_writes_prefix.
  - apply apply_writes_NoDup.
  - intros k. rewrite apply_writes_keys_elem, list_elem_of_fmap. split.
    + intros [Hk | ([k' ev] & -> & Hin)]; [by left | right].
      apply Hw in Hin as (y & ids & n & ?). exists y, ids, n, ev. tauto.
    + intros [Hk | (y & ids & n & ev & H)]; [by left | right].
      exists (k, ev). split; [done |]. apply Hw. by exists y, ids, n.
  - intros k ev. rewrite apply_writes_get.
    destruct (last_write _ k) as [v|] eqn:Hlast; [|by left].
    intros [= ->]. right. apply last_write_elem, Hw in Hlast
      as (y & ids & n & ?). exists y, ids, n. tauto.
Qed.

(** ** RecordStore: the merges of the two phases *)

Lemma merge_into_writes (f f' : fetcher) (m : merge) :
  merge_into f m = Ok f' →
  all_events f' = apply_writes (all_events f) (merged m).
Proof.
  destruct m as [events | srv year id_num]; cbn [merge_into merged].
  - rewrite store_events_writes. destruct (decide _); [done |]. cbn.
    by intros [= <-].
  - intros [= <-]. apply (lookup_step_ran srv year (f, mkCounters 0 0) id_num).
Qed.

Lemma merge_seq_writes (ms : list merge) :
  ∀ f f' : fetcher,
    merge_seq ms f = Ok f' →
    all_events f' = apply_writes (all_events f) (concat (merged <$> ms)).
Proof.
  induction ms as [|m ms IH]; intros f f'; cbn [merge_seq].
  - by intros [= <-].
  - destruct (merge_into f m) as [f1|] eqn:Hm; cbn; [|done].
    intros Hrest%IH. cbn [fmap list_fmap concat].
    by rewrite apply_writes_app, <- (merge_into_writes f f1 m Hm).
Qed.

Lemma last_write_None (writes : list (pykey * event)) (k : pykey) :
  k ∉ writes.*1 → last_write writes k = None.
Proof.
  induction writes as [|[k' v'] writes IH]; [done |].
  rewrite fmap_cons, not_elem_of_cons. cbn. intros [Hne Hk].
  rewrite IH by done. by rewrite decide_False.
Qed.

Lemma last_write_last (earlier later : list (pykey * event)) (k : pykey)
    (v : event) :
  k ∉ later.*1 → last_write (earlier ++ (k, v) :: later) k = Some v.
Proof.
  intros Hk. induction earlier as [|[k' v'] earlier IH]; cbn.
  - rewrite last_write_None by done. by rewrite decide_True.
  - by rewrite IH.
Qed.

Lemma length_apply_writes_distinct (d : store) (writes : list (pykey * event)) :
  NoDup (dict_keys d) →
  length (apply_writes d writes)
    = length (remove_dups (dict_keys d ++ writes.*1)).
Proof.
  intros Hnd.
  transitivity (length (dict_keys (apply_writes d writes))).
  { unfold dict_keys. by rewrite length_fmap. }
  apply Permutation_length, NoDup_Permutation.
  - by apply apply_writes_NoDup.
  - apply NoDup_remove_dups.
  - intros k. rewrite apply_writes_keys_elem, elem_of_remove_dups, elem_of_app.
    done.
Qed.

Lemma length_remove_dups_same (l l' : list pykey) :
  (∀ k, k ∈ l ↔ k ∈ l') → length (remove_dups l) = length (remove_dups l').
Proof.
  intros Hsame. apply Permutation_length, NoDup_Permutation;
    [apply NoDup_remove_dups | apply NoDup_remove_dups |].
  intros k. by rewrite !elem_of_remove_dups.
Qed.

(** C4. RecordStore. Take any sequence of merges of the two phases, the
    inner loop of Phase 1 on the records of a window and the lookup step
    of Phase 2, in any order and with any duplicates, run on a session
    whose store holds no ID twice (as the empty store of [__init__]).
    Afterwards the store holds no ID twice; the record of an ID that was
    merged is the record merged last under it, and an ID that was not
    merged keeps its record; the IDs held are those held before and
    those merged; and the number of records is the number of distinct
    IDs held before or merged, so that from the empty store it is the
    number of distinct IDs merged, whatever their order and however
    often each occurs. *)
Theorem store_one_record_per_id (ms : list merge) (f f' : fetcher) :
  NoDup (dict_keys (all_events f)) →
  merge_seq ms f = Ok f' →
  let writes := concat (merged <$> ms) in
  NoDup (dict_keys (all_events f')) ∧
  (∀ earlier k v later,
     writes = earlier ++ (k, v) :: later → k ∉ later.*1 →
     dict_get (all_events f') k = Some v) ∧
  (∀ k, k ∉ writes.*1 → dict_get (all_events f') k = dict_get (all_events f) k) ∧
  (∀ k, k ∈ dict_keys (all_events f') ↔
        k ∈ dict_keys (all_events f) ∨ k ∈ writes.*1) ∧
  length (all_events f')
    = length (remove_dups (dict_keys (all_events f) ++ writes.*1)) ∧
  (all_events f = [] →
   length (all_events f') = length (remove_dups writes.*1) ∧
   ∀ ms2 f2,
     merge_seq ms2 f = Ok f2 →
     (∀ k, k ∈ (concat (merged <$> ms2)).*1 ↔ k ∈ writes.*1) →
     length (all_events f2) = length (all_events f')).
Proof.
  intros Hnd Hrun. cbv zeta.
  pose proof (merge_seq_writes ms f f' Hrun) as Hstore. rewrite Hstore.
  split_and!.
  - by apply apply_writes_NoDup.
  - intros earlier k v later -> Hk.
    by rewrite apply_writes_get, last_write_last.
  - intros k Hk. by rewrite apply_writes_get, last_write_None.
  - intros k. apply apply_writes_keys_elem.
  - by apply length_apply_writes_distinct.
  - intros Hempty. split.
    + rewrite length_apply_writes_distinct by done. by rewrite Hempty.
    + intros ms2 f2 Hrun2 Hsame.
      rewrite (merge_seq_writes ms2 f f2 Hrun2).
      rewrite !length_apply_writes_distinct by done.
      apply length_remove_dups_same. intros k. rewrite !elem_of_app.
      by rewrite Hsame.
Qed.

Lemma store_one_record_per_id_witness :
  ∃ f',
    merge_seq sample_merges empty_session = Ok f' ∧
    length (all_events f') = 3%nat ∧
    dict_get (all_events f') (KStr "7-2026")
      = Some [("service_request_id", JStr "7-2026"); ("status", JStr "closed")].
Proof.
  destruct (merge_seq sample_merges empty_session) as [f'|] eqn:Hrun;
    [|by vm_compute in Hrun].
  exists f'. split; [done |].
  destruct (store_one_record_per_id sample_merges empty_session f')
    as (_ & Hlast & _ & _ & _ & Hcount); [constructor | done |].
  split.
  - destruct (Hcount eq_refl) as [-> _]. by vm_compute.
  - apply (Hlast [(KStr "7-2026",
                   [("service_request_id", JStr "7-2026");
                    ("status", JStr "open")]);
                  (KStr "8-2026", [("service_request_id", JStr "8-2026")]);
                  (KStr "4-2026", sample_record "4-2026")]
                 _ _ []); [by vm_compute | apply not_elem_of_nil].
Defined.

(** ** Analysis, Phase 2 and analysis again *)

Lemma split_dash_parts (s : string) :
  Forall (λ p, has_dash p = false) (split_dash s).
Proof.
  induction s as [|c s IH]; cbn [split_dash].
  - by repeat constructor.
  - destruct (is_dash c) eqn:Hc; [by constructor |].
    destruct (split_dash s) as [|p ps]; [by repeat constructor; cbn; rewrite Hc |].
    apply Forall_cons in IH as [Hp Hps].
    constructor; [|done]. cbn. by rewrite Hc.
Qed.

Lemma key_id_year_no_dash (py_int : string → option Z) (k : pykey)
    (year : string) (n : Z) :
  key_id py_int k = Some (year, n) → has_dash year = false.
Proof.
  destruct k as [| |s]; cbn; try done.
  destruct (has_dash s); [|done].
  pose proof (split_dash_parts s) as Hparts.
  destruct (split_dash s) as [|p0 [|p1 ps]]; try done.
  destruct (py_int p0); cbn; [|done]. intros [= <- _].
  apply Forall_cons in Hparts as [_ Hparts].
  by apply Forall_cons in Hparts as [? _].
Qed.

Lemma elem_of_found_ids (srv : server) (missing_by_year : gmap string (gset Z))
    (year : string) (n : Z) :
  n ∈ found_ids srv missing_by_year year ↔
  (year, n) ∈ lookup_plan missing_by_year ∧
  is_Some (lookup_write srv (year, n)).
Proof.
  unfold found_ids. rewrite elem_of_list_to_set, list_elem_of_omap. split.
  - intros ([y n'] & Hin & Hl). cbn in Hl.
    destruct (decide _) as [[-> Hs]|]; [|done]. by injection Hl as ->.
  - intros [Hin Hs]. exists (year, n). split; [done |]. cbn.
    by rewrite decide_True.
Qed.

Section reconcile.
Variable py_int : string → option Z.

Lemma missing_spec (d : store) (m : gmap string (gset Z)) (year : string)
    (ids : gset Z) :
  analyze_missing_ids py_int d = Ok m → m !! year = Some ids →
  observed_ids py_int d year ≠ ∅ ∧
  ids = py_range_set 1 (set_max (observed_ids py_int d year) + 1)
          ∖ observed_ids py_int d year.
Proof.
  intros Hm Hids. rewrite (analyze_lookup py_int d m year Hm) in Hids.
  destruct (decide _); [done |]. by injection Hids as <-.
Qed.

(** X12. Phase 2 has something to do exactly when the store has a gap.
    When the analysis of the store gives the mapping [m], Phase 2 on [m]
    leaves the session as it is (no request, no reading of the clock, no
    change of the statistics) if and only if in every partition the
    observed numbers have no gap. *)
Theorem phase2_idle_iff_gap_free (srv : server) (f : fetcher)
    (m : gmap string (gset Z)) :
  analyze_missing_ids py_int (all_events f) = Ok m →
  (phase2_id_based_fetch srv m f = f ↔
   ∀ year, gap_free (observed_ids py_int (all_events f) year)).
Proof.
  intros Hm.
  assert (total_missing m = 0%nat ↔
          ∀ year, gap_free (observed_ids py_int (all_events f) year)) as Hgap.
  { split.
    - intros Hzero year n i Hn Hi.
      pose proof (analyze_lookup py_int _ m year Hm) as Hl.
      rewrite decide_False in Hl by set_solver.
      assert (py_range_set 1
                (set_max (observed_ids py_int (all_events f) year) + 1)
                ∖ observed_ids py_int (all_events f) year = ∅) as Hnone.
      { apply leibniz_equiv, size_empty_inv. apply (sum_list_zero _ _ Hzero).
        apply list_elem_of_fmap. eexists. split; [done |].
        apply list_elem_of_fmap. eexists (year, _). split; [done |].
        by apply elem_of_map_to_list. }
      destruct (decide (i ∈ observed_ids py_int (all_events f) year))
        as [|Hnot]; [done |].
      exfalso. apply (not_elem_of_empty (C := gset Z) i). rewrite <- Hnone.
      apply elem_of_difference. split; [|done].
      apply elem_of_py_range_set.
      assert (observed_ids py_int (all_events f) year ≠ ∅) as Hne by set_solver.
      pose proof (proj2 (set_max_spec _ Hne) n Hn). lia.
    - intros Hfree. rewrite <- length_lookup_plan.
      destruct (lookup_plan m) as [|[y n] plan] eqn:Hplan; [done |].
      assert ((y, n) ∈ lookup_plan m) as Hin by (rewrite Hplan; left).
      apply elem_of_lookup_plan in Hin as (ids & Hids & Hn).
      destruct (missing_spec _ m y ids Hm Hids) as [Hne ->].
      apply elem_of_difference in Hn as [Hn%elem_of_py_range_set Hnot].
      exfalso. apply Hnot.
      apply (Hfree y (set_max (observed_ids py_int (all_events f) y)));
        [by apply set_max_spec | lia]. }
  rewrite <- Hgap. split.
  - intros Hsame. destruct (decide (total_missing m = 0%nat)) as [|Hsome];
      [done |].
    destruct (phase2_requests srv m f) as (tr & Htr & _ & Hne).
    rewrite Hsame in Htr. exfalso. apply (Hne Hsome).
    apply (app_inv_head (trace f)). by rewrite app_nil_r.
  - intros Hzero. unfold phase2_id_based_fetch. by rewrite Hzero.
Qed.
Hypothesis py_int_pretty : ∀ n, 0 ≤ n → py_int (pretty n) = Some n.

Lemma plan_key (d : store) (m : gmap string (gset Z)) (year : string) (n : Z) :
  analyze_missing_ids py_int d = Ok m → (year, n) ∈ lookup_plan m →
  key_id py_int (KStr (format_id n year)) = Some (year, n).
Proof.
  intros Hm (ids & Hids & Hn)%elem_of_lookup_plan.
  destruct (missing_spec d m year ids Hm Hids) as [Hne ->].
  apply elem_of_difference in Hn as [Hn%elem_of_py_range_set _].
  apply set_choose_L in Hne as [x Hx].
  apply observed_ids_elem in Hx as (k & _ & Hk%key_id_year_no_dash).
  rewrite key_id_format_id by (try apply py_int_pretty; lia).
  unfold first_segment. by rewrite split_dash_whole.
Qed.

Lemma reconciled_observed (srv : server) (f : fetcher)
    (m : gmap string (gset Z)) :
  analyze_missing_ids py_int (all_events f) = Ok m →
  (∀ l, l ∈ lookup_plan m → answers_in_kind srv l) →
  let d' := all_events (phase2_id_based_fetch srv m f) in
  Forall (key_readable py_int) (dict_keys d') ∧
  ∀ year, observed_ids py_int d' year
          = observed_ids py_int (all_events f) year ∪ found_ids srv m year.
Proof.
  intros Hm Hkind. cbv zeta.
  assert (all_events (phase2_id_based_fetch srv m f)
          = apply_writes (all_events f)
              (omap (lookup_write srv) (lookup_plan m))) as ->.
  { destruct (decide (total_missing m = 0%nat)) as [Hzero|Hsome].
    - rewrite lookup_plan_none by done. unfold phase2_id_based_fetch.
      by rewrite Hzero.
    - apply (phase2_ran srv m f Hsome). }
  assert (∀ k, k ∈ (omap (lookup_write srv) (lookup_plan m)).*1 ↔
               ∃ year n, (year, n) ∈ lookup_plan m ∧
                         is_Some (lookup_write srv (year, n)) ∧
                         k = KStr (format_id n year)) as Hw.
  { intros k. rewrite list_elem_of_fmap. split.
    - intros ([k' ev] & -> & ([y n] & Hin & Hl)%list_elem_of_omap).
      exists y, n. split_and!; [done | by eexists |].
      by apply (Hkind (y, n) Hin k' ev).
    - intros (y & n & Hin & [[k' ev] Hl] & ->). exists (k', ev).
      split; [by rewrite (Hkind (y, n) Hin k' ev Hl) |].
      apply list_elem_of_omap. by exists (y, n). }
  split.
  - apply Forall_forall. intros k [Hk | Hk]%apply_writes_keys_elem.
    + assert (Forall (key_readable py_int) (dict_keys (all_events f))) as Hall
        by (apply analyze_returns; eauto).
      by eapply Forall_forall in Hall.
    + apply Hw in Hk as (y & n & Hin & _ & ->). intros _.
      rewrite (plan_key _ m y n Hm Hin). by eexists.
  - intros year. apply set_eq. intros n.
    rewrite elem_of_union, !observed_ids_elem, elem_of_found_ids. split.
    + intros (k & [Hk | Hk]%apply_writes_keys_elem & Hkey);
        [left; eauto |].
      apply Hw in Hk as (y & n' & Hin & Hs & ->).
      rewrite (plan_key _ m y n' Hm Hin) in Hkey. injection Hkey as -> ->.
      by right.
    + intros [(k & Hk & Hkey) | [Hin Hs]].
      * exists k. split; [|done]. apply apply_writes_keys_elem. by left.
      * exists (KStr (format_id n year)).
        split; [|by apply (plan_key _ m year n Hm)].
        apply apply_writes_keys_elem. right. apply Hw. by exists year, n.
Qed.

(** X13. Phase 2 closes the gaps the analysis found. Let the analysis of
    the store give the mapping [m], and let the registry answer every
    lookup of [m] either with nothing to store or with a record that
    carries the id asked for. Then the analysis of the store Phase 2
    leaves returns again, with the same partitions, and in each of them
    exactly the numbers of [m] whose lookup stored nothing: what was
    fetched is no longer missing, and nothing else becomes missing. *)
Theorem phase2_closes_gaps (srv : server) (f : fetcher)
    (m : gmap string (gset Z)) :
  analyze_missing_ids py_int (all_events f) = Ok m →
  (∀ l, l ∈ lookup_plan m → answers_in_kind srv l) →
  ∃ m',
    analyze_missing_ids py_int
      (all_events (phase2_id_based_fetch srv m f)) = Ok m' ∧
    (∀ year, m' !! year = (λ ids, ids ∖ found_ids srv m year) <$> m !! year) ∧
    (∀ year ids' n,
       m' !! year = Some ids' →
       (n ∈ ids' ↔
        ∃ ids, m !! year = Some ids ∧ n ∈ ids ∧
               lookup_write srv (year, n) = None)).
Proof.
  intros Hm Hkind.
  destruct (reconciled_observed srv f m Hm Hkind) as [Hread Hobs].
  apply analyze_returns in Hread as [m' Hm'].
  assert (∀ year, m' !! year
                  = (λ ids, ids ∖ found_ids srv m year) <$> m !! year) as Hyear.
  { intros year.
    assert (∀ n, n ∈ found_ids srv m year →
                 ∃ ids, m !! year = Some ids ∧ n ∈ ids) as Hfound.
    { by intros n [Hin%elem_of_lookup_plan _]%elem_of_found_ids. }
    rewrite (analyze_lookup py_int _ m' year Hm'), Hobs.
    rewrite (analyze_lookup py_int _ m year Hm) in Hfound |- *.
    set (observed := observed_ids py_int (all_events f) year) in *.
    destruct (decide (observed = ∅)) as [Hempty|Hne].
    - rewrite decide_True; [done |].
      apply set_eq. intros n. split; [|set_solver].
      intros [Hn | Hn]%elem_of_union; [set_solver |].
      by destruct (Hfound n Hn) as (? & ? & _).
    - rewrite decide_False by set_solver. cbn. f_equal.
      destruct (set_max_spec observed Hne) as [Hin Hub].
      rewrite (set_max_unique (observed ∪ found_ids srv m year)
                 (set_max observed)).
      + set_solver.
      + set_solver.
      + intros y [Hy | Hy]%elem_of_union; [by apply Hub |].
        destruct (Hfound y Hy) as (ids & [= <-] & Hy').
        apply elem_of_difference in Hy' as [Hy'%elem_of_py_range_set _]. lia. }
  exists m'. split_and!; [done | done |].
  intros year ids' n. rewrite Hyear. destruct (m !! year) as [ids|] eqn:Hids;
    [|done]. cbn. intros [= <-].
  rewrite elem_of_difference, elem_of_found_ids, elem_of_lookup_plan.
  rewrite <- not_eq_None_Some. split.
  - intros [Hn Hnot]. exists ids. split_and!; [done | done |].
    destruct (lookup_write srv (year, n)) eqn:Hl; [|done].
    exfalso. apply Hnot. split; [eauto | done].
  - intros (ids0 & [= <-] & Hn & Hl). split; [done |]. by intros [_ ?].
Qed.

End reconcile.

Lemma phase2_idle_iff_gap_free_witness :
  phase2_id_based_fetch dead_server
    {[ "2026" := ∅ ]}
    (set_events empty_session
       [(KStr "1-2026", sample_record "1-2026");
        (KStr "2-2026", sample_record "2-2026")])
  = set_events empty_session
      [(KStr "1-2026", sample_record "1-2026");
       (KStr "2-2026", sample_record "2-2026")].
Proof.
  apply (phase2_idle_iff_gap_free int_ascii dead_server
           (set_events empty_session
              [(KStr "1-2026", sample_record "1-2026");
               (KStr "2-2026", sample_record "2-2026")])
           {[ "2026" := ∅ ]}).
  - by vm_compute.
  - intros year n i Hn Hi.
    apply observed_ids_elem in Hn as (k & Hk & Hkey).
    apply observed_ids_elem.
    cbn in Hk. apply elem_of_cons in Hk as [-> | Hk].
    + vm_compute in Hkey. injection Hkey as <- <-.
      exists (KStr "1-2026"). split; [left |].
      assert (i = 1) as -> by lia. by vm_compute.
    + apply elem_of_cons in Hk as [-> | Hk%elem_of_nil]; [|done].
      vm_compute in Hkey. injection Hkey as <- <-.
      assert (i = 1 ∨ i = 2) as [-> | ->] by lia.
      * exists (KStr "1-2026"). split; [left | by vm_compute].
      * exists (KStr "2-2026"). split; [right; left | by vm_compute].
Defined.

Lemma phase2_closes_gaps_witness :
  ∃ m',
    analyze_missing_ids int_ascii
      (all_events (phase2_id_based_fetch partial_server
                     {[ "2026" := {[2; 3]} ]} gapped_session)) = Ok m' ∧
    m' !! "2026" = Some {[3]}.
Proof.
  destruct (phase2_closes_gaps int_ascii int_ascii_pretty partial_server
              gapped_session {[ "2026" := {[2; 3]} ]})
    as (m' & Hm' & Hyear & _).
  - by vm_compute.
  - intros l Hl k ev Hw.
    assert (lookup_plan {[ "2026" := {[2; 3]} ]} = [("2026", 2); ("2026", 3)])
      as Hplan by (by vm_compute).
    rewrite Hplan in Hl. clear Hplan.
    apply elem_of_cons in Hl as [-> | Hl];
      [vm_compute in Hw; by injection Hw as <- _ |].
    apply elem_of_cons in Hl as [-> | Hl%elem_of_nil]; [|destruct Hl].
    vm_compute in Hw. discriminate Hw.
  - exists m'. split; [exact Hm' |]. rewrite Hyear. vm_compute. reflexivity.
Defined.

(** ** When the sort of [save_to_file] raises *)

Lemma py_lt_returns (a b : json) :
  (∃ r, py_lt a b = Ok r) ↔
  ((∃ s, a = JStr s) ∧ (∃ t, b = JStr t)) ∨
  (is_Some (as_number a) ∧ is_Some (as_number b)).
Proof.
  split.
  - intros [r [(s & t & -> & -> & _) | (m & n & Ha & Hb & _)]%py_lt_Ok];
      [left; eauto | right; rewrite Ha, Hb; eauto].
  - intros [[[s ->] [t ->]] | [[m Ha] [n Hb]]]; [cbn; eauto |].
    destruct a, b; cbn in *; simplify_eq; eauto.
Qed.

Lemma py_lt_raises (a b : json) (e : exn) : py_lt a b = Raise e → e = TypeError.
Proof. destruct a, b; cbn; intros; simplify_eq; done. Qed.

Lemma text_not_number (e : event) : key_text e → key_number e → False.
Proof. intros [s Hs] [n Hn]. by rewrite Hs in Hn. Qed.

Lemma insert_desc_raises (x : event) (l : list event) (e : exn) :
  insert_desc x l = Raise e → e = TypeError.
Proof.
  induction l as [|y l IH]; cbn [insert_desc]; [done |].
  destruct (py_lt (sort_key x) (sort_key y)) as [[]|e'] eqn:Hlt; cbn.
  - destruct (insert_desc x l); cbn; [done |]. intros [= <-]. by apply IH.
  - done.
  - intros [= <-]. by apply py_lt_raises in Hlt.
Qed.

Lemma sort_desc_raises (l : list event) (e : exn) :
  sort_desc l = Raise e → e = TypeError.
Proof.
  induction l as [|x l IH]; cbn [sort_desc]; [done |].
  destruct (sort_desc l) as [sorted|e']; cbn.
  - apply insert_desc_raises.
  - intros [= <-]. by apply IH.
Qed.

Lemma insert_desc_number (x : event) (l : list event) :
  key_number x → Forall key_number l → ∃ r, insert_desc x l = Ok r.
Proof.
  intros Hx. induction l as [|y l IH]; intros Hl; cbn [insert_desc];
    [eauto |].
  apply Forall_cons in Hl as [Hy Hl].
  destruct (proj2 (py_lt_returns (sort_key x) (sort_key y))) as [r ->];
    [by right |].
  cbn. destruct r; [|eauto]. destruct (IH Hl) as [r ->]. cbn. eauto.
Qed.

Lemma sort_desc_number (l : list event) :
  Forall key_number l → ∃ out, sort_desc l = Ok out.
Proof.
  induction l as [|x l IH]; intros Hl; cbn [sort_desc]; [eauto |].
  apply Forall_cons in Hl as [Hx Hl]. destruct (IH Hl) as [sorted Hs].
  rewrite Hs. cbn. apply insert_desc_number; [done |].
  destruct (sort_desc_spec _ _ Hs) as [Hp _]. by rewrite Hp.
Qed.

Lemma insert_desc_head (x y : event) (l r : list event) :
  insert_desc x (y :: l) = Ok r →
  (key_text x ∧ key_text y) ∨ (key_number x ∧ key_number y).
Proof.
  cbn [insert_desc].
  destruct (py_lt (sort_key x) (sort_key y)) as [b|] eqn:Hlt; [|done].
  intros _. apply py_lt_returns. eauto.
Qed.

Lemma sort_desc_returns (l : list event) :
  (∃ out, sort_desc l = Ok out) ↔
  (length l ≤ 1)%nat ∨ Forall key_text l ∨ Forall key_number l.
Proof.
  split.
  - induction l as [|x l IH]; [cbn; auto with lia |].
    cbn [sort_desc]. intros [out Hout].
    destruct (sort_desc l) as [sorted|] eqn:Hs; [|done]. cbn in Hout.
    destruct (sort_desc_spec _ _ Hs) as [Hp _].
    destruct sorted as [|y sorted].
    { apply Permutation_nil_l in Hp as <-. cbn. auto with lia. }
    assert (y ∈ l) as Hy by (rewrite <- Hp; left).
    apply insert_desc_head in Hout as Hxy. right.
    destruct (IH (ex_intro _ _ eq_refl)) as [Hlen | [Ht | Hn]].
    + destruct l as [|y' [|? ?]]; [by apply elem_of_nil in Hy | |cbn in Hlen; lia].
      apply list_elem_of_singleton in Hy as <-.
      destruct Hxy as [[? ?] | [? ?]]; [left | right]; by repeat constructor.
    + left. constructor; [|done].
      destruct Hxy as [[? ?] | [_ Hyn]]; [done |].
      rewrite Forall_forall in Ht. by destruct (text_not_number y (Ht y Hy)).
    + right. constructor; [|done].
      destruct Hxy as [[_ Hyt] | [? ?]]; [|done].
      rewrite Forall_forall in Hn. by destruct (text_not_number y Hyt (Hn y Hy)).
  - intros [Hlen | [Ht | Hn]].
    + destruct l as [|x [|? ?]]; [by eexists | by eexists | cbn in Hlen; lia].
    + by apply sort_desc_text.
    + by apply sort_desc_number.
Qed.

(** X14. When the sort of [save_to_file] fails. The list is sorted
    before the file is opened; what is said here is about that step, not
    about opening or writing the file. The sort raises nothing but
    [TypeError], and, array timestamps apart, it raises exactly when the
    store holds at least two records whose timestamps are neither all
    text (a missing timestamp counts as the text [""]) nor all numbers:
    a single [null] timestamp among two or more records is enough. *)
Theorem save_to_file_raises (f : fetcher) :
  Forall (λ e, ¬ key_array e) (dict_values (all_events f)) →
  (∀ e, save_to_file f = Raise e → e = TypeError) ∧
  (save_to_file f = Raise TypeError ↔
   (2 ≤ length (all_events f))%nat ∧
   ¬ Forall key_text (dict_values (all_events f)) ∧
   ¬ Forall key_number (dict_values (all_events f))) ∧
  ((2 ≤ length (all_events f))%nat →
   (∃ e, e ∈ dict_values (all_events f) ∧
         get_field e "requested_datetime" = Some JNull) →
   save_to_file f = Raise TypeError).
Proof.
  intros _. unfold save_to_file.
  pose proof (sort_desc_returns (dict_values (all_events f))) as Hret.
  assert (length (dict_values (all_events f)) = length (all_events f)) as Hlen
    by apply length_fmap.
  rewrite Hlen in Hret.
  assert (sort_desc (dict_values (all_events f)) = Raise TypeError ↔
          (2 ≤ length (all_events f))%nat ∧
          ¬ Forall key_text (dict_values (all_events f)) ∧
          ¬ Forall key_number (dict_values (all_events f))) as Hiff.
  { split.
    - intros Hr. rewrite Hr in Hret.
      assert (¬ ∃ out : list event, Raise TypeError = Ok out) as Hno
        by (by intros [? ?]).
      rewrite Hret in Hno. split_and!; [lia | tauto | tauto].
    - intros (Hlen2 & Hnt & Hnn).
      destruct (sort_desc (dict_values (all_events f))) as [out|e] eqn:Hs.
      + assert ((length (all_events f) ≤ 1)%nat
                ∨ Forall key_text (dict_values (all_events f))
                ∨ Forall key_number (dict_values (all_events f))) as Hc
          by (apply Hret; eauto).
        destruct Hc as [? | [? | ?]]; [lia | done | done].
      + by rewrite (sort_desc_raises _ _ Hs). }
  split_and!.
  - apply sort_desc_raises.
  - done.
  - intros Hlen2 (e & He & Hnull). apply Hiff.
    assert (sort_key e = JNull) as Hkey.
    { unfold sort_key, ev_get_default. by rewrite Hnull. }
    split_and!; [done | |]; intros Hall; rewrite Forall_forall in Hall;
      specialize (Hall e He).
    + destruct Hall as [s Hs]. by rewrite Hkey in Hs.
    + destruct Hall as [n Hn]. by rewrite Hkey in Hn.
Qed.

Lemma save_to_file_raises_witness :
  save_to_file null_dated_session = Raise TypeError.
Proof.
  apply (save_to_file_raises null_dated_session).
  - repeat constructor; by intros [items Hk].
  - cbn. lia.
  - eexists. split; [right; left | reflexivity].
Defined.

(** ** The sort is stable *)

Lemma ties_not_below (v : json) (x y : event) :
  ties v x = true → ties v y = true →
  py_lt (sort_key x) (sort_key y) = Ok false.
Proof.
  unfold ties. intros Hx Hy.
  destruct (py_lt v (sort_key x)) as [[]|] eqn:Hvx; try done.
  destruct (py_lt (sort_key x) v) as [[]|] eqn:Hxv; try done.
  destruct (py_lt v (sort_key y)) as [[]|] eqn:Hvy; try done.
  by apply (py_lt_negtrans _ v).
Qed.

Lemma insert_desc_stable (v : json) (x : event) (l r : list event) :
  insert_desc x l = Ok r → filter (λ e, ties v e = true) r
                           = filter (λ e, ties v e = true) (x :: l).
Proof.
  revert r. induction l as [|y l IH]; intros r; cbn [insert_desc].
  - by intros [= <-].
  - destruct (py_lt (sort_key x) (sort_key y)) as [[]|] eqn:Hxy; cbn;
      [| by intros [= <-] | done].
    destruct (insert_desc x l) as [r'|]; cbn; [|done]. intros [= <-].
    rewrite filter_cons, (IH r' eq_refl), !filter_cons.
    destruct (decide (ties v y = true)) as [Hy|Hy],
             (decide (ties v x = true)) as [Hx|Hx]; try done.
    pose proof (ties_not_below v x y Hx Hy). congruence.
Qed.

Lemma sort_desc_stable (v : json) (l out : list event) :
  sort_desc l = Ok out →
  filter (λ e, ties v e = true) out = filter (λ e, ties v e = true) l.
Proof.
  revert out. induction l as [|x l IH]; intros out; cbn [sort_desc].
  - by intros [= <-].
  - destruct (sort_desc l) as [sorted|]; cbn; [|done]. intros Hins.
    rewrite (insert_desc_stable v x sorted out Hins), !filter_cons.
    by rewrite (IH sorted eq_refl).
Qed.

(** X15. The sort of [save_to_file] is stable. In the list it produces,
    the records that tie with a given timestamp (neither is below the
    other) stand in the order the store holds them: among records of the
    same timestamp, and among those without one, the one fetched first
    comes first. *)
Theorem save_to_file_stable (f : fetcher) (out : list event) (v : json) :
  save_to_file f = Ok out →
  filter (λ e, ties v e = true) out
    = filter (λ e, ties v e = true) (dict_values (all_events f)).
Proof. apply sort_desc_stable. Qed.

Lemma save_to_file_stable_witness :
  ∃ out,
    save_to_file tied_session = Ok out ∧
    (λ e, ev_get e "service_request_id")
      <$> filter (λ e, ties (JStr "2026-01-03") e = true) out
      = [JStr "1-2026"; JStr "2-2026"; JStr "4-2026"].
Proof.
  destruct (save_to_file tied_session) as [out|] eqn:Hout;
    [|by vm_compute in Hout].
  exists out. split; [done |].
  by rewrite (save_to_file_stable tied_session out (JStr "2026-01-03") Hout).
Defined.

(** ** Text timestamps *)

Lemma lacks_timestamp_text (e : event) :
  key_text e → (lacks_timestamp e ↔ sort_key e = JStr "").
Proof.
  unfold key_text, lacks_timestamp, sort_key, ev_get_default.
  destruct (get_field e "requested_datetime") as [v|]; cbn; naive_solver.
Qed.

(** X20. Text timestamps are sorted as the claim C6 wants. When every
    record of the store has a text timestamp or none ([null] excluded),
    the sort of [save_to_file] produces a list: it holds the records of
    the store, no timestamp in it is followed by a greater one, and every
    record without a timestamp (absent or empty) comes after every
    record that has one. *)
Theorem save_to_file_text_descending (f : fetcher) :
  Forall key_text (dict_values (all_events f)) →
  ∃ out,
    save_to_file f = Ok out ∧
    out ≡ₚ dict_values (all_events f) ∧
    (∀ i j a b s t,
       (i < j)%nat → out !! i = Some a → out !! j = Some b →
       sort_key a = JStr s → sort_key b = JStr t →
       String.leb t s = true) ∧
    (∀ i j a b,
       out !! i = Some a → out !! j = Some b →
       lacks_timestamp a → ¬ lacks_timestamp b →
       (j < i)%nat).
Proof.
  intros Htext. unfold save_to_file.
  destruct (sort_desc_text _ Htext) as [out Hout]. exists out.
  destruct (sort_desc_spec _ _ Hout) as [Hperm Hsorted].
  assert (∀ i j a b,
            (i < j)%nat → out !! i = Some a → out !! j = Some b →
            py_lt (sort_key a) (sort_key b) = Ok false) as Hdesc.
  { intros i j a b. by apply (StronglySorted_lookup_lt not_below). }
  assert (∀ i a, out !! i = Some a → key_text a) as Hkey.
  { intros i a Ha. rewrite Forall_forall in Htext. apply Htext.
    rewrite <- Hperm. by apply list_elem_of_lookup_2 with i. }
  split_and!; [done | done | |].
  - intros i j a b s t Hij Ha Hb Hs Ht.
    specialize (Hdesc i j a b Hij Ha Hb). rewrite Hs, Ht in Hdesc.
    cbn in Hdesc. injection Hdesc as Hlt. by apply string_ltb_leb.
  - intros i j a b Ha Hb Hlack Hhas.
    destruct (Nat.lt_trichotomy i j) as [Hij | [-> | Hji]]; [| |done].
    + specialize (Hdesc i j a b Hij Ha Hb).
      apply (lacks_timestamp_text a (Hkey i a Ha)) in Hlack.
      destruct (Hkey j b Hb) as [t Ht]. rewrite Hlack, Ht in Hdesc.
      cbn in Hdesc. injection Hdesc as Hlt.
      apply string_ltb_empty in Hlt as ->. exfalso. apply Hhas.
      by apply (lacks_timestamp_text b (Hkey j b Hb)).
    + rewrite Ha in Hb. by injection Hb as <-.
Qed.

Lemma save_to_file_text_descending_witness :
  ∃ out,
    save_to_file dated_session = Ok out ∧
    sort_key <$> out
      = [JStr "2026-01-05T08:30:00+01:00"; JStr "2026-01-03T10:00:00+01:00";
         JStr ""].
Proof.
  destruct (save_to_file_text_descending dated_session)
    as (out & Hout & _).
  - repeat constructor; eexists; reflexivity.
  - exists out. split; [done |].
    vm_compute in Hout. by injection Hout as <-.
Defined.

(** ** The partitions of the summary *)

Lemma key_year_Some (k : pykey) (year : string) :
  key_year k = Some year ↔
  ∃ s part0 rest, k = KStr s ∧ has_dash s = true ∧
                  split_dash s = part0 :: year :: rest.
Proof.
  split.
  - destruct k as [| |s]; cbn; try done.
    destruct (has_dash s) eqn:Hd; [|done].
    destruct (split_dash s) as [|p0 [|p1 ps]] eqn:Hs; try done.
    intros [= <-]. by exists s, p0, ps.
  - intros (s & p0 & ps & -> & Hd & Hs). cbn. by rewrite Hd, Hs.
Qed.

Lemma count_key_returns (years : gmap string nat) (k : pykey) :
  (∃ s, k = KStr s) →
  count_key years k =
    Ok (match key_year k with
        | Some year => <[year := S (years !!! year)]> years
        | None => years
        end).
Proof.
  intros [s ->]. cbn. destruct (has_dash s) eqn:Hd; [|done].
  destruct (split_dash_two_parts s Hd) as (p0 & p1 & ps & ->). done.
Qed.

Lemma count_key_raises (years : gmap string nat) (k : pykey) (e : exn) :
  count_key years k = Raise e → e = TypeError ∧ ∀ s, k ≠ KStr s.
Proof.
  destruct k as [| |s]; cbn; try (by intros [= <-]).
  destruct (has_dash s) eqn:Hd; [|done].
  destruct (split_dash_two_parts s Hd) as (p0 & p1 & ps & ->). done.
Qed.

Lemma count_years_raises (keys : list pykey) :
  ∀ (years : gmap string nat) (e : exn),
    count_years keys years = Raise e →
    e = TypeError ∧ ∃ k, k ∈ keys ∧ ∀ s, k ≠ KStr s.
Proof.
  induction keys as [|k keys IH]; intros years e; cbn [count_years]; [done |].
  destruct (count_key years k) as [years'|e'] eqn:Hk; cbn.
  - intros (-> & k' & Hin & Hk')%IH. split; [done |]. exists k'.
    split; [by right | done].
  - intros [= <-]. apply count_key_raises in Hk as [-> Hk].
    split; [done |]. exists k. split; [left | done].
Qed.

Lemma count_years_returns (keys : list pykey) :
  ∀ years : gmap string nat,
    Forall (λ k, ∃ s, k = KStr s) keys →
    ∃ years',
      count_years keys years = Ok years' ∧
      (∀ year, years' !!! year
               = (years !!! year
                  + length (filter (λ k, key_year k = Some year) keys))%nat) ∧
      (∀ year, year ∈ dom years' ↔
               year ∈ dom years ∨ ∃ k, k ∈ keys ∧ key_year k = Some year).
Proof.
  induction keys as [|k keys IH]; intros years Hkeys; cbn [count_years].
  - exists years. split_and!; [done | intros; cbn; lia |].
    intros year. split; [by left | intros [? | (k & Hk%elem_of_nil & _)]; done].
  - apply Forall_cons in Hkeys as [Hk Hkeys].
    destruct (IH (match key_year k with
                  | Some year => <[year := S (years !!! year)]> years
                  | None => years
                  end) Hkeys) as (years' & Hret & Hcount & Hdom).
    exists years'.
    split_and!; [by rewrite (count_key_returns years k Hk) | |].
    + intros year. rewrite Hcount, filter_cons.
      destruct (key_year k) as [y|] eqn:Hy.
      * destruct (decide (y = year)) as [->|Hne].
        -- rewrite lookup_total_insert_eq, decide_True by done. cbn. lia.
        -- rewrite lookup_total_insert_ne, decide_False by congruence. done.
      * by rewrite decide_False.
    + intros year. rewrite Hdom. split.
      * intros [Hin | (k' & Hk' & Hy)].
        -- destruct (key_year k) as [y|] eqn:Hy; [|by left].
           rewrite dom_insert_L in Hin.
           apply elem_of_union in Hin as [->%elem_of_singleton | Hin];
             [|by left]. right. exists k. split; [left | done].
        -- right. exists k'. split; [by right | done].
      * intros [Hin | (k' & [-> | Hk']%elem_of_cons & Hy)].
        -- left. destruct (key_year k); [|done].
           rewrite dom_insert_L. set_solver.
        -- left. rewrite Hy, dom_insert_L. set_solver.
        -- right. eauto.
Qed.

Lemma size_list_to_set_le (l : list Z) :
  (size (list_to_set l : gset Z) ≤ length l)%nat.
Proof.
  induction l as [|x l IH]; cbn [list_to_set length].
  - by rewrite size_empty.
  - rewrite size_union_alt, size_singleton.
    pose proof (subseteq_size (list_to_set l ∖ {[x]}) (list_to_set l : gset Z)
                  ltac:(set_solver)). lia.
Qed.

Lemma key_id_key_year (py_int : string → option Z) (k : pykey)
    (year : string) (n : Z) :
  key_id py_int k = Some (year, n) → key_year k = Some year.
Proof.
  destruct k as [| |s]; cbn; try done.
  destruct (has_dash s); [|done].
  destruct (split_dash s) as [|p0 [|p1 ps]]; try done.
  destruct (py_int p0); cbn; [|done]. by intros [= <- _].
Qed.

Lemma key_year_key_id (py_int : string → option Z) (k : pykey)
    (year : string) :
  key_readable py_int k → key_year k = Some year →
  ∃ n, key_id py_int k = Some (year, n).
Proof.
  intros Hread (s & p0 & ps & -> & Hd & Hs)%key_year_Some.
  destruct (Hread Hd) as [[y n] Hk]. exists n. rewrite Hk.
  apply key_id_key_year in Hk as Hy. cbn in Hy. rewrite Hd, Hs in Hy.
  by injection Hy as ->.
Qed.

Lemma omap_key_in_year_length (py_int : string → option Z)
    (keys : list pykey) (year : string) :
  (length (omap (key_in_year py_int year) keys)
     ≤ length (filter (λ k, key_year k = Some year) keys))%nat.
Proof.
  induction keys as [|k keys IH]; [done |].
  rewrite filter_cons.
  change (omap (key_in_year py_int year) (k :: keys))
    with (match key_in_year py_int year k with
          | Some n => n :: omap (key_in_year py_int year) keys
          | None => omap (key_in_year py_int year) keys
          end).
  destruct (key_in_year py_int year k) as [n|] eqn:Hk.
  - unfold key_in_year in Hk.
    destruct (key_id py_int k) as [[y n']|] eqn:Hid; [|done]. cbn in Hk.
    destruct (decide (y = year)) as [->|]; [|done].
    rewrite decide_True by by apply (key_id_key_year py_int k year n').
    cbn. lia.
  - destruct (decide _); cbn; lia.
Qed.

Lemma count_years_str (keys : list pykey) :
  ∀ years years' : gmap string nat,
    count_years keys years = Ok years' → Forall (λ k, ∃ s, k = KStr s) keys.
Proof.
  induction keys as [|k keys IH]; intros years years'; cbn [count_years];
    [by constructor |].
  destruct (count_key years k) as [years1|] eqn:Hk; cbn; [|done].
  intros Hrest%IH. constructor; [|done].
  destruct k as [| |s]; try done. by exists s.
Qed.

#[local] Instance str_le_trans : Transitive str_le.
Proof.
  intros a b c. unfold str_le. rewrite <- !string_ltb_leb.
  intros Hab Hbc. by apply (string_ltb_negtrans c b a).
Qed.

#[local] Instance str_le_total : Total str_le.
Proof. intros a b. apply String.leb_total. Qed.

Lemma str_le_strict (a b : string) :
  str_le a b → a ≠ b → String.ltb a b = true.
Proof.
  unfold str_le, String.leb, String.ltb. intros Hle Hne.
  destruct (String.compare a b) eqn:Hc; try done.
  by apply String.compare_eq_iff in Hc.
Qed.

Lemma sorted_strs_strict (l : list string) :
  NoDup l → StronglySorted (λ a b, String.ltb a b = true) (sorted_strs l).
Proof.
  intros Hnd. unfold sorted_strs.
  pose proof (StronglySorted_merge_sort str_le l) as Hs.
  assert (NoDup (merge_sort str_le l)) as Hnd'
    by by rewrite merge_sort_Permutation.
  induction Hs as [|a r Hr IH Ha]; [constructor |].
  apply NoDup_cons in Hnd' as [Hnotin Hnd']. constructor; [by apply IH |].
  rewrite Forall_forall in Ha |- *. intros b Hb.
  apply str_le_strict; [by apply Ha | by intros ->].
Qed.

Lemma py_min_raises (rest : list json) :
  ∀ (current : json) (e : exn), py_min current rest = Raise e → e = TypeError.
Proof.
  induction rest as [|item rest IH]; intros current e; cbn [py_min]; [done |].
  destruct (py_lt item current) as [below|e'] eqn:Hlt; cbn.
  - apply IH.
  - intros [= <-]. by apply py_lt_raises in Hlt.
Qed.

Lemma py_max_raises (rest : list json) :
  ∀ (current : json) (e : exn), py_max current rest = Raise e → e = TypeError.
Proof.
  induction rest as [|item rest IH]; intros current e; cbn [py_max]; [done |].
  unfold py_gt.
  destruct (py_lt current item) as [above|e'] eqn:Hlt; cbn.
  - apply IH.
  - intros [= <-]. by apply py_lt_raises in Hlt.
Qed.

Lemma date_span_raises (d : store) (e : exn) :
  date_span d = Raise e → e = TypeError.
Proof.
  unfold date_span. destruct (summary_dates d) as [|first rest]; [done |].
  destruct (py_min first rest) as [earliest|e'] eqn:Hmin; cbn.
  - destruct (py_max first rest) as [latest|e''] eqn:Hmax; cbn; [done |].
    intros [= <-]. by apply py_max_raises in Hmax.
  - intros [= <-]. by apply py_min_raises in Hmin.
Qed.

Lemma print_summary_Ok (f : fetcher) (s : summary) :
  print_summary f = Ok s →
  ∃ span years,
    date_span (all_events f) = Ok span ∧
    count_years (dict_keys (all_events f)) ∅ = Ok years ∧
    s = mkSummary (date_fetch_count (session_stats f))
                  (id_fetch_count (session_stats f))
                  (length (all_events f)) span
                  ((λ year, (year, years !!! year))
                     <$> sorted_strs (elements (dom years))).
Proof.
  unfold print_summary.
  destruct (date_span (all_events f)) as [span|]; cbn; [|done].
  destruct (count_years (dict_keys (all_events f)) ∅) as [years|]; cbn;
    [|done].
  intros [= <-]. by exists span, years.
Qed.

(** X16. The partitions of the summary. [print_summary] raises nothing
    but [TypeError], and its count by year raises exactly at a key that
    is not a [str]: a key the gap analysis cannot read as a number (as
    [x-2026]) is counted like any other. When it returns, the lines of
    [Events by year] come in strictly ascending order of the partition,
    and a partition is listed, with the number of keys
    [{anything}-{partition}] of the store, exactly when there is such a
    key. When the gap analysis returns on the same store, the partitions
    listed are those of its mapping, and a partition's count is at least
    the number of sequence numbers observed in it. *)
Theorem summary_by_year (py_int : string → option Z) (f : fetcher) :
  (∀ e, print_summary f = Raise e → e = TypeError) ∧
  (∀ span, date_span (all_events f) = Ok span →
           ((∃ s, print_summary f = Ok s) ↔
            Forall (λ k, ∃ id, k = KStr id) (dict_keys (all_events f)))) ∧
  (∀ s,
     print_summary f = Ok s →
     StronglySorted (λ a b, String.ltb a b = true) (events_by_year s).*1 ∧
     (∀ year count,
        (year, count) ∈ events_by_year s ↔
        count = keys_in_year (all_events f) year ∧ (0 < count)%nat) ∧
     (∀ m,
        analyze_missing_ids py_int (all_events f) = Ok m →
        (∀ year, year ∈ (events_by_year s).*1 ↔ is_Some (m !! year)) ∧
        (∀ year count,
           (year, count) ∈ events_by_year s →
           (size (observed_ids py_int (all_events f) year) ≤ count)%nat))).
Proof.
  split_and!.
  - intros e. unfold print_summary.
    destruct (date_span (all_events f)) as [span|e'] eqn:Hspan; cbn.
    + destruct (count_years _ ∅) as [years|e''] eqn:Hyears; cbn; [done |].
      intros [= <-]. by apply count_years_raises in Hyears as [-> _].
    + intros [= <-]. by apply date_span_raises in Hspan.
  - intros span Hspan. split.
    + intros [s (_ & years & _ & Hyears & _)%print_summary_Ok].
      by apply count_years_str in Hyears.
    + intros Hstr. destruct (count_years_returns _ ∅ Hstr) as (years & Hy & _).
      unfold print_summary. rewrite Hspan, Hy. cbn. eauto.
  - intros s (span & years & _ & Hyears & ->)%print_summary_Ok.
    cbn [events_by_year].
    pose proof (count_years_str _ _ _ Hyears) as Hstr.
    destruct (count_years_returns _ ∅ Hstr) as (years' & Hy & Hcount & Hdom).
    rewrite Hyears in Hy. injection Hy as <-.
    assert (∀ year, years !!! year = keys_in_year (all_events f) year) as Hc.
    { intros year. rewrite Hcount, lookup_total_empty. done. }
    assert (∀ year, year ∈ dom years ↔
                    (0 < keys_in_year (all_events f) year)%nat) as Hd.
    { intros year. rewrite Hdom, dom_empty_L. unfold keys_in_year. split.
      - intros [?%not_elem_of_empty | (k & Hk & Hy)]; [done |].
        assert (k ∈ filter (λ k, key_year k = Some year)
                      (dict_keys (all_events f))) as Hin
          by by apply list_elem_of_filter.
        destruct (filter _ _); [by apply elem_of_nil in Hin | cbn; lia].
      - intros Hpos. right.
        destruct (filter (λ k, key_year k = Some year)
                    (dict_keys (all_events f))) as [|k l] eqn:Hf;
          [cbn in Hpos; lia |].
        assert (k ∈ filter (λ k, key_year k = Some year)
                      (dict_keys (all_events f))) as Hin
          by (rewrite Hf; left).
        apply list_elem_of_filter in Hin as [? ?]. eauto. }
    assert (∀ year count,
              (year, count) ∈ (λ year, (year, years !!! year))
                                <$> sorted_strs (elements (dom years)) ↔
              count = keys_in_year (all_events f) year ∧ (0 < count)%nat)
      as Hlines.
    { intros year count. rewrite list_elem_of_fmap. split.
      - intros (y & [= -> ->] & Hin).
        rewrite sorted_strs_Permutation, elem_of_elements, Hd in Hin.
        by rewrite Hc.
      - intros [-> Hpos]. exists year. rewrite Hc. split; [done |].
        by rewrite sorted_strs_Permutation, elem_of_elements, Hd. }
    assert (((λ year, (year, years !!! year))
               <$> sorted_strs (elements (dom years))).*1
            = sorted_strs (elements (dom years))) as Hfst.
    { rewrite <- list_fmap_compose. apply list_fmap_id. }
    split_and!.
    + rewrite Hfst. apply sorted_strs_strict, NoDup_elements.
    + done.
    + intros m Hm.
      assert (Forall (key_readable py_int) (dict_keys (all_events f))) as Hread
        by (apply analyze_returns; eauto).
      split.
      * intros year.
        rewrite Hfst, sorted_strs_Permutation, elem_of_elements, Hdom,
          dom_empty_L, (analyze_lookup py_int _ m year Hm).
        split.
        -- intros [?%not_elem_of_empty | (k & Hk & Hy)]; [done |].
           rewrite Forall_forall in Hread.
           destruct (key_year_key_id py_int k year (Hread k Hk) Hy) as [n Hn].
           rewrite decide_False; [by eexists |].
           assert (n ∈ observed_ids py_int (all_events f) year) as Hin
             by (apply observed_ids_elem; eauto).
           set_solver.
        -- destruct (decide _) as [|Hne]; [by intros [? ?] |]. intros _.
           apply set_choose_L in Hne as [n Hn].
           apply observed_ids_elem in Hn as (k & Hk & Hy%key_id_key_year).
           right. eauto.
      * intros year count [-> _]%Hlines. unfold observed_ids, keys_in_year.
        etrans; [apply size_list_to_set_le |].
        apply omap_key_in_year_length.
Qed.

Lemma summary_by_year_witness :
  ∃ s,
    print_summary (set_events empty_session gap_store) = Ok s ∧
    events_by_year s = [("2025", 5%nat); ("2026", 4%nat)] ∧
    StronglySorted (λ a b, String.ltb a b = true) (events_by_year s).*1.
Proof.
  destruct (print_summary (set_events empty_session gap_store)) as [s|] eqn:Hs;
    [|by vm_compute in Hs].
  exists s. split; [done |]. split.
  - vm_compute in Hs. by injection Hs as <-.
  - by apply (summary_by_year int_ascii (set_events empty_session gap_store)).
Defined.

(** ** The date range of the summary *)

Lemma string_ltb_antisym (a b : string) :
  String.ltb a b = false → String.ltb b a = false → a = b.
Proof.
  unfold String.ltb. intros Hab Hba. apply String.compare_eq_iff.
  rewrite String.compare_antisym in Hba.
  by destruct (String.compare a b).
Qed.

Lemma string_ltb_irrefl (a : string) : String.ltb a a = false.
Proof. unfold String.ltb. by rewrite string_compare_refl. Qed.

Lemma py_min_text (rest : list json) :
  ∀ c : string,
    Forall (λ v, ∃ t, v = JStr t) rest →
    ∃ m, py_min (JStr c) rest = Ok (JStr m) ∧ JStr m ∈ JStr c :: rest ∧
         ∀ t, JStr t ∈ JStr c :: rest → String.ltb t m = false.
Proof.
  induction rest as [|item rest IH]; intros c Hrest; cbn [py_min].
  - exists c. split_and!; [done | left |].
    intros t [[= ->] | ?%elem_of_nil]%elem_of_cons; [|done].
    apply string_ltb_irrefl.
  - apply Forall_cons in Hrest as [[i ->] Hrest]. cbn.
    destruct (String.ltb i c) eqn:Hic.
    + destruct (IH i Hrest) as (m & -> & Hin & Hle). exists m.
      split_and!; [done | by right |].
      intros t [[= ->] | Ht]%elem_of_cons; [|by apply Hle].
      apply (string_ltb_negtrans c i m);
        [by apply string_ltb_asym | apply Hle; left].
    + destruct (IH c Hrest) as (m & -> & Hin & Hle). exists m. split_and!.
      * done.
      * apply elem_of_cons in Hin as [-> | Hin]; [left | by right; right].
      * intros t [[= ->] | [[= ->] | Ht]%elem_of_cons]%elem_of_cons.
        -- apply Hle. left.
        -- apply (string_ltb_negtrans i c m); [done | apply Hle; left].
        -- apply Hle. by right.
Qed.

Lemma py_max_text (rest : list json) :
  ∀ c : string,
    Forall (λ v, ∃ t, v = JStr t) rest →
    ∃ m, py_max (JStr c) rest = Ok (JStr m) ∧ JStr m ∈ JStr c :: rest ∧
         ∀ t, JStr t ∈ JStr c :: rest → String.ltb m t = false.
Proof.
  induction rest as [|item rest IH]; intros c Hrest; cbn [py_max].
  - exists c. split_and!; [done | left |].
    intros t [[= ->] | ?%elem_of_nil]%elem_of_cons; [|done].
    apply string_ltb_irrefl.
  - apply Forall_cons in Hrest as [[i ->] Hrest]. unfold py_gt. cbn.
    destruct (String.ltb c i) eqn:Hci.
    + destruct (IH i Hrest) as (m & -> & Hin & Hge). exists m.
      split_and!; [done | by right |].
      intros t [[= ->] | Ht]%elem_of_cons; [|by apply Hge].
      apply (string_ltb_negtrans m i c);
        [apply Hge; left | by apply string_ltb_asym].
    + destruct (IH c Hrest) as (m & -> & Hin & Hge). exists m. split_and!.
      * done.
      * apply elem_of_cons in Hin as [-> | Hin]; [left | by right; right].
      * intros t [[= ->] | [[= ->] | Ht]%elem_of_cons]%elem_of_cons.
        -- apply Hge. left.
        -- apply (string_ltb_negtrans m c i); [apply Hge; left | done].
        -- apply Hge. by right.
Qed.

Lemma elem_of_summary_dates (d : store) (v : json) :
  v ∈ summary_dates d ↔
  ∃ e, e ∈ dict_values d ∧ sort_key e = v ∧ truthy v = true.
Proof.
  unfold summary_dates. rewrite list_elem_of_filter, list_elem_of_fmap.
  unfold sort_key. naive_solver.
Qed.

(** X17. The date range of the summary agrees with the saved list. When
    every timestamp of the store is text (or missing) and some record has
    a timestamp that is not empty, [print_summary] finds an [Earliest]
    and a [Latest] among these timestamps, no timestamp is before the
    first or after the second, and [Latest] is the timestamp of the
    record that [save_to_file] puts first. When no record has a
    timestamp, no date range is printed. *)
Theorem summary_date_range (f : fetcher) :
  Forall key_text (dict_values (all_events f)) →
  (summary_dates (all_events f) = [] → date_span (all_events f) = Ok None) ∧
  (summary_dates (all_events f) ≠ [] →
   ∃ earliest latest,
     date_span (all_events f) = Ok (Some (JStr earliest, JStr latest)) ∧
     JStr earliest ∈ summary_dates (all_events f) ∧
     JStr latest ∈ summary_dates (all_events f) ∧
     (∀ t, JStr t ∈ summary_dates (all_events f) →
           String.leb earliest t = true ∧ String.leb t latest = true) ∧
     (∀ out, save_to_file f = Ok out →
             ∃ e rest, out = e :: rest ∧ sort_key e = JStr latest)).
Proof.
  intros Htext. unfold date_span. split; [by intros -> |].
  destruct (summary_dates (all_events f)) as [|first rest] eqn:Hdates; [done |].
  intros _.
  assert (Forall (λ v, ∃ t, v = JStr t) (first :: rest)) as Hall.
  { rewrite <- Hdates. apply Forall_forall.
    intros v (e & He & <- & _)%elem_of_summary_dates.
    rewrite Forall_forall in Htext. by apply Htext. }
  apply Forall_cons in Hall as [[c ->] Hrest].
  destruct (py_min_text rest c Hrest) as (earliest & -> & Hein & Hle).
  destruct (py_max_text rest c Hrest) as (latest & -> & Hlin & Hge).
  exists earliest, latest. cbn. split_and!; [done | done | done | |].
  - intros t Ht. rewrite <- !string_ltb_leb. split; [by apply Hle | by apply Hge].
  - intros out Hout. unfold save_to_file in Hout.
    destruct (sort_desc_spec _ _ Hout) as [Hperm Hsorted].
    rewrite <- Hdates in Hlin.
    apply elem_of_summary_dates in Hlin as (e0 & He0 & Hkey0 & Htruthy).
    destruct out as [|e out'].
    { rewrite <- Hperm in He0. by apply elem_of_nil in He0. }
    exists e, out'. split; [done |].
    assert (e ∈ dict_values (all_events f)) as He by (rewrite <- Hperm; left).
    rewrite Forall_forall in Htext. destruct (Htext e He) as [t Ht].
    rewrite Ht. f_equal. apply string_ltb_antisym.
    + (* the first record is not below the record that holds [latest] *)
      rewrite <- Hperm in He0.
      apply elem_of_cons in He0 as [-> | He0].
      * rewrite Ht in Hkey0. injection Hkey0 as ->. apply string_ltb_irrefl.
      * apply StronglySorted_inv in Hsorted as [_ Hhead].
        rewrite Forall_forall in Hhead. specialize (Hhead e0 He0).
        unfold not_below in Hhead. rewrite Ht, Hkey0 in Hhead.
        cbn in Hhead. by injection Hhead.
    + (* its timestamp is not empty, so [latest] is not below it *)
      apply Hge. rewrite <- Hdates. apply elem_of_summary_dates.
      exists e. split_and!; [done | done |]. cbn.
      destruct (String.eqb_spec t "") as [-> |]; [|done]. exfalso.
      assert (String.ltb "" latest = false) as Hempty.
      { rewrite <- Hperm in He0.
        apply elem_of_cons in He0 as [-> | He0].
        - rewrite Ht in Hkey0. by injection Hkey0 as <-.
        - apply StronglySorted_inv in Hsorted as [_ Hhead].
          rewrite Forall_forall in Hhead. specialize (Hhead e0 He0).
          unfold not_below in Hhead. rewrite Ht, Hkey0 in Hhead.
          cbn in Hhead. by injection Hhead. }
      apply string_ltb_empty in Hempty as ->. by cbn in Htruthy.
Qed.

Lemma summary_date_range_witness :
  ∃ earliest latest out e rest,
    date_span (all_events tied_session)
      = Ok (Some (JStr earliest, JStr latest)) ∧
    save_to_file tied_session = Ok out ∧
    out = e :: rest ∧ sort_key e = JStr latest ∧
    latest = "2026-01-04".
Proof.
  destruct (summary_date_range tied_session) as [_ Hspan].
  - repeat constructor; by eexists.
  - destruct Hspan as (earliest & latest & Hs & _ & _ & _ & Hout);
      [by vm_compute |].
    destruct (save_to_file tied_session) as [out|] eqn:Hsave;
      [|by vm_compute in Hsave].
    destruct (Hout out eq_refl) as (e & rest & -> & Hkey).
    exists earliest, latest, (e :: rest), e, rest.
    split_and!; [done | done | done | done |].
    vm_compute in Hs. by injection Hs as _ <-.
Defined.

(** ** A whole run *)

Lemma fetch_pages_range_requests (fuel : nat) (srv : server)
    (start end_ : date) :
  ∀ (page : Z) (events r : list event) (tr : list effect),
    fetch_pages fuel srv start end_ page events = Some (r, tr) →
    Forall is_range_request (requests tr).
Proof.
  induction fuel as [|fuel IH]; intros page events r tr; [done |].
  rewrite fetch_pages_step. cbv zeta.
  assert (is_range_request (ReqRange start end_ page)) as Hrq
    by (by exists start, end_, page).
  destruct (srv (ReqRange start end_ page)) as [[|ev body]|code|].
  - intros [= <- <-]. by repeat constructor.
  - destruct (_ <? _)%nat.
    + intros [= <- <-]. by repeat constructor.
    + destruct (fetch_pages fuel srv start end_ (page + 1) _)
        as [[r' tr']|] eqn:Hrest; cbn; [|done].
      intros [= <- <-]. apply IH in Hrest. cbn. by constructor.
  - intros [= <- <-]. by repeat constructor.
  - intros [= <- <-]. by repeat constructor.
Qed.

Lemma sweep_range_requests (fuel : nat) (srv : server)
    (windows : list (date * date)) :
  ∀ (events : list event) (tr : list effect),
    sweep fuel srv windows = Some (events, tr) →
    Forall is_range_request (requests tr).
Proof.
  induction windows as [|[start end_] windows IH]; intros events tr;
    cbn [sweep].
  - intros [= <- <-]. constructor.
  - destruct (fetch_by_date_range fuel srv start end_) as [[evs tr1]|] eqn:Hw;
      cbn; [|done].
    destruct (sweep fuel srv windows) as [[evs' tr2]|] eqn:Hs; cbn; [|done].
    intros [= <- <-]. rewrite requests_app. apply Forall_app. split.
    + by apply fetch_pages_range_requests in Hw.
    + by apply (IH evs').
Qed.

Lemma phase1_returns (fuel : nat) (srv : server) (f f1 : fetcher) :
  phase1_date_based_fetch fuel srv f = Some (Ok f1) →
  ∃ tr,
    trace f1 = trace f ++ tr ∧ Forall is_range_request (requests tr) ∧
    session_stats f1 =
      mkStats (length (all_events f1)) (id_fetch_count (session_stats f))
              (total_events (session_stats f)).
Proof.
  unfold phase1_date_based_fetch.
  destruct (plan_windows (start_date f) (end_date f)) as [[ws|]|]; cbn;
    [|done|done].
  destruct (fetch_windows fuel srv ws (emit f [EClock])) as [[f'|]|] eqn:Hw;
    cbn; [|done|done].
  intros [= <-].
  apply fetch_windows_sweep_Ok in Hw as (events & tr & Hsweep & _ & ->).
  exists ([EClock] ++ tr ++ [EClock]). cbn. split_and!.
  - by rewrite <- !app_assoc.
  - apply sweep_range_requests in Hsweep.
    by rewrite requests_app, app_nil_r.
  - done.
Qed.

Lemma phase2_size (srv : server) (m : gmap string (gset Z)) (f : fetcher) :
  let f' := phase2_id_based_fetch srv m f in
  (length (all_events f')
     ≤ length (all_events f) + id_fetch_count (session_stats f'))%nat ∧
  date_fetch_count (session_stats f') = date_fetch_count (session_stats f) ∧
  total_events (session_stats f') = total_events (session_stats f).
Proof.
  cbv zeta.
  destruct (decide (total_missing m = 0%nat)) as [Hzero|Hsome].
  - unfold phase2_id_based_fetch. rewrite Hzero. cbn. split_and!; (done || lia).
  - destruct (phase2_ran srv m f Hsome) as (Hd & Hs & _).
    rewrite Hs, Hd. cbn. split_and!; [|done|done].
    apply length_apply_writes.
Qed.

Lemma run_returns (py_int : string → option Z) (fuel : nat) (srv : server)
    (f : fetcher) (o : outcome) :
  run py_int fuel srv f = Some (Ok o) →
  ∃ f1 m,
    phase1_date_based_fetch fuel srv f = Some (Ok f1) ∧
    analyze_missing_ids py_int (all_events f1) = Ok m ∧
    session o = phase2_id_based_fetch srv m f1 ∧
    save_to_file (session o) = Ok (saved_events o) ∧
    print_summary (session o) = Ok (printed o) ∧
    saved_stats o = session_stats (session o).
Proof.
  unfold run.
  destruct (phase1_date_based_fetch fuel srv f) as [[f1|]|]; cbn;
    [|done|done].
  destruct (analyze_missing_ids py_int (all_events f1)) as [m|] eqn:Hm; cbn;
    [|done].
  destruct (save_to_file (phase2_id_based_fetch srv m f1)) as [out|] eqn:Hout;
    cbn; [|done].
  destruct (print_summary (phase2_id_based_fetch srv m f1)) as [s|] eqn:Hs;
    cbn; [|done].
  intros [= <-]. cbn. by exists f1, m.
Qed.

(** X18. What a completed run leaves. When the body of [main] runs to
    its end: every date-range request was issued before the first point
    lookup, and the point lookups are those of the IDs the analysis of
    the Phase 1 store found missing; the list saved is a rearrangement
    of the records of the store; the total the summary prints is the
    length of that list, and it is at most the sum of the two phase
    counts it prints (a looked-up record filed under a key the store
    already holds is counted without adding to the store); and the
    statistics saved carry the [total_events] the session began with,
    which nothing in the run writes. *)
Theorem run_outcome (py_int : string → option Z) (fuel : nat) (srv : server)
    (f : fetcher) (o : outcome) :
  run py_int fuel srv f = Some (Ok o) →
  ∃ f1 m ranges,
    phase1_date_based_fetch fuel srv f = Some (Ok f1) ∧
    analyze_missing_ids py_int (all_events f1) = Ok m ∧
    requests (trace (session o))
      = requests (trace f) ++ ranges ++ (lookup_request <$> lookup_plan m) ∧
    Forall is_range_request ranges ∧
    saved_events o ≡ₚ dict_values (all_events (session o)) ∧
    events_total (printed o) = length (saved_events o) ∧
    (events_total (printed o)
       ≤ phase1_events (printed o) + phase2_events (printed o))%nat ∧
    phase1_events (printed o) = length (all_events f1) ∧
    total_events (saved_stats o) = total_events (session_stats f).
Proof.
  intros (f1 & m & H1 & Hm & Hsession & Hsave & Hsum & Hstats)%run_returns.
  destruct (phase1_returns fuel srv f f1 H1) as (tr1 & Htr1 & Hranges & Hs1).
  destruct (phase2_requests srv m f1) as (tr2 & Htr2 & Hreq2 & _).
  destruct (phase2_size srv m f1) as (Hsize & Hdate & Htotal).
  rewrite <- Hsession in Htr2, Hsize, Hdate, Htotal.
  apply print_summary_Ok in Hsum as (span & years & _ & _ & Hprinted).
  destruct (sort_desc_spec _ _ Hsave) as [Hperm _].
  exists f1, m, (requests tr1).
  rewrite Hstats, Hprinted, Htr2, Htr1, !requests_app, Hreq2, Htotal, Hdate,
    Hs1, <- app_assoc.
  cbn. split_and!; try done.
  rewrite Hperm. unfold dict_values. by rewrite length_fmap.
Qed.

Lemma run_outcome_witness :
  ∃ o,
    run int_ascii 3 gappy_server empty_session = Some (Ok o) ∧
    requests (trace (session o))
      = [ReqRange 739252 739258 1; ReqRange 739259 739265 1;
         ReqRange 739266 739267 1; ReqId "2-2026"] ∧
    dict_keys (all_events (session o))
      = [KStr "1-2026"; KStr "3-2026"; KStr "2-2026"] ∧
    length (saved_events o) = 3%nat ∧
    phase1_events (printed o) = 2%nat ∧
    phase2_events (printed o) = 1%nat ∧
    events_total (printed o) = 3%nat.
Proof.
  destruct (run int_ascii 3 gappy_server empty_session) as [[o|]|] eqn:Hrun;
    [| by vm_compute in Hrun | by vm_compute in Hrun].
  exists o. split; [done |].
  destruct (run_outcome int_ascii 3 gappy_server empty_session o Hrun)
    as (f1 & m & ranges & _ & _ & _ & _ & Hperm & Htotal & _).
  rewrite Htotal, Hperm. unfold dict_values. rewrite length_fmap.
  vm_compute in Hrun. injection Hrun as <-. by vm_compute.
Defined.

(** ** [main] *)

(** X19. [main] with the clock before [START_DATE]. When the date the
    clock gives, in the form YYYY-MM-DD that [isoformat] produces, lies
    before [START_DATE], then for every registry and whatever [int]
    does, [main] makes no request, and no exception arises from the
    constructor to the summary (writing the two files apart, which is
    not modelled): the list handed to [json.dump] is empty, the
    statistics are all zero, and the summary prints no date range and no
    partition. *)
Theorem main_before_start (py_int : string → option Z) (fuel : nat)
    (srv : server) (END_DATE : string) (y m d : Z) :
  ymd_fields END_DATE = Some (y, m, d) →
  calendar_date (y, m, d) →
  ymd2ord y m d < ymd2ord 2025 1 1 →
  ∃ o,
    main py_int fuel srv END_DATE = Some (Ok o) ∧
    saved_events o = [] ∧
    requests (trace (session o)) = [] ∧
    saved_stats o = mkStats 0 0 0 ∧
    event_date_range (printed o) = None ∧
    events_by_year (printed o) = [].
Proof.
  intros Hfields Hdate Hbefore. unfold main, init.
  assert (fromisoformat START_DATE = Ok (ymd2ord 2025 1 1)) as ->
    by (by vm_compute).
  rewrite (proj1 (fromisoformat_calendar END_DATE y m d Hfields) Hdate).
  cbn [mbind result_bind].
  unfold run, phase1_date_based_fetch. cbn [start_date end_date].
  rewrite plan_windows_reversed by done.
  cbn. eexists. split; [reflexivity |]. by cbn.
Qed.

Lemma main_before_start_witness :
  ∃ o,
    main int_ascii 1 dead_server "2024-12-31" = Some (Ok o) ∧
    saved_events o = [] ∧ saved_stats o = mkStats 0 0 0.
Proof.
  assert (days_in_month 2024 12 = 31) as Hdec by reflexivity.
  destruct (main_before_start int_ascii 1 dead_server "2024-12-31" 2024 12 31)
    as (o & Ho & Hsaved & _ & Hstats & _).
  - reflexivity.
  - unfold calendar_date. rewrite Hdec. lia.
  - by vm_compute.
  - by exists o.
Defined.
